(** * Sample-size calculator: a shallow embedding of the calculation engine

    The engine is JavaScript and computes on the language's only numeric
    type, the IEEE-754 binary64 [Number].  Every function is embedded once,
    over an interface [JSNumber] that lists the operations the source
    applies to numbers, and the interface has two instances:

    - [float], Rocq's primitive binary64 numbers: the arithmetic of the
      engine that runs the code, rounding included; the definitions
      evaluate with [vm_compute];
    - [R], exact real arithmetic: the reading in which the formulas of the
      specification are written (square roots, ceilings and quotients
      without rounding).  There is no NaN and no infinity in this reading,
      and what it says about a quotient supposes a divisor other than 0.

    A statement that holds for every instance holds in both readings.
    The state a calculator reads is a record of numbers and booleans, as
    the input handlers store them.  The display string of a result is kept
    as the pieces of its template, and of [drawPopulationGrid] the layout
    is embedded, not the drawing on the canvas. *)

From Stdlib Require Import ZArith QArith Reals Lra Lia Floats List String Bool.
From Stdlib Require Import Psatz Sorted.
Import ListNotations.

Set Implicit Arguments.

(** ** The JavaScript [Number] interface *)

Class JSNumber (num : Type) : Type := {
  of_Z : Z -> num;                 (* an integer literal *)
  add : num -> num -> num;         (* x + y *)
  sub : num -> num -> num;         (* x - y *)
  mul : num -> num -> num;         (* x * y *)
  div : num -> num -> num;         (* x / y *)
  Math_abs : num -> num;
  Math_sqrt : num -> num;
  Math_ceil : num -> num;
  Math_floor : num -> num;
  ltb : num -> num -> bool;        (* x < y *)
  leb : num -> num -> bool;        (* x <= y *)
  eqb : num -> num -> bool;        (* x === y on numbers *)
  isNaN : num -> bool;
  parseInt : num -> num            (* parseInt(x) for a number x *)
}.

Declare Scope js_scope.
Delimit Scope js_scope with js.
Infix "+" := add : js_scope.
Infix "-" := sub : js_scope.
Infix "*" := mul : js_scope.
Infix "/" := div : js_scope.
Infix "<?" := ltb : js_scope.
Infix "<=?" := leb : js_scope.
Infix "===" := eqb (at level 70, no associativity) : js_scope.
Notation "x >? y" := (ltb y x) (at level 70, no associativity) : js_scope.

Section Literals.
Context {num : Type} {JN : JSNumber num}.

(** A numeric literal of the source.  [0.842] is the binary64 nearest to
    842/1000; IEEE division of the two exactly representable integers is
    that correctly rounded quotient. *)
Definition lit (q : Q) : num :=
  match Qden q with
  | 1%positive => of_Z (Qnum q)
  | d => div (of_Z (Qnum q)) (of_Z (Zpos d))
  end.
End Literals.

Notation "'$' q" := (lit q%Q) (at level 1, q at level 0, format "'$' q") : js_scope.


(** Values derived from the interface, as the language defines them. *)
Section Derived.
Context {num : Type} {JN : JSNumber num}.
Open Scope js_scope.

(** ToBoolean on a number: [0], [-0] and [NaN] are falsy. *)
Definition truthy (x : num) : bool := negb ((x === $0) || isNaN x).

(** [x || d] for a number [x]. *)
Definition js_or (x d : num) : num := if truthy x then x else d.

(** [o || d] where [o] is a property read that may be [undefined]. *)
Definition js_or_undef (o : option num) (d : num) : num :=
  match o with
  | Some v => js_or v d
  | None => d
  end.

(** [parseFloat(x)] for a number [x]: the number is printed and read
    back, which returns it unchanged but for [-0], printed as "0". *)
Definition parseFloat (x : num) : num := if x === $0 then $0 else x.

(** [Math.pow(x, 2)].  The source raises to the literal exponent 2 only,
    for which the engines' [pow] returns the product [x * x]. *)
Definition Math_pow2 (x : num) : num := x * x.

(** [Math.max(a, b)]: NaN if either argument is.  (The sign of a zero is
    not looked at: the arguments of the source are never [-0].) *)
Definition Math_max (a b : num) : num :=
  if isNaN a then a else if isNaN b then b else if a <? b then b else a.

(** [m[p]] for an object literal [m] with integer keys and a number [p]:
    the key is the decimal print of [p], so the entry read is the one
    whose key equals [p] numerically, if any. *)
Fixpoint lookup (m : list (Z * num)) (p : num) : option num :=
  match m with
  | [] => None
  | (k, v) :: rest => if p === of_Z k then Some v else lookup rest p
  end.
End Derived.

(** ** Instance: binary64 *)

Module Float64.
Open Scope float_scope.

(** The binary64 nearest to an integer. *)
Definition fromZ (z : Z) : float := SF2Prim (binary_normalize prec emax z 0 false).

Definition two52 : float := Eval vm_compute in fromZ (2 ^ 52).

(** The integer nearest to [x], for [|x| < 2^52]: adding and removing
    [2^52] rounds at unit precision. *)
Definition nearest (x : float) : float :=
  if 0 <? x then (x + two52) - two52 else (x - two52) + two52.

(** A zero result of [ceil] and [floor] carries the sign of the argument. *)
Definition signed_zero (x r : float) : float :=
  if r =? 0 then (if get_sign x then neg_zero else zero) else r.

(** [Math.ceil] and [Math.floor]; from [2^52] on every number is an
    integer, and NaN and the infinities are returned as they are. *)
Definition ceil (x : float) : float :=
  if abs x <? two52 then
    let t := nearest x in
    signed_zero x (if t <? x then t + 1 else t)
  else x.

Definition floor (x : float) : float :=
  if abs x <? two52 then
    let t := nearest x in
    signed_zero x (if x <? t then t - 1 else t)
  else x.

(** [parseInt] prints its argument and reads the leading integer: NaN
    for NaN and the infinities, the truncation toward zero for a finite
    number printed in positional notation (1e-6 <= |x| < 1e21, and 0). *)
Definition integer_prefix (x : float) : float :=
  if is_nan x || is_infinity x then nan
  else if x =? 0 then zero
  else if x <? 0 then ceil x else floor x.

#[global] Instance number : JSNumber float := {|
  of_Z := fromZ;
  add := PrimFloat.add;
  sub := PrimFloat.sub;
  mul := PrimFloat.mul;
  div := PrimFloat.div;
  Math_abs := PrimFloat.abs;
  Math_sqrt := PrimFloat.sqrt;
  Math_ceil := ceil;
  Math_floor := floor;
  ltb := PrimFloat.ltb;
  leb := PrimFloat.leb;
  eqb := PrimFloat.eqb;
  isNaN := PrimFloat.is_nan;
  parseInt := integer_prefix
|}.
End Float64.

(** ** Instance: exact reals *)

Module Exact.
Open Scope R_scope.

Definition floor (x : R) : R := IZR (Int_part x).
Definition ceil (x : R) : R := IZR (- Int_part (- x)).
Definition less (x y : R) : bool := if Rlt_dec x y then true else false.
Definition less_eq (x y : R) : bool := if Rle_dec x y then true else false.
Definition same (x y : R) : bool := if Req_dec_T x y then true else false.
Definition trunc (x : R) : R := if Rlt_dec x 0 then ceil x else floor x.

#[global] Instance number : JSNumber R := {|
  of_Z := IZR;
  add := Rplus;
  sub := Rminus;
  mul := Rmult;
  div := Rdiv;
  Math_abs := Rabs;
  Math_sqrt := R_sqrt.sqrt;
  Math_ceil := ceil;
  Math_floor := floor;
  ltb := less;
  leb := less_eq;
  eqb := same;
  isNaN := fun _ => false;
  parseInt := trunc
|}.
End Exact.

(** ** Result records *)

(** [{ n1, n2, total }], the estimate of one method. *)
Module Estimate.
Record t (num : Type) : Type := make { n1 : num; n2 : num; total : num }.
End Estimate.

(** The object returned by [calculateAdvanced]. *)
Record MethodTable (num : Type) : Type := {
  kelsey : Estimate.t num;
  fleiss : Estimate.t num;
  fleiss_cc : Estimate.t num
}.

(** [visualData]: the two group counts handed to the grid, with labels. *)
Module Visual.
Record t (num : Type) : Type := make {
  n1 : num; n2 : num; label1 : string; label2 : string
}.
End Visual.

(** The field [n] of a result is a number or the string ['Error']. *)
Inductive NValue (num : Type) : Type :=
| NNumber (x : num)
| NString (s : string).
Arguments NString {num} s.

(** A display string is kept as the pieces of its template literal; the
    printing of numbers ([toFixed], string conversion) is not evaluated. *)
Inductive Segment (num : Type) : Type :=
| Text (s : string)
| ToFixed (x : num) (digits : nat)
| Print (x : num).
Arguments Text {num} s.

(** The object a [calc] returns.  A field that is [null] or absent in the
    source is [None]: every reader of the result tests it for truth. *)
Record CalcResult (num : Type) : Type := {
  n : NValue num;
  display : list (Segment num);
  table : option (MethodTable num);
  visualData : option (Visual.t num)
}.

(** ** Z-score tables and the comparative estimator *)

Section Engine.
Context {num : Type} {JN : JSNumber num}.
Open Scope js_scope.

Definition Z_MAP : list (Z * num) :=
  [ (80, $0.842); (81, $0.878); (82, $0.915); (83, $0.954); (84, $0.994);
    (85, $1.036); (86, $1.080); (87, $1.126); (88, $1.175); (89, $1.227);
    (90, $1.282); (91, $1.341); (92, $1.405); (93, $1.476); (94, $1.555);
    (95, $1.645); (96, $1.751); (97, $1.881); (98, $2.054); (99, $2.326) ]%Z.

Definition Z_ALPHA_MAP : list (Z * num) :=
  [ (90, $1.645); (95, $1.96); (98, $2.326); (99, $2.576) ]%Z.

Definition getZBeta (p : num) : num :=
  js_or_undef (lookup Z_MAP p) $0.842.

Definition getZAlpha (c : num) : num :=
  let range_approx :=
    if c <? $95 then $1.645
    else if c <? $98 then $1.96
    else if c <? $99 then $2.326
    else $2.576 in
  match lookup Z_ALPHA_MAP c with
  | Some v => if truthy v then v else range_approx
  | None => range_approx
  end.

Definition dropoutNote (dropout : bool) : list (Segment num) :=
  if dropout then [Text " (Incl. 10% Dropout)"] else [].

Definition calculateAdvanced (p1 p2 ratio alpha beta : num) (dropout : bool)
  : MethodTable num :=
  let r := js_or (parseFloat ratio) $1 in
  let za := getZAlpha (($1 - alpha) * $100) in
  let zb := getZBeta (($1 - beta) * $100) in

  let p_avg := (p1 + r * p2) / ($1 + r) in
  let p1_q1 := p1 * ($1 - p1) in
  let p2_q2 := p2 * ($1 - p2) in
  let p_avg_q_avg := p_avg * ($1 - p_avg) in

  (* Kelsey *)
  let kelsey_num := Math_pow2 (za + zb) * p_avg_q_avg * (r + $1) in
  let kelsey_den := r * Math_pow2 (p1 - p2) in
  let n1_kelsey := Math_ceil (kelsey_num / kelsey_den) in

  (* Fleiss *)
  let term1 := za * Math_sqrt ((r + $1) * p_avg_q_avg) in
  let term2 := zb * Math_sqrt ((r * p1_q1) + p2_q2) in
  let fleiss_num := Math_pow2 (term1 + term2) in
  let fleiss_den := r * Math_pow2 (p1 - p2) in
  let n1_fleiss := Math_ceil (fleiss_num / fleiss_den) in

  (* Fleiss with continuity correction *)
  let n1_uncorrected := fleiss_num / fleiss_den in
  let cc_term := $2 * (r + $1) / (n1_uncorrected * r * Math_abs (p1 - p2)) in
  let n1_cc := (n1_uncorrected / $4) * Math_pow2 ($1 + Math_sqrt ($1 + cc_term)) in
  let n1_fleiss_cc := Math_ceil n1_cc in

  (* Apply dropout *)
  let n1_kelsey := if dropout then Math_ceil (n1_kelsey / $0.9) else n1_kelsey in
  let n1_fleiss := if dropout then Math_ceil (n1_fleiss / $0.9) else n1_fleiss in
  let n1_fleiss_cc :=
    if dropout then Math_ceil (n1_fleiss_cc / $0.9) else n1_fleiss_cc in

  {| kelsey := {| Estimate.n1 := n1_kelsey;
                  Estimate.n2 := Math_ceil (n1_kelsey * r);
                  Estimate.total := n1_kelsey + Math_ceil (n1_kelsey * r) |};
     fleiss := {| Estimate.n1 := n1_fleiss;
                  Estimate.n2 := Math_ceil (n1_fleiss * r);
                  Estimate.total := n1_fleiss + Math_ceil (n1_fleiss * r) |};
     fleiss_cc := {| Estimate.n1 := n1_fleiss_cc;
                     Estimate.n2 := Math_ceil (n1_fleiss_cc * r);
                     Estimate.total := n1_fleiss_cc + Math_ceil (n1_fleiss_cc * r) |} |}.
End Engine.

(** ** The design calculators, [MODES[...].calc] *)

Module Prevalence.
Record State (num : Type) : Type := {
  prevalence : num; precision : num; fpc : bool; dropout : bool; popSize : num
}.

Section Calc.
Context {num : Type} {JN : JSNumber num}.
Open Scope js_scope.

Definition calc (state : State num) : CalcResult num :=
  let P := prevalence state / $100 in
  let Q := $1 - P in
  let D := precision state / $100 in
  let n := ($4 * P * Q) / (D * D) in
  let n :=
    if fpc state && (popSize state >? $0) then
      let pop := parseInt (popSize state) in
      n / ($1 + (n / pop))
    else n in
  (* Dropout correction *)
  let n := if dropout state then n / $0.9 else n in
  let displayStr :=
    [Text "P="; ToFixed P 2; Text " Q="; ToFixed Q 2; Text " D="; ToFixed D 2]
    ++ dropoutNote (dropout state) in
  {| n := NNumber (Math_ceil n);
     display := displayStr;
     table := None;
     visualData := None |}.
End Calc.
End Prevalence.

Module CaseControl.
Record State (num : Type) : Type := {
  p_controls : num; or_ : num; power : num; confidence : num;
  ratio : num; dropout : bool
}.

Section Calc.
Context {num : Type} {JN : JSNumber num}.
Open Scope js_scope.

(** The proportion exposed in cases, from the odds ratio. *)
Definition derivedP1 (OR P0 : num) : num := (OR * P0) / ($1 + P0 * (OR - $1)).

Definition infiniteN : CalcResult num :=
  {| n := NNumber $0;
     display := [Text "OR=1 implies no effect. N is infinite."];
     table := None; visualData := None |}.

Definition impossibleInputs : CalcResult num :=
  {| n := NString "Error";
     display := [Text "Impossible inputs: P1 > 100%. Lower Baseline or OR."];
     table := None; visualData := None |}.

Definition calc (state : State num) : CalcResult num :=
  let P0 := parseFloat (p_controls state) / $100 in
  let OR := parseFloat (or_ state) in
  let r := js_or (parseFloat (ratio state)) $1 in
  let power := parseInt (power state) in
  let conf := js_or (parseInt (confidence state)) $95 in
  let alpha := ($100 - conf) / $100 in
  let beta := ($100 - power) / $100 in
  (* Floating point safety for OR=1 *)
  if Math_abs (OR - $1) <? $0.001 then infiniteN
  else
    let P1 := derivedP1 OR P0 in
    (* Safety cap for P1 *)
    if P1 >? $0.999 then impossibleInputs
    else
      let results := calculateAdvanced P1 P0 r alpha beta (dropout state) in
      let displayStr :=
        [Text "P_cases="; ToFixed (P1 * $100) 2;
         Text "% P_controls="; ToFixed (P0 * $100) 2;
         Text "% OR="; Print OR]
        ++ dropoutNote (dropout state) in
      {| n := NNumber (Estimate.total (fleiss results));
         display := displayStr;
         table := Some results;
         visualData := Some
           {| Visual.n1 := Estimate.n2 (fleiss results);  (* controls *)
              Visual.n2 := Estimate.n1 (fleiss results);  (* cases *)
              Visual.label1 := "Controls";
              Visual.label2 := "Cases" |} |}.
End Calc.
End CaseControl.

(** The result both comparative calculators return for equal proportions. *)
Definition equalProportions {num : Type} : CalcResult num :=
  {| n := NString "Error";
     display := [Text "P1 and P2 cannot be equal."];
     table := None; visualData := None |}.

Module Cohort.
Record State (num : Type) : Type := {
  p_unexposed : num; p_exposed : num; power : num; confidence : num;
  ratio : num; dropout : bool
}.

Section Calc.
Context {num : Type} {JN : JSNumber num}.
Open Scope js_scope.

Definition calc (state : State num) : CalcResult num :=
  let P2 := parseFloat (p_unexposed state) / $100 in  (* unexposed *)
  let P1 := parseFloat (p_exposed state) / $100 in    (* exposed *)
  let RR := if P2 >? $0 then P1 / P2 else $0 in
  let RD := (P1 - P2) * $100 in
  let r := js_or (parseFloat (ratio state)) $1 in
  let power := parseInt (power state) in
  let conf := js_or (parseInt (confidence state)) $95 in
  let alpha := ($100 - conf) / $100 in
  let beta := ($100 - power) / $100 in
  if Math_abs (P1 - P2) <? $0.0001 then equalProportions
  else
    let results := calculateAdvanced P1 P2 r alpha beta (dropout state) in
    let displayStr :=
      [Text "P1="; ToFixed (P1 * $100) 2; Text "% P2="; ToFixed (P2 * $100) 2;
       Text "% RR="; ToFixed RR 2; Text " RD="; ToFixed RD 2; Text "%"]
      ++ dropoutNote (dropout state) in
    {| n := NNumber (Estimate.total (fleiss results));
       display := displayStr;
       table := Some results;
       visualData := Some
         {| Visual.n1 := Estimate.n2 (fleiss results);  (* unexposed *)
            Visual.n2 := Estimate.n1 (fleiss results);  (* exposed *)
            Visual.label1 := "Unexposed";
            Visual.label2 := "Exposed" |} |}.
End Calc.
End Cohort.

Module RCT.
Record State (num : Type) : Type := {
  p1 : num; p2 : num; power : num; confidence : num;
  ratio : num; dropout : bool
}.

Section Calc.
Context {num : Type} {JN : JSNumber num}.
Open Scope js_scope.

Definition calc (state : State num) : CalcResult num :=
  let P1 := parseFloat (p1 state) / $100 in  (* control, group 1 *)
  let P2 := parseFloat (p2 state) / $100 in  (* treatment, group 2 *)
  let r := js_or (parseFloat (ratio state)) $1 in
  let power := parseInt (power state) in
  let conf := js_or (parseInt (confidence state)) $95 in
  let alpha := ($100 - conf) / $100 in
  let beta := ($100 - power) / $100 in
  if Math_abs (P1 - P2) <? $0.0001 then equalProportions
  else
    let results := calculateAdvanced P2 P1 r alpha beta (dropout state) in
    let displayStr :=
      [Text "P1="; ToFixed (P1 * $100) 2; Text "% P2="; ToFixed (P2 * $100) 2;
       Text "% Power="; Print power; Text "% Conf="; Print conf; Text "%"]
      ++ dropoutNote (dropout state) in
    {| n := NNumber (Estimate.total (fleiss results));
       display := displayStr;
       table := Some results;
       visualData := Some
         {| Visual.n1 := Estimate.n2 (fleiss results);  (* control, group 1 *)
            Visual.n2 := Estimate.n1 (fleiss results);  (* treatment, group 2 *)
            Visual.label1 := "Group 1";
            Visual.label2 := "Group 2" |} |}.
End Calc.
End RCT.

(** ** The population grid *)

(** What [drawPopulationGrid] computes before it draws: the cell size, the
    participants per dot and the dots of each group. *)
Record GridLayout (num : Type) : Type := {
  bestCellSize : Z;
  scale : num;
  sN1 : num;
  sN2 : num;
  cols : num
}.

Section Grid.
Context {num : Type} {JN : JSNumber num}.
Open Scope js_scope.

Definition PRESET_SIZES : list Z := [20; 15; 12; 10; 8; 6; 5; 4; 3]%Z.

Definition getCapacity (groupW groupH : num) (cellSize : Z) : num :=
  let cols := Math_floor (groupW / of_Z cellSize) in
  let rows := Math_floor (groupH / of_Z cellSize) in
  cols * rows.

(** [for (let size of sizes) if (maxN <= getCapacity(size)) { bestCellSize
    = size; break; }], with [bestCellSize] initially 0. *)
Fixpoint findBestCellSize (groupW groupH maxN : num) (sizes : list Z) : Z :=
  match sizes with
  | [] => 0%Z
  | size :: rest =>
      if maxN <=? getCapacity groupW groupH size then size
      else findBestCellSize groupW groupH maxN rest
  end.

(** [groupW] and [groupH], the area of one group, from the canvas size. *)
Definition groupW_of (w : num) : num :=
  let padding := $20 in
  let contentW := w - padding * $2 in
  let gap := $40 in
  (contentW - gap) / $2.

Definition groupH_of (h : num) : num := h - $80.

Definition drawPopulationGrid (w h : num) (data : Visual.t num) : GridLayout num :=
  let n1 := js_or (Visual.n1 data) $0 in
  let n2 := js_or (Visual.n2 data) $0 in
  let groupW := groupW_of w in
  let groupH := groupH_of h in
  let maxN := Math_max n1 n2 in
  (* 1. the best discrete size for 1:1 *)
  let bestCellSize := findBestCellSize groupW groupH maxN PRESET_SIZES in
  (* 2. if even the smallest size does not fit, scale *)
  let '(bestCellSize, scale) :=
    if (bestCellSize =? 0)%Z then
      let maxCap := getCapacity groupW groupH 3 in
      (3%Z, Math_ceil (maxN / maxCap))
    else (bestCellSize, $1) in
  let sN1 := Math_ceil (n1 / scale) in
  let sN2 := Math_ceil (n2 / scale) in
  {| bestCellSize := bestCellSize;
     scale := scale;
     sN1 := sN1;
     sN2 := sN2;
     cols := Math_floor (groupW / of_Z bestCellSize) |}.
End Grid.

(** ** The formulas of the specification

    Written after the words of the specification, to be compared with what
    the code computes. *)

Module Spec.
Section Formulas.
Context {num : Type} {JN : JSNumber num}.
Open Scope js_scope.

Definition sq (x : num) : num := x * x.

Definition pAvg (p1 p2 r : num) : num := (p1 + r * p2) / ($1 + r).

Definition pAvgQAvg (p1 p2 r : num) : num :=
  pAvg p1 p2 r * ($1 - pAvg p1 p2 r).

Definition kelsey (zAlpha zBeta p1 p2 r : num) : num :=
  sq (zAlpha + zBeta) * pAvgQAvg p1 p2 r * (r + $1) / (r * sq (p1 - p2)).

(** The two quantities under a square root in the Fleiss estimate. *)
Definition pooledVariance (p1 p2 r : num) : num := (r + $1) * pAvgQAvg p1 p2 r.
Definition groupVariance (p1 p2 r : num) : num :=
  r * (p1 * ($1 - p1)) + p2 * ($1 - p2).

Definition term1 (zAlpha p1 p2 r : num) : num :=
  zAlpha * Math_sqrt (pooledVariance p1 p2 r).
Definition term2 (zBeta p1 p2 r : num) : num :=
  zBeta * Math_sqrt (groupVariance p1 p2 r).

(** The unrounded Fleiss value, [n1_raw]. *)
Definition fleiss (zAlpha zBeta p1 p2 r : num) : num :=
  sq (term1 zAlpha p1 p2 r + term2 zBeta p1 p2 r) / (r * sq (p1 - p2)).

Definition correctionTerm (zAlpha zBeta p1 p2 r : num) : num :=
  $2 * (r + $1) / (fleiss zAlpha zBeta p1 p2 r * r * Math_abs (p1 - p2)).

Definition fleissCC (zAlpha zBeta p1 p2 r : num) : num :=
  (fleiss zAlpha zBeta p1 p2 r / $4)
  * sq ($1 + Math_sqrt ($1 + correctionTerm zAlpha zBeta p1 p2 r)).

(** Dropout on a rounded reference-group count, then the paired group
    and the total. *)
Definition withDropout (n1 : num) (enabled : bool) : num :=
  if enabled then Math_ceil (n1 / $0.9) else n1.

Definition groups (n1 r : num) : Estimate.t num :=
  {| Estimate.n1 := n1;
     Estimate.n2 := Math_ceil (n1 * r);
     Estimate.total := n1 + Math_ceil (n1 * r) |}.



(** The banded two-sided quantile, by integer percentage. *)
Definition zAlpha (confidencePercent : Z) : num :=
  if (confidencePercent =? 90)%Z then $1.645
  else if (confidencePercent =? 95)%Z then $1.96
  else if (confidencePercent =? 98)%Z then $2.326
  else if (confidencePercent =? 99)%Z then $2.576
  else if (confidencePercent <? 95)%Z then $1.645
  else if (confidencePercent <? 98)%Z then $1.96
  else if (confidencePercent <? 99)%Z then $2.326
  else $2.576.
End Formulas.
End Spec.

(** ** Sample inputs *)

Section Samples.
Context {num : Type} {JN : JSNumber num}.
Open Scope js_scope.


(** A case-control input at 80% power, 95% confidence and ratio 1. *)
Definition case_control_sample (p_controls or_ : num) : CaseControl.State num :=
  {| CaseControl.p_controls := p_controls; CaseControl.or_ := or_;
     CaseControl.power := $80; CaseControl.confidence := $95;
     CaseControl.ratio := $1; CaseControl.dropout := false |}.

(** An RCT input at 80% power, 95% confidence and ratio 2. *)
Definition rct_sample (p1 p2 : num) : RCT.State num :=
  {| RCT.p1 := p1; RCT.p2 := p2; RCT.power := $80; RCT.confidence := $95;
     RCT.ratio := $2; RCT.dropout := false |}.


(** Two groups of [a] and [b] participants for the grid. *)
Definition groups_sample (a b : num) : Visual.t num :=
  {| Visual.n1 := a; Visual.n2 := b;
     Visual.label1 := "Group 1"; Visual.label2 := "Group 2" |}.

(** Case-control inputs over the range of the form: exposure of the
    controls from 0.1% to 99.9%, odds ratios from 0.01 to 1000. *)
Definition case_control_grid : list (CaseControl.State num) :=
  flat_map (fun p => map (case_control_sample p)
                         [$0.01; $0.5; $0.999; $1.001; $2; $10; $1000])
           [$0.1; $1; $30; $50; $90; $99.9].
End Samples.

(** ** Laws of an instance *)

Unset Implicit Arguments.

(** What the generic statements below need from an instance: a number
    above zero is neither zero nor NaN, so it is truthy and [parseFloat]
    returns it. *)
Class JSNumberLaws (num : Type) {JN : JSNumber num} : Prop := {
  pos_not_zero : forall x : num, ($0 <? x)%js = true -> (x === $0)%js = false;
  pos_not_NaN : forall x : num, ($0 <? x)%js = true -> isNaN x = false
}.
Arguments JSNumberLaws num {JN}.

(** ** Auxiliary definitions for the statements *)

Section Auxiliary.
Context {num : Type} {JN : JSNumber num}.
Open Scope js_scope.

(** The test of the loop of the grid: the larger group fits at one dot a
    participant. *)
Definition fits (groupW groupH maxN : num) (size : Z) : bool :=
  maxN <=? getCapacity groupW groupH size.
End Auxiliary.

(** The integers [lo, lo + len). *)
Definition Z_range (lo : Z) (len : nat) : list Z :=
  map (fun i => (lo + Z.of_nat i)%Z) (seq 0 len).

(** The binary64 [getZAlpha] agrees with the banded table at [c]. *)
Definition zAlpha_agrees (c : Z) : bool :=
  PrimFloat.Leibniz.eqb (getZAlpha (of_Z c)) (Spec.zAlpha c).

(** The entry of an integer-keyed table at an integer. *)
Fixpoint assocZ (m : list (Z * R)) (z : Z) : option R :=
  match m with
  | [] => None
  | (k, v) :: rest => if (z =? k)%Z then Some v else assocZ rest z
  end.

(** The percentage the estimator looks up, from the [alpha] or [beta] a
    calculator derives of an integer percentage [c]; binary64 recovers
    [c]. *)
Definition percent_recovered (c : Z) : bool :=
  PrimFloat.Leibniz.eqb
    (($1 - ($100 - of_Z c) / $100) * $100)%js (of_Z c).



Set Implicit Arguments.

(** ** More of the interface: remainder, minimum, greater-or-equal *)

Notation "x >=? y" := (leb y x) (at level 70, no associativity) : js_scope.

(** [x % y] on numbers. *)
Class JSRemainder (num : Type) : Type := {
  rem : num -> num -> num
}.

Module Float64Rem.
Open Scope Z_scope.

(** The remainder of IEEE-754, which [%] is: NaN when [x] is not finite or [y]
    is zero, [x] when [y] is infinite or [x] is zero, and otherwise [x - q*y]
    for the quotient [q] truncated toward zero: exact, with the sign of [x].
    Computed on the integer significands brought to a common exponent. *)
Definition fmod (x y : float) : float :=
  match Prim2SF x, Prim2SF y with
  | S754_nan, _ | _, S754_nan => nan
  | S754_infinity _, _ => nan
  | _, S754_zero _ => nan
  | S754_zero _, _ => x
  | _, S754_infinity _ => x
  | S754_finite sx mx ex, S754_finite _ my ey =>
      let e := Z.min ex ey in
      let X := Zpos mx * 2 ^ (ex - e) in
      let Y := Zpos my * 2 ^ (ey - e) in
      let R := X mod Y in
      if R =? 0 then (if sx then neg_zero else zero)
      else SF2Prim (binary_normalize prec emax (if sx then - R else R) e false)
  end.

#[global] Instance remainder : JSRemainder float := {| rem := fmod |}.
End Float64Rem.

Module ExactRem.
Open Scope R_scope.

(** In exact arithmetic, [x - y * trunc(x / y)]. *)
Definition fmod (x y : R) : R := x - y * Exact.trunc (x / y).

#[global] Instance remainder : JSRemainder R := {| rem := fmod |}.
End ExactRem.

Section MoreDerived.
Context {num : Type} {JN : JSNumber num}.
Open Scope js_scope.

(** [Math.min(a, b)]: NaN if either argument is.  (As for [Math_max], the
    sign of a zero is not looked at.) *)
Definition Math_min (a b : num) : num :=
  if isNaN a then a else if isNaN b then b else if b <? a then b else a.
End MoreDerived.

(** ** The two-means design, [MODES['two-means'].calc] *)

Module TwoMeans.
Record State (num : Type) : Type := {
  mean1 : num; sd1 : num; mean2 : num; sd2 : num; ratio : num;
  power : num; confidence : num; dropout : bool
}.

Section Calc.
Context {num : Type} {JN : JSNumber num}.
Open Scope js_scope.

Definition equalMeans : CalcResult num :=
  {| n := NString "Error";
     display := [Text "Means cannot be equal."];
     table := None; visualData := None |}.

Definition calc (state : State num) : CalcResult num :=
  let m1 := parseFloat (mean1 state) in
  let s1 := parseFloat (sd1 state) in
  let m2 := parseFloat (mean2 state) in
  let s2 := parseFloat (sd2 state) in
  let r := js_or (parseFloat (ratio state)) $1 in
  let power := parseInt (power state) in
  let conf := js_or (parseInt (confidence state)) $95 in
  let za := getZAlpha conf in
  let zb := getZBeta power in
  if m1 === m2 then equalMeans
  else
    let num_ := Math_pow2 (za + zb) * (s1 * s1 + (s2 * s2) / r) in
    let den := Math_pow2 (m1 - m2) in
    let n1 := Math_ceil (num_ / den) in
    let n1 := if dropout state then Math_ceil (n1 / $0.9) else n1 in
    let n2 := Math_ceil (n1 * r) in
    let total := n1 + n2 in
    let displayStr :=
      [Text "M1="; Print m1; Text " SD1="; Print s1; Text " M2="; Print m2;
       Text " SD2="; Print s2; Text " Diff="; ToFixed (m1 - m2) 2]
      ++ dropoutNote (dropout state) in
    {| n := NNumber total;
       display := displayStr;
       table := None;
       visualData := Some
         {| Visual.n1 := n1;  (* group 1 *)
            Visual.n2 := n2;  (* group 2 *)
            Visual.label1 := "Group 1";
            Visual.label2 := "Group 2" |} |}.
End Calc.
End TwoMeans.

(** ** What [calculate] shows of a result *)

(** The headline number or word, whether the caption 'Kelsey Estimate' is
    under it, its font size, the parameter line, the comparison table and the
    data kept for the grid. *)
Record Shown (num : Type) : Type := {
  mainValue : NValue num;
  kelseyCaption : bool;
  fontSize : string;
  dynamicParams : list (Segment num);
  comparison : option (MethodTable num);
  currentVisualData : option (Visual.t num)
}.

Section Calculate.
Context {num : Type}.

Definition calculate (result : CalcResult num) : Shown num :=
  let mainValue := n result in
  let subText := false in
  let '(mainValue, subText) :=
    match table result with
    | Some t => (NNumber (Estimate.total (kelsey t)), true)
    | None => (mainValue, subText)
    end in
  {| mainValue := mainValue;
     kelseyCaption := match mainValue with NString _ => false | NNumber _ => subText end;
     fontSize := match mainValue with NString _ => "3rem" | NNumber _ => "5rem" end;
     dynamicParams := display result;
     comparison := table result;
     currentVisualData := visualData result |}.
End Calculate.

(** ** The first version of the page, [updateCalculation] of script.js *)

Section FirstVersion.
Context {num : Type} {JN : JSNumber num}.
Open Scope js_scope.

Definition FORMULA_CONSTANT : num := $4.

(** The value assigned to [n], from the slider values [p] and [d]. *)
Definition updateCalculation (p d : num) : num :=
  let P := p / $100 in
  let Q := $1 - P in
  let D := d / $100 in
  let numerator := FORMULA_CONSTANT * P * Q in
  let denominator := D * D in
  Math_ceil (numerator / denominator).
End FirstVersion.

(** ** The background particles, [Particle.update] *)

Module Particle.
Record t (num : Type) : Type := {
  x : num; y : num; vx : num; vy : num; size : num; color : string
}.

Section Update.
Context {num : Type} {JN : JSNumber num}.
Open Scope js_scope.

Definition update (this : t num) (w h : num) : t num :=
  let x := x this + vx this in
  let y := y this + vy this in
  let x := if x <? $0 then w else x in
  let x := if x >? w then $0 else x in
  let y := if y <? $0 then h else y in
  let y := if y >? h then $0 else y in
  {| x := x; y := y; vx := vx this; vy := vy this;
     size := size this; color := color this |}.
End Update.
End Particle.

(** ** What [drawPopulationGrid] draws *)

Section GridDrawing.
Context {num : Type} {JN : JSNumber num} {JR : JSRemainder num}.
Open Scope js_scope.

Definition dotRadius (bestCellSize : Z) : num :=
  Math_max $1 (of_Z bestCellSize * $0.35).

(** The centres of the dots [drawGroup] draws, in the order of its loop
    [for (let i = 0; i < totalDots; i++)], from index [i] on; [fuel] bounds
    the number of iterations.  [h], [cols] and [bestCellSize] are the
    variables of the enclosing function. *)
Fixpoint drawGroup (fuel : nat) (h cols : num) (bestCellSize : Z)
    (xStart totalDots i : num) : list (num * num) :=
  match fuel with
  | O => []
  | S fuel' =>
      if i <? totalDots then
        let startY := $70 in
        let r := Math_floor (i / cols) in
        let c := rem i cols in
        let cx := xStart + c * of_Z bestCellSize + of_Z bestCellSize / $2 in
        let cy := startY + r * of_Z bestCellSize + of_Z bestCellSize / $2 in
        (* Safety break *)
        if cy >? h - $40 then []
        else (cx, cy)
             :: drawGroup fuel' h cols bestCellSize xStart totalDots (i + $1)
      else []
  end.

(** The legend under the grid. *)
Definition legendText (scale : num) (bestCellSize : Z) : list (Segment num) :=
  (if scale >? $1
   then [Text "* 1 Dot ≈ "; Print scale; Text " Participants"]
   else [Text "* 1 Dot = 1 Participant (Actual Size)"])
  ++ (if (bestCellSize <=? 4)%Z then [Text " (High Density)"] else []).

(** The dots of the two groups and the legend. *)
Record GridDrawing : Type := {
  dots1 : list (num * num);
  dots2 : list (num * num);
  radius : num;
  legend : list (Segment num)
}.

Definition drawPopulationGrid_dots (fuel : nat) (w h : num) (data : Visual.t num)
  : GridDrawing :=
  let L := drawPopulationGrid w h data in
  let gap := $40 in
  let groupW := groupW_of w in
  let x1 := w / $2 - gap / $2 - groupW in
  let x2 := w / $2 + gap / $2 in
  {| dots1 := drawGroup fuel h (cols L) (bestCellSize L) x1 (sN1 L) $0;
     dots2 := drawGroup fuel h (cols L) (bestCellSize L) x2 (sN2 L) $0;
     radius := dotRadius (bestCellSize L);
     legend := legendText (scale L) (bestCellSize L) |}.
End GridDrawing.


(** In exact arithmetic: the centre of the dot of index [i] in a group of
    [k] columns of cells of [s] pixels that starts at [xStart]. *)
Definition grid_cell (xStart : R) (s k i : Z) : R * R :=
  (xStart + IZR (i mod k) * IZR s + IZR s / 2,
   70 + IZR (i / k) * IZR s + IZR s / 2)%R.

(** The number of rows of cells of [s] pixels whose dots pass the test
    [cy > h - 40] of [drawGroup] on a canvas of height [h]. *)
Definition visible_rows (h : R) (s : Z) : Z :=
  Z.max 0 (Int_part ((h - 110 - IZR s / 2) / IZR s) + 1).
(** ** The prevalence curve, [drawPrevalenceCurve] *)

Section Curve.
Context {num : Type} {JN : JSNumber num}.
Open Scope js_scope.

(** [if (inputsState.fpc && inputsState.popSize) v = v / (1 + (v /
    inputsState.popSize))], the block the function applies to [maxN], to
    each [nVal] and to [currentN]. *)
Definition curveFPC (state : Prevalence.State num) (v : num) : num :=
  if Prevalence.fpc state && truthy (Prevalence.popSize state)
  then v / ($1 + (v / Prevalence.popSize state))
  else v.

Definition curve_maxN (state : Prevalence.State num) : num :=
  let D_val := js_or (Prevalence.precision state) $5 in
  let currentD := D_val / $100 in
  curveFPC state ($1 / (currentD * currentD)).

Definition curve_pixelsPerN (state : Prevalence.State num) (h : num) : num :=
  let padding := $20 in
  let graphH := h - padding * $2 in
  (graphH * $0.85) / curve_maxN state.

(** The value plotted at the abscissa [xVal], before and after the clamp. *)
Definition curve_nVal (state : Prevalence.State num) (xVal : num) : num :=
  let D_val := js_or (Prevalence.precision state) $5 in
  let currentD := D_val / $100 in
  curveFPC state (($4 * xVal * ($1 - xVal)) / (currentD * currentD)).

Definition curve_yVal (state : Prevalence.State num) (h nVal : num) : num :=
  let padding := $20 in
  h - padding - (nVal * curve_pixelsPerN state h).

Definition curve_clamp (h yVal : num) : num :=
  let padding := $20 in
  Math_max padding (Math_min (h - padding) yVal).

(** The points of the path, from the pixel [ix] on, in the order of the
    loop [for (let ix = 0; ix <= graphW; ix += 5)]; [fuel] bounds the number
    of iterations. *)
Fixpoint curve_points (fuel : nat) (state : Prevalence.State num) (w h ix : num)
  : list (num * num) :=
  match fuel with
  | O => []
  | S fuel' =>
      let padding := $20 in
      let graphW := w - padding * $2 in
      if ix <=? graphW then
        let xVal := ix / graphW in
        if (xVal <=? $0.01) || (xVal >=? $0.99)
        then curve_points fuel' state w h (ix + $5)
        else
          let nVal := curve_nVal state xVal in
          let yVal := curve_yVal state h nVal in
          let clampedY := curve_clamp h yVal in
          (padding + ix, clampedY) :: curve_points fuel' state w h (ix + $5)
      else []
  end.

(** The sample size at the current selection and the centre of its marker. *)
Definition curve_currentN (state : Prevalence.State num) : num :=
  let P_val := js_or (Prevalence.prevalence state) $50 in
  curve_nVal state (P_val / $100).

Definition curve_marker (state : Prevalence.State num) (w h : num) : num * num :=
  let padding := $20 in
  let graphW := w - padding * $2 in
  let P_val := js_or (Prevalence.prevalence state) $50 in
  let currentP := P_val / $100 in
  let currentN := curve_currentN state in
  let cx := padding + currentP * graphW in
  let cy := curve_clamp h (curve_yVal state h currentN) in
  (cx, cy).
End Curve.

(** ** The slider positions of the prevalence form *)

Section Sliders.
Context {num : Type} {JN : JSNumber num}.
Open Scope js_scope.

(** The state at prevalence [p] percent and precision [d] percent, without the
    finite-population correction. *)
Definition slider_state (p d : Z) (dropout : bool) : Prevalence.State num :=
  {| Prevalence.prevalence := of_Z p; Prevalence.precision := of_Z d;
     Prevalence.fpc := false; Prevalence.dropout := dropout;
     Prevalence.popSize := $1000 |}.
End Sliders.

(** The least integer not below [a / b], for [b > 0]. *)
Definition ceil_div (a b : Z) : Z := (- ((- a) / b))%Z.

(** The least integer not below 4PQ/D^2, and not below 4PQ/D^2/0.9 with
    dropout, computed on integers. *)
Definition exact_prevalence (p d : Z) (dropout : bool) : Z :=
  if dropout then ceil_div (40 * p * (100 - p)) (9 * d * d)
  else ceil_div (4 * p * (100 - p)) (d * d).

(** The slider positions (prevalence, precision) at which binary64 returns
    one participant more than [exact_prevalence]. *)
Definition overshoots (dropout : bool) : list (Z * Z) :=
  if dropout then
  [(10, 1); (10, 2); (10, 4); (19, 3); (19, 6); (46, 1); (46, 2); (46, 4);
   (82, 1); (82, 2); (82, 4); (99, 1); (99, 2)]%Z
  else
  [(1, 3); (1, 6); (10, 1); (10, 2); (10, 3); (10, 4); (10, 6); (10, 12);
   (10, 15); (18, 3); (18, 6); (18, 12); (19, 3); (19, 6); (19, 9);
   (19, 18); (20, 1); (20, 2); (20, 4); (20, 8); (20, 16); (44, 1);
   (44, 2); (44, 4); (44, 8); (45, 3); (45, 6); (45, 15); (46, 1); (46, 2);
   (46, 3); (46, 4); (46, 6); (46, 12); (82, 1); (82, 2); (82, 3); (82, 4);
   (82, 6); (82, 12); (83, 1); (83, 2); (84, 1); (84, 2); (84, 4); (84, 8);
   (84, 16); (94, 1); (94, 2); (94, 4); (95, 1); (95, 2); (95, 5);
   (95, 10); (96, 1); (96, 2); (96, 4); (96, 8); (96, 16); (97, 1);
   (97, 2); (98, 1); (98, 2); (98, 4); (98, 7); (98, 14); (99, 1); (99, 2);
   (99, 3); (99, 6)]%Z.

Definition overshoot (p d : Z) (dropout : bool) : Z :=
  if existsb (fun q => (fst q =? p)%Z && (snd q =? d)%Z) (overshoots dropout)
  then 1%Z else 0%Z.

(** The number of a result, NaN for a string. *)
Definition number_of (v : NValue float) : float :=
  match v with
  | NNumber x => x
  | NString _ => nan
  end.

Definition slider_checked (dropout : bool) (p d : Z) : bool :=
  PrimFloat.Leibniz.eqb
    (number_of (n (Prevalence.calc (slider_state p d dropout))))
    (of_Z (exact_prevalence p d dropout + overshoot p d dropout)).

(** ** A table of NaN *)

Definition NaN_estimate : Estimate.t float :=
  {| Estimate.n1 := nan; Estimate.n2 := nan; Estimate.total := nan |}.

Definition NaN_table : MethodTable float :=
  {| kelsey := NaN_estimate; fleiss := NaN_estimate; fleiss_cc := NaN_estimate |}.

(** ** Checks on the percentages of the form *)

(** The banded value of [getZAlpha], without the table of exact matches. *)
Section Bands.
Context {num : Type} {JN : JSNumber num}.
Open Scope js_scope.

Definition range_approx (c : num) : num :=
  if c <? $95 then $1.645
  else if c <? $98 then $1.96
  else if c <? $99 then $2.326
  else $2.576.
End Bands.

(** In binary64, the calculators' [power] and [conf] at an integer
    percentage [c] are [c], and the percentage the estimator computes back
    from [alpha] or [beta] is [c] again. *)
Definition percentage_kept (c : Z) : bool :=
  PrimFloat.Leibniz.eqb (parseInt (of_Z c)) (of_Z c)
  && PrimFloat.Leibniz.eqb (js_or (parseInt (of_Z c)) $95)%js (of_Z c)
  && PrimFloat.Leibniz.eqb
       (($1 - ($100 - parseInt (of_Z c)) / $100) * $100)%js (of_Z c).


(** ** Reading a result *)

(** The number in the field [n] of a result, if it is one. *)
Definition sample_size {num : Type} (res : CalcResult num) : option num :=
  match n res with
  | NNumber x => Some x
  | NString _ => None
  end.

(** A state of the prevalence form. *)
Definition prevalence_state {num : Type} (p d : num) (fpc dropout : bool)
    (popSize : num) : Prevalence.State num :=
  {| Prevalence.prevalence := p; Prevalence.precision := d;
     Prevalence.fpc := fpc; Prevalence.dropout := dropout;
     Prevalence.popSize := popSize |}.

(** The steps of the prevalence calculator in exact arithmetic: the raw
    size, the finite-population correction for a population [N], and the
    dropout inflation. *)
Module PrevalenceSteps.
Open Scope R_scope.
Definition raw (p d : R) : R :=
  4 * (p / 100) * (1 - p / 100) / (d / 100 * (d / 100)).
Definition corrected (f : bool) (N : Z) (x : R) : R :=
  if f then x / (1 + x / IZR N) else x.
Definition inflated (b : bool) (x : R) : R := if b then x / (9 / 10) else x.
End PrevalenceSteps.

(** ** Samples for the headline *)

Section HeadlineSamples.
Context {num : Type} {JN : JSNumber num}.
Open Scope js_scope.

(** A cohort study of 50% against 10% with three unexposed for each
    exposed. *)
Definition cohort_sample : Cohort.State num :=
  {| Cohort.p_unexposed := $10; Cohort.p_exposed := $50;
     Cohort.power := $80; Cohort.confidence := $95;
     Cohort.ratio := $3; Cohort.dropout := false |}.

(** What a comparative calculator returns and [calculate] shows of it:
    either a table, with the Kelsey total as headline and the Fleiss counts
    as [n] and as the groups of the grid, or no table, no grid and [n] as
    headline. *)
Definition headline_checked (res : CalcResult num) : Prop :=
  let shown := calculate res in
  match table res with
  | Some t =>
      mainValue shown = NNumber (Estimate.total (kelsey t))
      /\ kelseyCaption shown = true
      /\ fontSize shown = "5rem"%string
      /\ comparison shown = Some t
      /\ n res = NNumber (Estimate.total (fleiss t))
      /\ exists v, visualData res = Some v /\ currentVisualData shown = Some v
                   /\ Visual.n1 v = Estimate.n2 (fleiss t)
                   /\ Visual.n2 v = Estimate.n1 (fleiss t)
  | None =>
      mainValue shown = n res
      /\ kelseyCaption shown = false
      /\ comparison shown = None
      /\ currentVisualData shown = None
      /\ (n res = NString "Error" /\ fontSize shown = "3rem"%string
          \/ n res = NNumber $0 /\ fontSize shown = "5rem"%string)
  end.
End HeadlineSamples.

(** A state of the two-means form. *)
Definition two_means_state {num : Type} (m1 s1 m2 s2 r power conf : num)
    (dropout : bool) : TwoMeans.State num :=
  {| TwoMeans.mean1 := m1; TwoMeans.sd1 := s1;
     TwoMeans.mean2 := m2; TwoMeans.sd2 := s2;
     TwoMeans.ratio := r; TwoMeans.power := power;
     TwoMeans.confidence := conf; TwoMeans.dropout := dropout |}.

(** ** Frames of the background *)

(** The particle after [k] frames of [loop] on a canvas of [w] by [h]. *)
Definition frames {num : Type} {JN : JSNumber num} (k : nat) (w h : num)
    (p : Particle.t num) : Particle.t num :=
  Nat.iter k (fun q => Particle.update q w h) p.
(** ** The calculators of the previous revision

    The second copy of the script in the source file: the comparative
    calculators with a single formula each, before [calculateAdvanced]. *)

Module Previous.

Section Formula.
Context {num : Type} {JN : JSNumber num}.
Open Scope js_scope.

(** [Math.pow(Z_alpha_curr * Math.sqrt((1 + 1 / r) * P_avg * (1 - P_avg))
    + Z_beta * Math.sqrt(P1 * (1 - P1) + (P0 * (1 - P0) / r)), 2)], the
    numerator the three calculators write out. *)
Definition numerator (Z_alpha_curr Z_beta P1 P0 r : num) : num :=
  let P_avg := (P1 + r * P0) / ($1 + r) in
  Math_pow2 (Z_alpha_curr * Math_sqrt (($1 + $1 / r) * P_avg * ($1 - P_avg))
             + Z_beta * Math_sqrt (P1 * ($1 - P1) + (P0 * ($1 - P0) / r))).

Definition quantileNote (conf power Z_alpha_curr Z_beta : num)
  : list (Segment num) :=
  [Text " Power="; Print power; Text "% Conf="; Print conf;
   Text "% Z_{α/2}="; Print Z_alpha_curr; Text " Z_{β}="; Print Z_beta].
End Formula.

Module CaseControl.
Section Calc.
Context {num : Type} {JN : JSNumber num}.
Open Scope js_scope.

Definition calc (state : CaseControl.State num) : CalcResult num :=
  let P0 := CaseControl.p_controls state / $100 in
  let OR := parseFloat (CaseControl.or_ state) in
  let r := js_or (parseFloat (CaseControl.ratio state)) $1 in
  let power := parseInt (CaseControl.power state) in
  let conf := js_or (parseInt (CaseControl.confidence state)) $95 in
  let Z_beta := getZBeta power in
  let Z_alpha_curr := getZAlpha conf in
  (* Floating point safety for OR=1 *)
  if Math_abs (OR - $1) <? $0.001 then
    {| n := NNumber $0;
       display := [Text "OR=1 implies no effect. N is infinite."];
       table := None; visualData := None |}
  else
    let P1 := (OR * P0) / ($1 + P0 * (OR - $1)) in
    (* Safety cap for P1 *)
    if P1 >? $0.999 then
      {| n := NString "Error";
         display := [Text "Impossible inputs: P1 > 100%. Lower Baseline or OR."];
         table := None; visualData := None |}
    else
      let num_ := numerator Z_alpha_curr Z_beta P1 P0 r in
      let den := Math_pow2 (P1 - P0) in
      let n_cases := Math_ceil (num_ / den) in
      let n_cases :=
        if CaseControl.dropout state then Math_ceil (n_cases / $0.9)
        else n_cases in
      let n_controls := Math_ceil (n_cases * r) in
      let n_total := n_cases + n_controls in
      let displayStr :=
        [Text "P_controls="; ToFixed P0 2; Text " OR="; Print OR]
        ++ quantileNote conf power Z_alpha_curr Z_beta
        ++ dropoutNote (CaseControl.dropout state) in
      {| n := NNumber n_total;
         display := displayStr;
         table := None;
         visualData := Some
           {| Visual.n1 := n_controls; Visual.n2 := n_cases;
              Visual.label1 := "Controls"; Visual.label2 := "Cases" |} |}.
End Calc.
End CaseControl.

Module Cohort.
Record State (num : Type) : Type := {
  p_unexposed : num; rr : num; power : num; confidence : num;
  ratio : num; dropout : bool
}.

Section Calc.
Context {num : Type} {JN : JSNumber num}.
Open Scope js_scope.

Definition calc (state : State num) : CalcResult num :=
  let P0 := p_unexposed state / $100 in
  let RR := parseFloat (rr state) in
  let r := js_or (parseFloat (ratio state)) $1 in
  let power := parseInt (power state) in
  let conf := js_or (parseInt (confidence state)) $95 in
  let Z_beta := getZBeta power in
  let Z_alpha_curr := getZAlpha conf in
  (* Floating point safety for RR=1 *)
  if Math_abs (RR - $1) <? $0.001 then
    {| n := NNumber $0;
       display := [Text "RR=1 implies no effect. N is infinite."];
       table := None; visualData := None |}
  else
    let P1 := P0 * RR in
    if P1 >=? $1 then
      {| n := NString "Error";
         display := [Text "P1 > 100%. Decrease Baseline or Risk Ratio."];
         table := None; visualData := None |}
    else
      let num_ := numerator Z_alpha_curr Z_beta P1 P0 r in
      let den := Math_pow2 (P1 - P0) in
      let n_exposed := Math_ceil (num_ / den) in
      let n_exposed :=
        if dropout state then Math_ceil (n_exposed / $0.9) else n_exposed in
      let n_unexposed := Math_ceil (n_exposed * r) in
      let n_total := n_exposed + n_unexposed in
      let displayStr :=
        [Text "P0="; ToFixed P0 2; Text " RR="; Print RR]
        ++ quantileNote conf power Z_alpha_curr Z_beta
        ++ dropoutNote (dropout state) in
      {| n := NNumber n_total;
         display := displayStr;
         table := None;
         visualData := Some
           {| Visual.n1 := n_unexposed; Visual.n2 := n_exposed;
              Visual.label1 := "Unexposed"; Visual.label2 := "Exposed" |} |}.
End Calc.
End Cohort.

Module RCT.
Section Calc.
Context {num : Type} {JN : JSNumber num}.
Open Scope js_scope.

Definition calc (state : RCT.State num) : CalcResult num :=
  let P1 := RCT.p1 state / $100 in
  let P2 := RCT.p2 state / $100 in
  let r := js_or (parseFloat (RCT.ratio state)) $1 in
  let power := parseInt (RCT.power state) in
  let conf := js_or (parseInt (RCT.confidence state)) $95 in
  let Z_beta := getZBeta power in
  let Z_alpha_curr := getZAlpha conf in
  let num_ := numerator Z_alpha_curr Z_beta P1 P2 r in
  let den := Math_pow2 (P1 - P2) in
  if den === $0 then
    {| n := NString "Undefined";
       display := [Text "P1 must differ from P2"];
       table := None; visualData := None |}
  else
    let n_group2 := Math_ceil (num_ / den) in
    let n_group2 :=
      if RCT.dropout state then Math_ceil (n_group2 / $0.9) else n_group2 in
    let n_group1 := Math_ceil (n_group2 * r) in
    let n_total := n_group1 + n_group2 in
    let displayStr :=
      [Text "P1="; ToFixed P1 2; Text " P2="; ToFixed P2 2]
      ++ quantileNote conf power Z_alpha_curr Z_beta
      ++ dropoutNote (RCT.dropout state) in
    {| n := NNumber n_total;
       display := displayStr;
       table := None;
       visualData := Some
         {| Visual.n1 := n_group1; Visual.n2 := n_group2;
            Visual.label1 := "Group 1"; Visual.label2 := "Group 2" |} |}.
End Calc.
End RCT.

(** [calculate] of that revision: the headline is [result.n]. *)
Definition calculate {num : Type} (result : CalcResult num) : Shown num :=
  {| mainValue := n result;
     kelseyCaption := false;
     fontSize := match n result with NString _ => "3rem" | NNumber _ => "5rem" end;
     dynamicParams := display result;
     comparison := None;
     currentVisualData := visualData result |}.
End Previous.

(** The numbers of a result: [n] and the groups for the grid. *)
Definition figures {num : Type} (res : CalcResult num)
  : NValue num * option (Visual.t num) :=
  (n res, visualData res).

Section PreviousSamples.
Context {num : Type} {JN : JSNumber num}.
Open Scope js_scope.

(** A trial of 50% against 40% with two participants in group 1 for each
    one in group 2. *)
Definition rct_unequal_sample : RCT.State num :=
  {| RCT.p1 := $50; RCT.p2 := $40; RCT.power := $80; RCT.confidence := $95;
     RCT.ratio := $2; RCT.dropout := false |}.

(** The state of the current cohort form for a state of the previous one:
    the exposed proportion is the baseline times the risk ratio. *)
Definition cohort_state (state : Previous.Cohort.State num) : Cohort.State num :=
  {| Cohort.p_unexposed := Previous.Cohort.p_unexposed state;
     Cohort.p_exposed := Previous.Cohort.p_unexposed state * Previous.Cohort.rr state;
     Cohort.power := Previous.Cohort.power state;
     Cohort.confidence := Previous.Cohort.confidence state;
     Cohort.ratio := Previous.Cohort.ratio state;
     Cohort.dropout := Previous.Cohort.dropout state |}.
End PreviousSamples.

(** Equality of the numbers of two binary64 results. *)
Definition same_value (a b : NValue float) : bool :=
  match a, b with
  | NNumber x, NNumber y => PrimFloat.Leibniz.eqb x y
  | NString s, NString t => String.eqb s t
  | _, _ => false
  end.

Definition same_figures (a b : CalcResult float) : bool :=
  same_value (n a) (n b)
  && match visualData a, visualData b with
     | Some u, Some v =>
         PrimFloat.Leibniz.eqb (Visual.n1 u) (Visual.n1 v)
         && PrimFloat.Leibniz.eqb (Visual.n2 u) (Visual.n2 v)
     | None, None => true
     | _, _ => false
     end.

Section GuardSamples.
Context {num : Type} {JN : JSNumber num}.
Open Scope js_scope.

(** Two arms of a trial that differ by 0.005 percentage points. *)
Definition rct_close_sample : RCT.State num :=
  {| RCT.p1 := $50; RCT.p2 := $50.005; RCT.power := $80; RCT.confidence := $95;
     RCT.ratio := $1; RCT.dropout := false |}.
End GuardSamples.
(** ** The curve of the first version, [loop] of script.js *)

Section FirstCurve.
Context {num : Type} {JN : JSNumber num}.
Open Scope js_scope.

Definition first_pixelsPerN (h : num) : num :=
  let padding := $20 in
  let graphH := h - padding * $2 in
  graphH / $600.

(** The value plotted at the abscissa [xVal] and its ordinate. *)
Definition first_nVal (d xVal : num) : num :=
  let currentD := d / $100 in
  ($4 * xVal * ($1 - xVal)) / (currentD * currentD).

Definition first_yVal (h nVal : num) : num :=
  let padding := $20 in
  h - padding - (nVal * first_pixelsPerN h).

(** The centre of the marker, from the slider values and the [n] that
    [updateCalculation] has stored. *)
Definition first_marker (p n w h : num) : num * num :=
  let padding := $20 in
  let graphW := w - padding * $2 in
  let currentP := p / $100 in
  let currentN := n in
  let cx := padding + currentP * graphW in
  let cy := h - padding - (currentN * first_pixelsPerN h) in
  (cx, cy).
End FirstCurve.
Unset Implicit Arguments.

(** ** Facts about the two instances *)

Lemma In_Z_range (lo : Z) (len : nat) (c : Z) :
  (lo <= c < lo + Z.of_nat len)%Z -> In c (Z_range lo len).
Proof.
  intros H. unfold Z_range. apply in_map_iff.
  exists (Z.to_nat (c - lo)). split; [lia|].
  apply in_seq. lia.
Qed.

Section LawConsequences.
Context {num : Type} {JN : JSNumber num} {JL : JSNumberLaws num}.
Open Scope js_scope.

Lemma pos_truthy (x : num) : ($0 <? x) = true -> truthy x = true.
Proof.
  intros H. unfold truthy.
  now rewrite (pos_not_zero _ H), (pos_not_NaN _ H).
Qed.

Lemma pos_parseFloat (x : num) : ($0 <? x) = true -> parseFloat x = x.
Proof.
  intros H. unfold parseFloat. now rewrite (pos_not_zero _ H).
Qed.

Lemma pos_ratio (x d : num) : ($0 <? x) = true -> js_or (parseFloat x) d = x.
Proof.
  intros H. rewrite (pos_parseFloat _ H). unfold js_or.
  now rewrite (pos_truthy _ H).
Qed.
End LawConsequences.

Module Float64Facts.
Import Float64.

Lemma SFcompare_refl_finite (s : bool) (m : positive) (e : Z) :
  SFcompare (S754_finite s m e) (S754_finite s m e) = Some Eq.
Proof.
  simpl. rewrite Z.compare_refl.
  change (Pos.compare_cont Eq m m) with (Pos.compare m m).
  rewrite Pos.compare_refl. now destruct s.
Qed.

Lemma pos_cases (x : float) :
  (0 <? x)%float = true ->
  (x =? 0)%float = false /\ is_nan x = false.
Proof.
  unfold is_nan. rewrite FloatAxioms.ltb_spec, !FloatAxioms.eqb_spec.
  change (Prim2SF 0%float) with (S754_zero false).
  unfold SFltb, SFeqb.
  destruct (Prim2SF x) as [s | s | | s m e].
  - discriminate.
  - destruct s; simpl; intros; [discriminate | now split].
  - discriminate.
  - rewrite SFcompare_refl_finite.
    destruct s; simpl; intros; [discriminate | now split].
Qed.

(** [Math.ceil] and [Math.floor] of the instance at some values, with the
    signs of zero the language prescribes. *)
Lemma ceil_floor_samples :
  map ceil [444.5; 285.75; 400; 0.25; -0.5; -3.5; neg_zero; nan; infinity]%float
  = [445; 286; 400; 1; neg_zero; -3; neg_zero; nan; infinity]%float
  /\ map floor [444.5; 285.75; 400; 0.25; -0.5; -3.5; neg_zero; nan; infinity]%float
     = [444; 285; 400; 0; -1; -4; neg_zero; nan; infinity]%float.
Proof. split; reflexivity. Qed.

#[global] Instance laws : JSNumberLaws float.
Proof.
  split; intros x H; apply pos_cases in H; apply H.
Qed.
End Float64Facts.

Module ExactFacts.
Import Exact.
Open Scope R_scope.

Lemma less_iff (x y : R) : less x y = true <-> x < y.
Proof. unfold less. destruct (Rlt_dec x y); split; auto; discriminate. Qed.

Lemma less_false_iff (x y : R) : less x y = false <-> y <= x.
Proof.
  unfold less. destruct (Rlt_dec x y); split; auto; try discriminate; lra.
Qed.

Lemma same_iff (x y : R) : same x y = true <-> x = y.
Proof. unfold same. destruct (Req_dec_T x y); split; auto; discriminate. Qed.

Lemma same_false_iff (x y : R) : same x y = false <-> x <> y.
Proof.
  unfold same. destruct (Req_dec_T x y); split; auto; try discriminate.
  intros H; contradiction.
Qed.

Lemma same_IZR (a b : Z) : same (IZR a) (IZR b) = (a =? b)%Z.
Proof.
  destruct (Z.eqb_spec a b) as [->|Hne].
  - now apply same_iff.
  - apply same_false_iff. intros H. now apply eq_IZR in H.
Qed.

(** The ceiling is the least integer not below its argument. *)
Lemma ceil_bounds (x : R) : x <= ceil x < x + 1.
Proof.
  unfold ceil. rewrite opp_IZR.
  destruct (base_Int_part (- x)) as [H1 H2]. lra.
Qed.

Lemma ceil_unique (x : R) (k : Z) : IZR k - 1 < x <= IZR k -> ceil x = IZR k.
Proof.
  intros [H1 H2]. destruct (ceil_bounds x) as [H3 H4].
  unfold ceil in *. f_equal.
  set (c := (- Int_part (- x))%Z) in *.
  assert (IZR c < IZR k + 1) by lra.
  assert (IZR k < IZR c + 1) by lra.
  rewrite <- plus_IZR in *.
  apply lt_IZR in H, H0. lia.
Qed.

Lemma ceil_IZR (k : Z) : ceil (IZR k) = IZR k.
Proof. apply ceil_unique. lra. Qed.

Lemma ceil_le_IZR (x : R) (k : Z) : x <= IZR k -> ceil x <= IZR k.
Proof.
  intros H. destruct (ceil_bounds x) as [_ H1]. unfold ceil in *.
  set (c := (- Int_part (- x))%Z) in *.
  assert (IZR c < IZR (k + 1)) by (rewrite plus_IZR; lra).
  apply lt_IZR in H0. apply IZR_le. lia.
Qed.

Lemma floor_bounds (x : R) : floor x <= x < floor x + 1.
Proof. unfold floor. destruct (base_Int_part x). lra. Qed.

Lemma floor_IZR (k : Z) : floor (IZR k) = IZR k.
Proof.
  destruct (floor_bounds (IZR k)) as [H1 H2]. unfold floor in *. f_equal.
  set (c := Int_part (IZR k)) in *.
  assert (IZR k < IZR (c + 1)) by (rewrite plus_IZR; lra).
  apply le_IZR in H1. apply lt_IZR in H. lia.
Qed.

Lemma trunc_IZR (k : Z) : trunc (IZR k) = IZR k.
Proof.
  unfold trunc. destruct (Rlt_dec (IZR k) 0); [apply ceil_IZR | apply floor_IZR].
Qed.
Lemma parseFloat_exact (x : R) : parseFloat x = x.
Proof.
  unfold parseFloat. cbn. unfold same.
  destruct (Req_dec_T x 0) as [->|_]; reflexivity.
Qed.

Lemma truthy_exact (x : R) : x <> 0 -> truthy x = true.
Proof.
  intros H. unfold truthy. cbn. apply same_false_iff in H. now rewrite H.
Qed.

Lemma js_or_exact (x d : R) : x <> 0 -> js_or x d = x.
Proof.
  intros H. unfold js_or. now rewrite truthy_exact.
Qed.

#[global] Instance laws : JSNumberLaws R.
Proof.
  split; intros x H; cbn in *; apply less_iff in H.
  - apply same_false_iff. lra.
  - reflexivity.
Qed.
End ExactFacts.



(** ** The comparative estimator computes the formulas *)

Section EstimatorRefinement.
Context {num : Type} {JN : JSNumber num} {JL : JSNumberLaws num}.
Open Scope js_scope.

(** With a positive ratio, the estimator returns the three formulas,
    each rounded up, corrected for dropout and paired. *)
Lemma calculateAdvanced_formulas (p1 p2 r alpha beta : num) (dropout : bool) :
  ($0 <? r) = true ->
  let za := getZAlpha (($1 - alpha) * $100) in
  let zb := getZBeta (($1 - beta) * $100) in
  calculateAdvanced p1 p2 r alpha beta dropout =
  {| kelsey :=
       Spec.groups (Spec.withDropout (Math_ceil (Spec.kelsey za zb p1 p2 r)) dropout) r;
     fleiss :=
       Spec.groups (Spec.withDropout (Math_ceil (Spec.fleiss za zb p1 p2 r)) dropout) r;
     fleiss_cc :=
       Spec.groups (Spec.withDropout (Math_ceil (Spec.fleissCC za zb p1 p2 r)) dropout) r
  |}.
Proof.
  intros Hr za zb. unfold calculateAdvanced.
  rewrite pos_ratio by exact Hr.
  destruct dropout; reflexivity.
Qed.


End EstimatorRefinement.

(** In binary64 the estimator reads the tables at the percentage the
    calculator was given, for every power and confidence of the form. *)
Lemma percent_round_trip (c : Z) :
  (80 <= c <= 99)%Z ->
  ((($1 - ($100 - of_Z c) / $100) * $100)%js : float) = of_Z c.
Proof.
  intros H. apply FloatAxioms.Leibniz.eqb_spec.
  assert (E : forallb percent_recovered (Z_range 80 20) = true)
    by (vm_compute; reflexivity).
  apply (proj1 (forallb_forall _ _) E). apply In_Z_range. lia.
Qed.

Section EstimatorEvaluated.
Open Scope js_scope.


End EstimatorEvaluated.

(** ** The prevalence design *)

Section PrevalenceClaims.
Import Exact ExactFacts.
Open Scope js_scope.



End PrevalenceClaims.

(** ** The case-control design *)

Section CaseControlGuards.
Context {num : Type} {JN : JSNumber num}.
Open Scope js_scope.



End CaseControlGuards.

Section CaseControlClaims.
Import Exact ExactFacts.
Open Scope js_scope.



End CaseControlClaims.

(** ** The derived proportion, in exact arithmetic *)

Module ExactQuantiles.
Import Exact ExactFacts.
Open Scope R_scope.

Lemma lookup_In (m : list (Z * R)) (p v : R) :
  lookup m p = Some v -> In v (map snd m).
Proof.
  induction m as [|[k w] m IH]; simpl; [discriminate|].
  destruct (same p (IZR k)); [intros [= ->]; now left | right; auto].
Qed.

Lemma Z_MAP_positive : Forall (fun v : R => 0 < v) (map snd (@Z_MAP R _)).
Proof. cbn. repeat constructor; lra. Qed.

Lemma Z_ALPHA_MAP_positive : Forall (fun v : R => 0 < v) (map snd (@Z_ALPHA_MAP R _)).
Proof. cbn. repeat constructor; lra. Qed.

Lemma getZBeta_positive (p : R) : 0 < getZBeta p.
Proof.
  unfold getZBeta, js_or_undef, js_or.
  destruct (lookup Z_MAP p) as [v|] eqn:E.
  - destruct (truthy v).
    + apply lookup_In in E.
      exact (proj1 (Forall_forall _ _) Z_MAP_positive v E).
    + cbn. lra.
  - cbn. lra.
Qed.

Lemma getZAlpha_positive (c : R) : 0 < getZAlpha c.
Proof.
  assert (B : 0 < (if (c <? $95)%js then $1.645
                   else if (c <? $98)%js then $1.96
                   else if (c <? $99)%js then $2.326 else $2.576)%js).
  { destruct (c <? $95)%js; [cbn; lra|].
    destruct (c <? $98)%js; [cbn; lra|].
    destruct (c <? $99)%js; cbn; lra. }
  unfold getZAlpha.
  destruct (lookup Z_ALPHA_MAP c) as [v|] eqn:E; [|exact B].
  destruct (truthy v); [|exact B].
  apply lookup_In in E.
  exact (proj1 (Forall_forall _ _) Z_ALPHA_MAP_positive v E).
Qed.
End ExactQuantiles.

Module ExactProportions.
Import Exact ExactFacts ExactQuantiles.
Open Scope R_scope.

(** A weighted mean of two proportions is a proportion. *)
Lemma pAvg_bounds (p1 p2 r : R) :
  0 < p1 < 1 -> 0 < p2 < 1 -> 0 < r -> 0 < Spec.pAvg p1 p2 r < 1.
Proof.
  intros H1 H2 Hr. unfold Spec.pAvg. cbn.
  assert (Hd : 0 < 1 + r) by lra.
  assert (Hm : 0 < r * p2 < r) by nra.
  split.
  - apply Rdiv_lt_0_compat; lra.
  - apply (Rmult_lt_reg_r (1 + r)); [exact Hd|].
    unfold Rdiv. rewrite Rmult_assoc, Rinv_l by lra. lra.
Qed.




Lemma pooledVariance_nonneg (p1 p2 r : R) :
  0 < p1 < 1 -> 0 < p2 < 1 -> 0 < r -> 0 <= Spec.pooledVariance p1 p2 r.
Proof.
  intros H1 H2 Hr. unfold Spec.pooledVariance, Spec.pAvgQAvg.
  pose proof (pAvg_bounds p1 p2 r H1 H2 Hr) as Hp.
  set (a := Spec.pAvg p1 p2 r) in *. clearbody a. cbn.
  apply Rmult_le_pos; [lra|]. apply Rmult_le_pos; lra.
Qed.

Lemma groupVariance_positive (p1 p2 r : R) :
  0 < p1 < 1 -> 0 < p2 < 1 -> 0 < r -> 0 < Spec.groupVariance p1 p2 r.
Proof.
  intros H1 H2 Hr. unfold Spec.groupVariance. cbn.
  assert (0 < p1 * (1 - p1)) by (apply Rmult_lt_0_compat; lra).
  assert (0 < p2 * (1 - p2)) by (apply Rmult_lt_0_compat; lra).
  assert (0 < r * (p1 * (1 - p1))) by (apply Rmult_lt_0_compat; lra).
  lra.
Qed.

Lemma fleiss_positive (za zb p1 p2 r : R) :
  0 < za -> 0 < zb -> 0 < p1 < 1 -> 0 < p2 < 1 -> 0 < r -> p1 <> p2 ->
  0 < Spec.fleiss za zb p1 p2 r.
Proof.
  intros Ha Hb H1 H2 Hr Hne. unfold Spec.fleiss, Spec.term1, Spec.term2, Spec.sq.
  pose proof (pooledVariance_nonneg p1 p2 r H1 H2 Hr) as Hpv.
  pose proof (groupVariance_positive p1 p2 r H1 H2 Hr) as Hgv.
  set (pv := Spec.pooledVariance p1 p2 r) in *.
  set (gv := Spec.groupVariance p1 p2 r) in *. clearbody pv gv. cbn.
  assert (0 <= R_sqrt.sqrt pv) by apply sqrt_pos.
  assert (0 < R_sqrt.sqrt gv) by (apply sqrt_lt_R0; exact Hgv).
  assert (0 <= za * R_sqrt.sqrt pv) by (apply Rmult_le_pos; lra).
  assert (0 < zb * R_sqrt.sqrt gv) by (apply Rmult_lt_0_compat; lra).
  assert (0 < (p1 - p2) * (p1 - p2)) by nra.
  apply Rdiv_lt_0_compat.
  - apply Rmult_lt_0_compat; lra.
  - apply Rmult_lt_0_compat; lra.
Qed.

Lemma correctionTerm_positive (za zb p1 p2 r : R) :
  0 < za -> 0 < zb -> 0 < p1 < 1 -> 0 < p2 < 1 -> 0 < r -> p1 <> p2 ->
  0 < Spec.fleiss za zb p1 p2 r * r * Rabs (p1 - p2)
  /\ 0 < Spec.correctionTerm za zb p1 p2 r.
Proof.
  intros Ha Hb H1 H2 Hr Hne.
  pose proof (fleiss_positive za zb p1 p2 r Ha Hb H1 H2 Hr Hne) as Hf.
  assert (Habs : 0 < Rabs (p1 - p2)) by (apply Rabs_pos_lt; lra).
  assert (Hden : 0 < Spec.fleiss za zb p1 p2 r * r * Rabs (p1 - p2)).
  { apply Rmult_lt_0_compat; [apply Rmult_lt_0_compat|]; assumption. }
  split; [exact Hden|].
  unfold Spec.correctionTerm.
  set (f := Spec.fleiss za zb p1 p2 r) in *. clearbody f. cbn.
  apply Rdiv_lt_0_compat; [lra | exact Hden].
Qed.
End ExactProportions.

Section DerivedProportionClaim.
Import Exact ExactFacts ExactQuantiles ExactProportions.
Open Scope R_scope.


End DerivedProportionClaim.

(** ** The cohort and RCT designs *)

Section ComparativeGuards.
Context {num : Type} {JN : JSNumber num}.
Open Scope js_scope.

Lemma cohort_equal_rejected (state : Cohort.State num) :
  let P2 := parseFloat (Cohort.p_unexposed state) / $100 in
  let P1 := parseFloat (Cohort.p_exposed state) / $100 in
  (Math_abs (P1 - P2) <? $0.0001) = true ->
  Cohort.calc state = equalProportions.
Proof.
  intros P2 P1 H. unfold Cohort.calc. fold P2. fold P1. now rewrite H.
Qed.

Lemma rct_equal_rejected (state : RCT.State num) :
  let P1 := parseFloat (RCT.p1 state) / $100 in
  let P2 := parseFloat (RCT.p2 state) / $100 in
  (Math_abs (P1 - P2) <? $0.0001) = true ->
  RCT.calc state = equalProportions.
Proof.
  intros P1 P2 H. unfold RCT.calc. fold P1. fold P2. now rewrite H.
Qed.

(** Past the guard, the RCT passes the proportion of group 2 first. *)
Lemma rct_swapped_call (state : RCT.State num) :
  let P1 := parseFloat (RCT.p1 state) / $100 in
  let P2 := parseFloat (RCT.p2 state) / $100 in
  let r := js_or (parseFloat (RCT.ratio state)) $1 in
  let power := parseInt (RCT.power state) in
  let conf := js_or (parseInt (RCT.confidence state)) $95 in
  let results :=
    calculateAdvanced P2 P1 r (($100 - conf) / $100) (($100 - power) / $100)
      (RCT.dropout state) in
  (Math_abs (P1 - P2) <? $0.0001) = false ->
  table (RCT.calc state) = Some results
  /\ visualData (RCT.calc state)
     = Some {| Visual.n1 := Estimate.n2 (fleiss results);
               Visual.n2 := Estimate.n1 (fleiss results);
               Visual.label1 := "Group 1";
               Visual.label2 := "Group 2" |}.
Proof.
  intros P1 P2 r power conf results H. unfold RCT.calc.
  fold P1. fold P2. rewrite H. split; reflexivity.
Qed.
End ComparativeGuards.

Section ComparativeClaims.
Import Exact ExactFacts.
Open Scope js_scope.

(** In exact arithmetic, with r = N1/N2 the pooled average of the swapped
    call weighs each proportion by the size of its own group. *)
Lemma swapped_pooled_average (P1 P2 N1 N2 : R) :
  (0 < N1)%R -> (0 < N2)%R ->
  Spec.pAvg P2 P1 (N1 / N2) = ((N1 * P1 + N2 * P2) / (N1 + N2))%R.
Proof.
  intros H1 H2. unfold Spec.pAvg. cbn. field. split; lra.
Qed.

(** C9.  The cohort and the RCT calculators return the result for equal
    proportions, whose n is 'Error' and which has no table and no group
    counts, for every input whose two proportions, divided by 100, differ
    by less than 0.0001; so the estimator and its division by (p1-p2)^2 are
    not reached.  In particular an RCT with p1 = p2 = 50% is rejected, in
    binary64 and in exact arithmetic. *)
Theorem equal_proportions_rejected :
  (forall (num : Type) (JN : JSNumber num),
      (forall state : Cohort.State num,
          (Math_abs (parseFloat (Cohort.p_exposed state) / $100
                     - parseFloat (Cohort.p_unexposed state) / $100)
           <? $0.0001) = true ->
          Cohort.calc state = equalProportions)
      /\ (forall state : RCT.State num,
             (Math_abs (parseFloat (RCT.p1 state) / $100
                        - parseFloat (RCT.p2 state) / $100)
              <? $0.0001) = true ->
             RCT.calc state = equalProportions)
      /\ n (@equalProportions num) = NString "Error"
      /\ table (@equalProportions num) = None
      /\ visualData (@equalProportions num) = None)
  /\ (forall state : RCT.State float,
         RCT.p1 state = $50 -> RCT.p2 state = $50 ->
         RCT.calc state = equalProportions)
  /\ (forall state : RCT.State R,
         RCT.p1 state = $50 -> RCT.p2 state = $50 ->
         RCT.calc state = equalProportions).
Proof.
  split; [|split].
  - intros num JN.
    split; [exact (@cohort_equal_rejected num JN)|].
    split; [exact (@rct_equal_rejected num JN)|].
    repeat split.
  - intros state E1 E2. apply rct_equal_rejected. rewrite E1, E2.
    vm_compute. reflexivity.
  - intros state E1 E2. apply rct_equal_rejected. rewrite E1, E2.
    rewrite !parseFloat_exact. cbn. apply less_iff.
    rewrite Rabs_pos_eq; lra.
Qed.

Lemma equal_proportions_rejected_witness :
  (Math_abs (parseFloat ($50 : float) / $100 - parseFloat $50 / $100) <? $0.0001) = true
  /\ RCT.calc (@rct_sample float _ $50 $50) = equalProportions.
Proof.
  assert (H : (Math_abs (parseFloat ($50 : float) / $100 - parseFloat $50 / $100)
               <? $0.0001) = true) by reflexivity.
  split; [exact H|].
  exact (proj1 (proj2 (proj1 equal_proportions_rejected float _))
           (rct_sample $50 $50) H).
Defined.

(** C5.  For every RCT input that passes the guard, the table is the
    estimator's at (P2, P1, r): the proportion of group 2 is passed first;
    the estimator's n2 is shown as the count of 'Group 1' and its n1 as
    the count of 'Group 2'.  With a positive ratio the estimator's Kelsey
    n1 is then computed at the pooled average pAvg(P2, P1, r), and in exact
    arithmetic, for group sizes N1, N2 > 0 with r = N1/N2, that average
    equals (N1*P1 + N2*P2)/(N1+N2). *)
Theorem rct_swapped_arguments :
  (forall (num : Type) (JN : JSNumber num) (state : RCT.State num),
      let P1 := parseFloat (RCT.p1 state) / $100 in
      let P2 := parseFloat (RCT.p2 state) / $100 in
      let r := js_or (parseFloat (RCT.ratio state)) $1 in
      let power := parseInt (RCT.power state) in
      let conf := js_or (parseInt (RCT.confidence state)) $95 in
      let results :=
        calculateAdvanced P2 P1 r (($100 - conf) / $100) (($100 - power) / $100)
          (RCT.dropout state) in
      (Math_abs (P1 - P2) <? $0.0001) = false ->
      table (RCT.calc state) = Some results
      /\ visualData (RCT.calc state)
         = Some {| Visual.n1 := Estimate.n2 (fleiss results);
                   Visual.n2 := Estimate.n1 (fleiss results);
                   Visual.label1 := "Group 1";
                   Visual.label2 := "Group 2" |})
  /\ (forall (num : Type) (JN : JSNumber num) (JL : JSNumberLaws num)
             (P1 P2 r alpha beta : num) (dropout : bool),
         ($0 <? r) = true ->
         let za := getZAlpha (($1 - alpha) * $100) in
         let zb := getZBeta (($1 - beta) * $100) in
         let pAvg := Spec.pAvg P2 P1 r in
         Estimate.n1 (kelsey (calculateAdvanced P2 P1 r alpha beta dropout))
         = Spec.withDropout
             (Math_ceil (Spec.sq (za + zb) * (pAvg * ($1 - pAvg)) * (r + $1)
                         / (r * Spec.sq (P2 - P1)))) dropout)
  /\ (forall P1 P2 N1 N2 : R,
         (0 < N1)%R -> (0 < N2)%R ->
         Spec.pAvg P2 P1 (N1 / N2) = ((N1 * P1 + N2 * P2) / (N1 + N2))%R).
Proof.
  split; [|split].
  - intros num JN state. apply rct_swapped_call.
  - intros num JN JL P1 P2 r alpha beta dropout Hr za zb pAvg.
    rewrite calculateAdvanced_formulas by exact Hr. reflexivity.
  - exact swapped_pooled_average.
Qed.

(** The RCT with P1 = 50%, P2 = 40% and r = 2, in binary64: 584 in group 1
    and 292 in group 2. *)
Lemma rct_swapped_arguments_witness :
  (Math_abs (parseFloat ($50 : float) / $100 - parseFloat $40 / $100) <? $0.0001) = false
  /\ visualData (RCT.calc (@rct_sample float _ $50 $40))
     = Some {| Visual.n1 := $584; Visual.n2 := $292;
               Visual.label1 := "Group 1"; Visual.label2 := "Group 2" |}.
Proof.
  assert (H : (Math_abs (parseFloat ($50 : float) / $100 - parseFloat $40 / $100)
               <? $0.0001) = false) by reflexivity.
  split; [exact H|].
  rewrite (proj2 (proj1 rct_swapped_arguments float _ (rct_sample $50 $40) H)).
  reflexivity.
Defined.
End ComparativeClaims.

(** ** The z-score tables *)

Section TableLookup.
Context {num : Type} {JN : JSNumber num}.
Open Scope js_scope.

(** A number that equals no key reads [undefined]. *)
Lemma lookup_no_key (m : list (Z * num)) (p : num) :
  (forall k, In k (map fst m) -> (p === of_Z k) = false) ->
  lookup m p = None.
Proof.
  induction m as [|[k v] m IH]; intros H; simpl; [reflexivity|].
  rewrite (H k) by (now left). apply IH. intros k' Hk'. apply H. now right.
Qed.

Lemma Z_MAP_keys (k : Z) :
  In k (map fst (@Z_MAP num _)) -> (80 <= k <= 99)%Z.
Proof.
  cbn. intros H.
  repeat (destruct H as [H|H]; [subst k; lia|]). contradiction.
Qed.

Lemma getZBeta_default (p : num) :
  (forall k, (80 <= k <= 99)%Z -> (p === of_Z k) = false) ->
  getZBeta p = $0.842.
Proof.
  intros H. unfold getZBeta. rewrite lookup_no_key; [reflexivity|].
  intros k Hk. apply H. now apply Z_MAP_keys.
Qed.
End TableLookup.

Module Float64Tables.
Open Scope js_scope.

Lemma zAlpha_checked : forallb zAlpha_agrees (Z_range (-1000) 2001) = true.
Proof. vm_compute. reflexivity. Qed.

Lemma getZAlpha_binary64 (c : Z) :
  (-1000 <= c <= 1000)%Z -> getZAlpha (of_Z c : float) = Spec.zAlpha c.
Proof.
  intros H. apply FloatAxioms.Leibniz.eqb_spec.
  apply (proj1 (forallb_forall _ _) zAlpha_checked).
  apply In_Z_range. lia.
Qed.

Lemma getZBeta_binary64 :
  Forall (fun kv : Z * float => getZBeta (of_Z (fst kv)) = snd kv) Z_MAP.
Proof. repeat constructor. Qed.
End Float64Tables.

Module ExactTables.
Import Exact ExactFacts.
Open Scope js_scope.

(** On an integer, the lookup compares integers. *)
Lemma lookup_IZR (m : list (Z * R)) (z : Z) : lookup m (IZR z) = assocZ m z.
Proof.
  induction m as [|[k v] m IH]; simpl; [reflexivity|].
  rewrite same_IZR, IH. reflexivity.
Qed.

Lemma less_IZR (a b : Z) : less (IZR a) (IZR b) = (a <? b)%Z.
Proof.
  destruct (Z.ltb_spec a b) as [H|H].
  - apply less_iff. now apply IZR_lt.
  - apply less_false_iff. now apply IZR_le.
Qed.

Lemma getZBeta_exact (k : Z) (v : R) :
  In (k, v) Z_MAP -> getZBeta (IZR k) = v.
Proof.
  intros H. unfold getZBeta. rewrite lookup_IZR. cbn in H.
  repeat (destruct H as [H|H];
          [injection H as <- <-; cbn; apply js_or_exact; lra|]).
  contradiction.
Qed.

Lemma getZAlpha_exact (c : Z) : getZAlpha (IZR c) = Spec.zAlpha c.
Proof.
  unfold getZAlpha, Spec.zAlpha. rewrite lookup_IZR. cbn.
  rewrite !less_IZR.
  destruct (c =? 90)%Z; [rewrite truthy_exact by lra; reflexivity|].
  destruct (c =? 95)%Z; [rewrite truthy_exact by lra; reflexivity|].
  destruct (c =? 98)%Z; [rewrite truthy_exact by lra; reflexivity|].
  destruct (c =? 99)%Z; [rewrite truthy_exact by lra; reflexivity|].
  reflexivity.
Qed.
End ExactTables.

Section TableClaims.
Import Exact ExactFacts.
Open Scope js_scope.

(** C6.  zBeta returns the tabulated value at every key of its table, the
    integers 80 to 99 (in particular 0.842 at 80, 1.282 at 90, 1.645 at 95
    and 2.326 at 99), and the default 0.842 at every number that equals no
    key.  zAlpha returns 1.645 at 90, 1.96 at 95, 2.326 at 98, 2.576 at 99
    and at every other integer 1.645 below 95, 1.96 below 98, 2.326 below
    99 and 2.576 otherwise.  In binary64 the integers are checked from
    -1000 to 1000 by evaluation; in exact arithmetic they are all the
    integers. *)
Theorem z_score_tables :
  (forall (num : Type) (JN : JSNumber num),
      map fst (@Z_MAP num _) = Z_range 80 20
      /\ forall p : num,
          (forall k, (80 <= k <= 99)%Z -> (p === of_Z k) = false) ->
          getZBeta p = $0.842)
  /\ (Forall (fun kv : Z * float => getZBeta (of_Z (fst kv)) = snd kv) Z_MAP
      /\ (getZBeta ($80 : float) = $0.842 /\ getZBeta ($90 : float) = $1.282
          /\ getZBeta ($95 : float) = $1.645 /\ getZBeta ($99 : float) = $2.326)
      /\ forall c : Z, (-1000 <= c <= 1000)%Z ->
                       getZAlpha (of_Z c : float) = Spec.zAlpha c)
  /\ ((forall (k : Z) (v : R), In (k, v) Z_MAP -> getZBeta (IZR k) = v)
      /\ (getZBeta ($80 : R) = $0.842 /\ getZBeta ($90 : R) = $1.282
          /\ getZBeta ($95 : R) = $1.645 /\ getZBeta ($99 : R) = $2.326)
      /\ forall c : Z, getZAlpha (IZR c) = Spec.zAlpha c).
Proof.
  split; [|split].
  - intros num JN. split; [reflexivity|]. apply getZBeta_default.
  - split; [exact Float64Tables.getZBeta_binary64|].
    split; [repeat split|]. exact Float64Tables.getZAlpha_binary64.
  - split; [exact ExactTables.getZBeta_exact|].
    split; [|exact ExactTables.getZAlpha_exact].
    repeat split; apply ExactTables.getZBeta_exact; cbn; tauto.
Qed.

(** Inputs outside the table in binary64: 79, 100, 85.5 and NaN. *)
Lemma z_score_tables_witness :
  map getZBeta [($79 : float); $100; $85.5; $0 / $0]
  = [$0.842; $0.842; $0.842; $0.842]
  /\ getZAlpha (of_Z 93 : float) = $1.645.
Proof.
  split; [reflexivity|].
  apply (proj2 (proj2 (proj1 (proj2 z_score_tables))) 93%Z). lia.
Defined.
End TableClaims.

(** ** The population grid *)

Section GridSearch.
Context {num : Type} {JN : JSNumber num}.
Open Scope js_scope.

Variables groupW groupH maxN : num.

(** The loop stops at the first size that fits; on a descending sequence
    of non-zero sizes that is the largest one that fits, and the initial 0
    is left only when none fits. *)
Lemma findBestCellSize_first (sizes : list Z) :
  Forall (fun s => s <> 0%Z) sizes ->
  StronglySorted Z.gt sizes ->
  let best := findBestCellSize groupW groupH maxN sizes in
  (best = 0%Z /\ forall s, In s sizes -> fits groupW groupH maxN s = false)
  \/ (In best sizes /\ best <> 0%Z /\ fits groupW groupH maxN best = true
      /\ forall s, In s sizes -> fits groupW groupH maxN s = true -> (s <= best)%Z).
Proof.
  induction sizes as [|size rest IH]; intros Hnz Hs; simpl.
  - left. split; [reflexivity|]. intros s [].
  - inversion Hnz as [|? ? Hsize Hrest]; subst.
    inversion Hs as [|? ? Hsorted Hgt]; subst.
    fold (fits groupW groupH maxN size). destruct (fits groupW groupH maxN size) eqn:E.
    + right. split; [now left|]. split; [exact Hsize|]. split; [exact E|].
      intros s [<-|Hin] _; [lia|].
      pose proof (proj1 (Forall_forall _ _) Hgt s Hin). lia.
    + destruct (IH Hrest Hsorted) as [[E0 Hnone]|(Hin & Hne & Hfit & Hmax)].
      * left. split; [exact E0|]. intros s [<-|Hs']; [exact E|now apply Hnone].
      * right. split; [now right|]. split; [exact Hne|]. split; [exact Hfit|].
        intros s [<-|Hs'] Hf; [congruence|now apply Hmax].
Qed.
End GridSearch.

Section GridLayoutFacts.
Context {num : Type} {JN : JSNumber num}.
Open Scope js_scope.

Lemma PRESET_SIZES_descending :
  Forall (fun s => s <> 0%Z) PRESET_SIZES /\ StronglySorted Z.gt PRESET_SIZES.
Proof.
  unfold PRESET_SIZES. split.
  - repeat constructor; lia.
  - repeat constructor; lia.
Qed.

(** The fields of the layout, by the outcome of the loop. *)
Lemma drawPopulationGrid_fields (w h : num) (data : Visual.t num) :
  let n1 := js_or (Visual.n1 data) $0 in
  let n2 := js_or (Visual.n2 data) $0 in
  let maxN := Math_max n1 n2 in
  let best := findBestCellSize (groupW_of w) (groupH_of h) maxN PRESET_SIZES in
  let L := drawPopulationGrid w h data in
  bestCellSize L = (if (best =? 0)%Z then 3%Z else best)
  /\ scale L = (if (best =? 0)%Z
                then Math_ceil (maxN / getCapacity (groupW_of w) (groupH_of h) 3)
                else $1)
  /\ sN1 L = Math_ceil (n1 / scale L)
  /\ sN2 L = Math_ceil (n2 / scale L).
Proof.
  intros n1 n2 maxN best L. subst L. unfold drawPopulationGrid.
  fold n1. fold n2. fold maxN. fold best.
  destruct (best =? 0)%Z; cbn; repeat split.
Qed.
End GridLayoutFacts.

Module ExactGrid.
Import Exact ExactFacts.
Open Scope R_scope.

Lemma js_or_zero (x : R) : js_or x 0 = x.
Proof.
  unfold js_or, truthy. cbn. unfold same.
  destruct (Req_dec_T x 0) as [->|_]; reflexivity.
Qed.

Lemma Math_max_exact (a b : R) : Math_max a b = Rmax a b.
Proof.
  unfold Math_max. cbn. unfold less, Rmax.
  destruct (Rlt_dec a b), (Rle_dec a b); try reflexivity; lra.
Qed.



End ExactGrid.

Section GridClaims.
Import Exact ExactFacts ExactGrid.
Open Scope js_scope.

(** C7.  With n1, n2 the two counts as the function reads them, maxN their
    maximum and capacity(s) = floor(groupW/s) * floor(groupH/s): when some
    size of the sequence 20, 15, 12, 10, 8, 6, 5, 4, 3 has capacity(s) >=
    maxN, the cell size is the largest such size and the scale is 1; when
    none has, the cell size is 3 and the scale is ceil(maxN/capacity(3)).
    The layout is a function of its inputs.  For non-negative counts in
    exact arithmetic maxN is max(n1, n2). *)
Theorem grid_cell_size :
  (forall (num : Type) (JN : JSNumber num) (w h : num) (data : Visual.t num),
      let maxN := Math_max (js_or (Visual.n1 data) $0) (js_or (Visual.n2 data) $0) in
      let capacity := getCapacity (groupW_of w) (groupH_of h) in
      let L := drawPopulationGrid w h data in
      (forall s, capacity s
                 = Math_floor (groupW_of w / of_Z s) * Math_floor (groupH_of h / of_Z s))
      /\ ((exists s, In s PRESET_SIZES /\ (maxN <=? capacity s) = true) ->
          In (bestCellSize L) PRESET_SIZES
          /\ (maxN <=? capacity (bestCellSize L)) = true
          /\ (forall s, In s PRESET_SIZES -> (maxN <=? capacity s) = true ->
                        (s <= bestCellSize L)%Z)
          /\ scale L = $1)
      /\ ((forall s, In s PRESET_SIZES -> (maxN <=? capacity s) = false) ->
          bestCellSize L = 3%Z /\ scale L = Math_ceil (maxN / capacity 3%Z))
      /\ (forall w' h' data',
             w' = w -> h' = h -> data' = data ->
             drawPopulationGrid w' h' data' = L))
  /\ PRESET_SIZES = [20; 15; 12; 10; 8; 6; 5; 4; 3]%Z
  /\ (forall (n1 n2 : R) (l1 l2 : string),
         (0 <= n1)%R -> (0 <= n2)%R ->
         let data := {| Visual.n1 := n1; Visual.n2 := n2;
                        Visual.label1 := l1; Visual.label2 := l2 |} in
         Math_max (js_or (Visual.n1 data) $0) (js_or (Visual.n2 data) $0)
         = Rmax n1 n2)
  /\ (bestCellSize (drawPopulationGrid ($800 : float) $600 (groups_sample $50 $50)) = 20%Z
      /\ scale (drawPopulationGrid ($800 : float) $600 (groups_sample $50 $50)) = $1).
Proof.
  split; [|split; [reflexivity|split]].
  - intros num JN w h data maxN capacity L.
    destruct (drawPopulationGrid_fields w h data) as (Hb & Hs & _).
    fold maxN in Hb, Hs. fold L in Hb, Hs.
    destruct PRESET_SIZES_descending as [Hnz Hsorted].
    pose proof (findBestCellSize_first (groupW_of w) (groupH_of h) maxN
                  PRESET_SIZES Hnz Hsorted) as Hfirst.
    cbv zeta in Hfirst. unfold fits in Hfirst. fold capacity in Hfirst, Hs.
    set (best := findBestCellSize (groupW_of w) (groupH_of h) maxN PRESET_SIZES) in *.
    split; [reflexivity|]. split; [|split].
    + intros (s & Hin & Hfit).
      destruct Hfirst as [[_ Hnone]|(Hbin & Hne & Hbfit & Hmax)].
      * rewrite (Hnone s Hin) in Hfit. discriminate.
      * apply Z.eqb_neq in Hne. rewrite Hne in Hb, Hs. rewrite Hb.
        repeat split; assumption.
    + intros Hnone.
      destruct Hfirst as [[E0 _]|(Hbin & _ & Hbfit & _)].
      * rewrite E0 in Hb, Hs. cbn in Hb, Hs. split; assumption.
      * rewrite (Hnone best Hbin) in Hbfit. discriminate.
    + intros w' h' data' -> -> ->. reflexivity.
  - intros n1 n2 l1 l2 H1 H2 data. cbn.
    change (IZR 0) with 0%R. rewrite !js_or_zero. apply Math_max_exact.
  - split; vm_compute; reflexivity.
Qed.

(** At 800 by 600 with two groups of 50 every size fits. *)
Lemma grid_cell_size_witness :
  let L := drawPopulationGrid ($800 : float) $600 (groups_sample $50 $50) in
  In (bestCellSize L) PRESET_SIZES
  /\ (forall s, In s PRESET_SIZES ->
        ((Math_max (js_or ($50 : float) $0) (js_or $50 $0)
          <=? getCapacity (groupW_of $800) (groupH_of $600) s) = true) ->
        (s <= bestCellSize L)%Z)
  /\ scale L = $1.
Proof.
  intros L.
  assert (H : exists s, In s PRESET_SIZES
      /\ (Math_max (js_or ($50 : float) $0) (js_or $50 $0)
          <=? getCapacity (groupW_of $800) (groupH_of $600) s) = true).
  { exists 3%Z. split; [unfold PRESET_SIZES; simpl; tauto | reflexivity]. }
  destruct (proj1 (proj2 (proj1 grid_cell_size float _ $800 $600
                            (groups_sample $50 $50))) H) as (H1 & _ & H3 & H4).
  split; [exact H1|]. split; [exact H3|exact H4].
Defined.


End GridClaims.

(** * Further properties of the code *)

(** ** The prevalence calculator on the slider positions *)

Module ExactDivision.
Import Exact ExactFacts.
Open Scope R_scope.

(** The ceiling of a quotient of integers is the integer ceiling division. *)
Lemma ceil_quotient (a b : Z) :
  (0 < b)%Z -> ceil (IZR a / IZR b) = IZR (ceil_div a b).
Proof.
  intros Hb. apply ceil_unique. unfold ceil_div.
  pose proof (Z.div_mod (- a) b ltac:(lia)) as E.
  pose proof (Z.mod_pos_bound (- a) b Hb) as [H0 H1].
  set (q := (- a / b)%Z) in *. set (m := ((- a) mod b)%Z) in *.
  assert (Ea : a = (b * - q - m)%Z) by lia.
  assert (HbR : 0 < IZR b) by (apply IZR_lt; exact Hb).
  assert (Hm0 : 0 <= IZR m) by (apply IZR_le; exact H0).
  assert (Hm1 : IZR m < IZR b) by (apply IZR_lt; exact H1).
  rewrite Ea at 1 2. rewrite minus_IZR, mult_IZR.
  replace ((IZR b * IZR (- q) - IZR m) / IZR b)
    with (IZR (- q) - IZR m / IZR b) by (field; lra).
  assert (0 <= IZR m / IZR b < 1).
  { split.
    - apply Rmult_le_pos; [exact Hm0 | apply Rlt_le, Rinv_0_lt_compat, HbR].
    - apply (Rmult_lt_reg_r (IZR b)); [exact HbR|].
      unfold Rdiv. rewrite Rmult_assoc, Rinv_l by lra. lra. }
  lra.
Qed.
End ExactDivision.

Section SliderClaims.
Import Exact ExactFacts ExactDivision.
Open Scope js_scope.

Lemma overshoot_bit (p d : Z) (dropout : bool) :
  overshoot p d dropout = 0%Z \/ overshoot p d dropout = 1%Z.
Proof. unfold overshoot. destruct (existsb _ _); auto. Qed.

Lemma sliders_checked (dropout : bool) :
  forallb (fun p => forallb (slider_checked dropout p) (Z_range 1 20))
          (Z_range 1 99) = true.
Proof. destruct dropout; vm_compute; reflexivity. Qed.

Lemma slider_binary64 (p d : Z) (dropout : bool) :
  (1 <= p <= 99)%Z -> (1 <= d <= 20)%Z ->
  n (Prevalence.calc (slider_state p d dropout : Prevalence.State float))
  = NNumber (of_Z (exact_prevalence p d dropout + overshoot p d dropout)).
Proof.
  intros Hp Hd.
  pose proof (sliders_checked dropout) as H.
  rewrite forallb_forall in H. specialize (H p (In_Z_range 1 99 p ltac:(lia))).
  rewrite forallb_forall in H. specialize (H d (In_Z_range 1 20 d ltac:(lia))).
  unfold slider_checked in H. apply FloatAxioms.Leibniz.eqb_spec in H.
  rewrite <- H. reflexivity.
Qed.

Lemma slider_exact (p d : Z) (dropout : bool) :
  (1 <= d)%Z ->
  n (Prevalence.calc (slider_state p d dropout : Prevalence.State R))
  = NNumber (IZR (exact_prevalence p d dropout)).
Proof.
  intros Hd.
  assert (HdR : (IZR d <> 0)%R) by (apply not_0_IZR; lia).
  assert (Hdd : (0 < d * d)%Z) by nia.
  unfold exact_prevalence. destruct dropout.
  - rewrite <- (ceil_quotient (40 * p * (100 - p)) (9 * d * d)) by lia.
    rewrite !mult_IZR, minus_IZR.
    unfold Prevalence.calc, slider_state. cbn. do 2 f_equal. field. exact HdR.
  - rewrite <- (ceil_quotient (4 * p * (100 - p)) (d * d)) by lia.
    rewrite !mult_IZR, minus_IZR.
    unfold Prevalence.calc, slider_state. cbn. do 2 f_equal. field. exact HdR.
Qed.

(** X1.  On every position of the two sliders (prevalence 1 to 99,
    precision 1 to 20, no finite-population correction), in exact
    arithmetic the calculator returns the least integer not below 4PQ/D^2
    (divided by 0.9 with dropout), and in binary64 it returns that integer
    or one more: one more at the 70 positions listed in [overshoots false]
    (13 with dropout), such as P = 10, D = 3, where 4PQ/D^2 is 400 and the
    calculator answers 401.  The first version of the page computes the
    same number. *)
Theorem prevalence_slider_rounding :
  (forall (p d : Z) (dropout : bool),
      (1 <= p <= 99)%Z -> (1 <= d <= 20)%Z ->
      n (Prevalence.calc (slider_state p d dropout : Prevalence.State R))
      = NNumber (IZR (exact_prevalence p d dropout))
      /\ n (Prevalence.calc (slider_state p d dropout : Prevalence.State float))
         = NNumber (of_Z (exact_prevalence p d dropout + overshoot p d dropout))
      /\ (overshoot p d dropout = 1%Z <->
          In (p, d) (overshoots dropout)))
  /\ (List.length (overshoots false) = 70%nat /\ List.length (overshoots true) = 13%nat
      /\ In (10, 3)%Z (overshoots false)
      /\ exact_prevalence 10 3 false = 400%Z
      /\ n (Prevalence.calc (slider_state 10 3 false : Prevalence.State float))
         = NNumber $401)
  /\ (forall (num : Type) (JN : JSNumber num) (p d : Z),
         n (Prevalence.calc (slider_state p d false : Prevalence.State num))
         = NNumber (updateCalculation (of_Z p) (of_Z d))).
Proof.
  split; [|split].
  - intros p d dropout Hp Hd.
    split; [apply slider_exact; lia|].
    split; [apply slider_binary64; assumption|].
    unfold overshoot. split.
    + destruct (existsb _ _) eqn:E; [|discriminate]. intros _.
      apply existsb_exists in E. destruct E as ([p' d'] & Hin & E).
      apply andb_prop in E. destruct E as [E1 E2]. cbn in E1, E2.
      apply Z.eqb_eq in E1, E2. subst. exact Hin.
    + intros Hin.
      assert (E : existsb (fun q => (fst q =? p)%Z && (snd q =? d)%Z)
                    (overshoots dropout) = true).
      { apply existsb_exists. exists (p, d). split; [exact Hin|].
        cbn. now rewrite !Z.eqb_refl. }
      now rewrite E.
  - split; [reflexivity|]. split; [reflexivity|].
    split; [cbn; tauto|]. split; [reflexivity|].
    vm_compute. reflexivity.
  - intros num JN p d. reflexivity.
Qed.

Lemma prevalence_slider_rounding_witness :
  ((1 <= 20 <= 99)%Z /\ (1 <= 4 <= 20)%Z)
  /\ n (Prevalence.calc (slider_state 20 4 false : Prevalence.State R)) = NNumber $400
  /\ n (Prevalence.calc (slider_state 20 4 false : Prevalence.State float))
     = NNumber $401.
Proof.
  assert (H1 : (1 <= 20 <= 99)%Z) by lia.
  assert (H2 : (1 <= 4 <= 20)%Z) by lia.
  split; [exact (conj H1 H2)|].
  destruct (proj1 prevalence_slider_rounding 20%Z 4%Z false H1 H2) as (E1 & E2 & _).
  split; [exact E1 | exact E2].
Defined.
End SliderClaims.

(** ** Invariants of the comparative estimator, in exact arithmetic *)

Module ExactCounts.
Import Exact ExactFacts ExactQuantiles ExactProportions.
Open Scope R_scope.

Lemma ceil_integer (x : R) : exists k : Z, ceil x = IZR k.
Proof. unfold ceil. eexists. reflexivity. Qed.

Lemma ceil_positive (x : R) : 0 < x -> exists k : Z, (1 <= k)%Z /\ ceil x = IZR k.
Proof.
  intros Hx. destruct (ceil_integer x) as [k Hk]. exists k. split; [|exact Hk].
  destruct (ceil_bounds x) as [H _]. rewrite Hk in H.
  assert (IZR 0 < IZR k) by lra. apply lt_IZR in H0. lia.
Qed.

(** The ceiling of a number above an integer is above that integer. *)
Lemma ceil_above (k : Z) (y : R) : IZR k < y -> IZR k + 1 <= ceil y.
Proof.
  intros H. destruct (ceil_integer y) as [c Hc]. rewrite Hc.
  destruct (ceil_bounds y) as [H1 _]. rewrite Hc in H1.
  assert (IZR k < IZR c) by lra. apply lt_IZR in H0.
  rewrite <- plus_IZR. apply IZR_le. lia.
Qed.

Lemma ceil_monotone (x y : R) : x <= y -> ceil x <= ceil y.
Proof.
  intros H. destruct (ceil_integer y) as [c Hc]. rewrite Hc.
  apply ceil_le_IZR. destruct (ceil_bounds y) as [H1 _]. rewrite Hc in H1. lra.
Qed.

(** The three counts of one method, from an unrounded positive [raw]. *)
Lemma groups_positive (raw r : R) (dropout : bool) :
  0 < raw -> 0 < r ->
  let e := Spec.groups (Spec.withDropout (Math_ceil raw) dropout) r in
  exists k1 k2 : Z,
    (1 <= k1)%Z /\ (1 <= k2)%Z
    /\ Estimate.n1 e = IZR k1 /\ Estimate.n2 e = IZR k2
    /\ Estimate.total e = IZR (k1 + k2).
Proof.
  intros Hraw Hr e. subst e. unfold Spec.groups, Spec.withDropout. cbn.
  destruct (ceil_positive raw Hraw) as (k & Hk & Ek). rewrite Ek.
  assert (Hk0 : 0 < IZR k) by (apply IZR_lt; lia).
  assert (Hn1 : exists k1 : Z, (1 <= k1)%Z
            /\ (if dropout then ceil (IZR k / (9 / 10)) else IZR k) = IZR k1).
  { destruct dropout; [|exists k; split; [exact Hk|reflexivity]].
    apply ceil_positive. apply Rdiv_lt_0_compat; lra. }
  destruct Hn1 as (k1 & Hk1 & E1). rewrite E1.
  assert (Hk1R : 0 < IZR k1) by (apply IZR_lt; lia).
  destruct (ceil_positive (IZR k1 * r)) as (k2 & Hk2 & E2).
  { apply Rmult_lt_0_compat; assumption. }
  exists k1, k2. rewrite E2, plus_IZR. repeat split; assumption.
Qed.

Lemma groups_monotone (a b r : R) :
  0 < r -> a <= b ->
  Estimate.n1 (Spec.groups a r) <= Estimate.n1 (Spec.groups b r)
  /\ Estimate.n2 (Spec.groups a r) <= Estimate.n2 (Spec.groups b r)
  /\ Estimate.total (Spec.groups a r) <= Estimate.total (Spec.groups b r).
Proof.
  intros Hr Hab. unfold Spec.groups. cbn.
  assert (ceil (a * r) <= ceil (b * r)) by (apply ceil_monotone; nra).
  repeat split; lra.
Qed.

Lemma withDropout_monotone (a b : R) (dropout : bool) :
  a <= b -> Spec.withDropout a dropout <= Spec.withDropout b dropout.
Proof.
  intros H. unfold Spec.withDropout. destruct dropout; [|exact H]. cbn.
  apply ceil_monotone. lra.
Qed.

Lemma kelsey_positive (za zb p1 p2 r : R) :
  0 < za -> 0 < zb -> 0 < p1 < 1 -> 0 < p2 < 1 -> 0 < r -> p1 <> p2 ->
  0 < Spec.kelsey za zb p1 p2 r.
Proof.
  intros Ha Hb H1 H2 Hr Hne. unfold Spec.kelsey, Spec.pAvgQAvg, Spec.sq.
  pose proof (pAvg_bounds p1 p2 r H1 H2 Hr) as Hp.
  set (a := Spec.pAvg p1 p2 r) in *. clearbody a. cbn.
  assert (0 < (za + zb) * (za + zb)) by nra.
  assert (0 < a * (1 - a)) by nra.
  assert (0 < (p1 - p2) * (p1 - p2)) by nra.
  apply Rdiv_lt_0_compat.
  - apply Rmult_lt_0_compat; [apply Rmult_lt_0_compat; assumption | lra].
  - apply Rmult_lt_0_compat; assumption.
Qed.

(** The continuity correction never lowers the unrounded estimate. *)
Lemma fleissCC_above (za zb p1 p2 r : R) :
  0 < za -> 0 < zb -> 0 < p1 < 1 -> 0 < p2 < 1 -> 0 < r -> p1 <> p2 ->
  Spec.fleiss za zb p1 p2 r < Spec.fleissCC za zb p1 p2 r.
Proof.
  intros Ha Hb H1 H2 Hr Hne.
  pose proof (fleiss_positive za zb p1 p2 r Ha Hb H1 H2 Hr Hne) as Hf.
  destruct (correctionTerm_positive za zb p1 p2 r Ha Hb H1 H2 Hr Hne) as [_ Hct].
  unfold Spec.fleissCC, Spec.sq.
  set (f := Spec.fleiss za zb p1 p2 r) in *.
  set (ct := Spec.correctionTerm za zb p1 p2 r) in *. clearbody f ct. cbn.
  assert (Hs : 1 < R_sqrt.sqrt (1 + ct)).
  { rewrite <- sqrt_1 at 1. apply sqrt_lt_1_alt. lra. }
  set (s := R_sqrt.sqrt (1 + ct)) in *. clearbody s.
  assert (H4 : 0 < (1 + s) * (1 + s) - 4) by nra.
  assert (Hp : 0 < f * ((1 + s) * (1 + s) - 4)) by (apply Rmult_lt_0_compat; lra).
  replace (f / 4 * ((1 + s) * (1 + s)))
    with (f + f * ((1 + s) * (1 + s) - 4) / 4) by field.
  lra.
Qed.
End ExactCounts.

Section EstimatorInvariants.
Import Exact ExactFacts ExactQuantiles ExactProportions ExactCounts.
Open Scope R_scope.

(** X2.  In exact arithmetic, for proportions strictly between 0 and 1 that
    differ and a ratio above 0, every count the estimator returns is a
    positive integer: for each of the three methods n1 >= 1, n2 >= 1 and
    total = n1 + n2, with or without dropout. *)
Theorem estimator_counts_positive (p1 p2 r alpha beta : R) (dropout : bool) :
  0 < p1 < 1 -> 0 < p2 < 1 -> p1 <> p2 -> 0 < r ->
  forall e : Estimate.t R,
    In e (let t := calculateAdvanced p1 p2 r alpha beta dropout in
          [kelsey t; fleiss t; fleiss_cc t]) ->
    exists k1 k2 : Z,
      (1 <= k1)%Z /\ (1 <= k2)%Z
      /\ Estimate.n1 e = IZR k1 /\ Estimate.n2 e = IZR k2
      /\ Estimate.total e = IZR (k1 + k2).
Proof.
  intros H1 H2 Hne Hr e He.
  rewrite calculateAdvanced_formulas in He by (apply less_iff; exact Hr).
  cbv zeta in He. cbn [kelsey fleiss fleiss_cc] in He.
  set (za := getZAlpha _) in He. set (zb := getZBeta _) in He.
  assert (Ha : 0 < za) by apply getZAlpha_positive.
  assert (Hb : 0 < zb) by apply getZBeta_positive.
  pose proof (kelsey_positive za zb p1 p2 r Ha Hb H1 H2 Hr Hne) as Hk.
  pose proof (fleiss_positive za zb p1 p2 r Ha Hb H1 H2 Hr Hne) as Hf.
  pose proof (fleissCC_above za zb p1 p2 r Ha Hb H1 H2 Hr Hne) as Hc.
  destruct He as [<-|[<-|[<-|[]]]]; apply groups_positive; lra.
Qed.

Lemma estimator_counts_positive_witness :
  (0 < 4 / 10 < 1 /\ 0 < 5 / 10 < 1 /\ 4 / 10 <> 5 / 10 /\ 0 < 2)
  /\ exists k1 k2 : Z,
      (1 <= k1)%Z /\ (1 <= k2)%Z
      /\ Estimate.n1 (kelsey (calculateAdvanced (4 / 10) (5 / 10) 2 (5 / 100) (2 / 10) true))
         = IZR k1
      /\ Estimate.n2 (kelsey (calculateAdvanced (4 / 10) (5 / 10) 2 (5 / 100) (2 / 10) true))
         = IZR k2
      /\ Estimate.total (kelsey (calculateAdvanced (4 / 10) (5 / 10) 2 (5 / 100) (2 / 10) true))
         = IZR (k1 + k2).
Proof.
  assert (H1 : 0 < 4 / 10 < 1) by lra.
  assert (H2 : 0 < 5 / 10 < 1) by lra.
  assert (H3 : 4 / 10 <> 5 / 10) by lra.
  assert (H4 : 0 < 2) by lra.
  split; [exact (conj H1 (conj H2 (conj H3 H4)))|].
  apply (estimator_counts_positive (4 / 10) (5 / 10) 2 (5 / 100) (2 / 10) true
           H1 H2 H3 H4).
  left. reflexivity.
Defined.

(** X3.  In exact arithmetic, for the same inputs, the estimate with
    continuity correction is never below the Fleiss estimate: n1, n2 and
    total of [fleiss_cc] are at least those of [fleiss]. *)
Theorem continuity_correction_conservative (p1 p2 r alpha beta : R) (dropout : bool) :
  0 < p1 < 1 -> 0 < p2 < 1 -> p1 <> p2 -> 0 < r ->
  let t := calculateAdvanced p1 p2 r alpha beta dropout in
  Estimate.n1 (fleiss t) <= Estimate.n1 (fleiss_cc t)
  /\ Estimate.n2 (fleiss t) <= Estimate.n2 (fleiss_cc t)
  /\ Estimate.total (fleiss t) <= Estimate.total (fleiss_cc t).
Proof.
  intros H1 H2 Hne Hr t. subst t.
  rewrite calculateAdvanced_formulas by (apply less_iff; exact Hr).
  cbv zeta. cbn [kelsey fleiss fleiss_cc].
  set (za := getZAlpha _). set (zb := getZBeta _).
  assert (Ha : 0 < za) by apply getZAlpha_positive.
  assert (Hb : 0 < zb) by apply getZBeta_positive.
  pose proof (fleissCC_above za zb p1 p2 r Ha Hb H1 H2 Hr Hne) as Hc.
  apply groups_monotone; [exact Hr|].
  apply withDropout_monotone. apply ceil_monotone. lra.
Qed.

Lemma continuity_correction_conservative_witness :
  (0 < 4 / 10 < 1 /\ 0 < 5 / 10 < 1 /\ 4 / 10 <> 5 / 10 /\ 0 < 2)
  /\ Estimate.total (fleiss (calculateAdvanced (4 / 10) (5 / 10) 2 (5 / 100) (2 / 10) false))
     <= Estimate.total
          (fleiss_cc (calculateAdvanced (4 / 10) (5 / 10) 2 (5 / 100) (2 / 10) false)).
Proof.
  assert (H1 : 0 < 4 / 10 < 1) by lra.
  assert (H2 : 0 < 5 / 10 < 1) by lra.
  assert (H3 : 4 / 10 <> 5 / 10) by lra.
  assert (H4 : 0 < 2) by lra.
  split; [exact (conj H1 (conj H2 (conj H3 H4)))|].
  exact (proj2 (proj2 (continuity_correction_conservative
    (4 / 10) (5 / 10) 2 (5 / 100) (2 / 10) false H1 H2 H3 H4))).
Defined.

(** X4.  In exact arithmetic, for the same inputs, the dropout option
    raises the n1 of every method by at least one participant and lowers
    no n2 and no total. *)
Theorem dropout_raises_estimates (p1 p2 r alpha beta : R) :
  0 < p1 < 1 -> 0 < p2 < 1 -> p1 <> p2 -> 0 < r ->
  let plain := calculateAdvanced p1 p2 r alpha beta false in
  let inflated := calculateAdvanced p1 p2 r alpha beta true in
  forall method : MethodTable R -> Estimate.t R,
    In method [@kelsey R; @fleiss R; @fleiss_cc R] ->
    Estimate.n1 (method plain) + 1 <= Estimate.n1 (method inflated)
    /\ Estimate.n2 (method plain) <= Estimate.n2 (method inflated)
    /\ Estimate.total (method plain) + 1 <= Estimate.total (method inflated).
Proof.
  intros H1 H2 Hne Hr plain inflated method Hm. subst plain inflated.
  rewrite !calculateAdvanced_formulas by (apply less_iff; exact Hr).
  cbv zeta.
  set (za := getZAlpha _). set (zb := getZBeta _).
  assert (Ha : 0 < za) by apply getZAlpha_positive.
  assert (Hb : 0 < zb) by apply getZBeta_positive.
  pose proof (kelsey_positive za zb p1 p2 r Ha Hb H1 H2 Hr Hne) as Hk.
  pose proof (fleiss_positive za zb p1 p2 r Ha Hb H1 H2 Hr Hne) as Hf.
  pose proof (fleissCC_above za zb p1 p2 r Ha Hb H1 H2 Hr Hne) as Hc.
  assert (G : forall raw : R, 0 < raw ->
    let a := Spec.groups (Spec.withDropout (Math_ceil raw) false) r in
    let b := Spec.groups (Spec.withDropout (Math_ceil raw) true) r in
    Estimate.n1 a + 1 <= Estimate.n1 b
    /\ Estimate.n2 a <= Estimate.n2 b
    /\ Estimate.total a + 1 <= Estimate.total b).
  { intros raw Hraw. cbn.
    destruct (ceil_positive raw Hraw) as (k & Hk1 & Ek). rewrite Ek.
    assert (Hk0 : 1 <= IZR k) by (apply IZR_le; exact Hk1).
    assert (Hup : IZR k + 1 <= ceil (IZR k / (9 / 10))).
    { apply ceil_above. apply (Rmult_lt_reg_r (9 / 10)); [lra|].
      unfold Rdiv at 2. rewrite Rmult_assoc, Rinv_l by lra. lra. }
    assert (ceil (IZR k * r) <= ceil (ceil (IZR k / (9 / 10)) * r))
      by (apply ceil_monotone; nra).
    repeat split; lra. }
  destruct Hm as [<-|[<-|[<-|[]]]]; cbn [kelsey fleiss fleiss_cc]; apply G; lra.
Qed.

Lemma dropout_raises_estimates_witness :
  (0 < 4 / 10 < 1 /\ 0 < 5 / 10 < 1 /\ 4 / 10 <> 5 / 10 /\ 0 < 2)
  /\ Estimate.n1 (kelsey (calculateAdvanced (4 / 10) (5 / 10) 2 (5 / 100) (2 / 10) false)) + 1
     <= Estimate.n1 (kelsey (calculateAdvanced (4 / 10) (5 / 10) 2 (5 / 100) (2 / 10) true)).
Proof.
  assert (H1 : 0 < 4 / 10 < 1) by lra.
  assert (H2 : 0 < 5 / 10 < 1) by lra.
  assert (H3 : 4 / 10 <> 5 / 10) by lra.
  assert (H4 : 0 < 2) by lra.
  split; [exact (conj H1 (conj H2 (conj H3 H4)))|].
  exact (proj1 (dropout_raises_estimates (4 / 10) (5 / 10) 2 (5 / 100) (2 / 10)
                  H1 H2 H3 H4 (@kelsey R) (or_introl eq_refl))).
Defined.
End EstimatorInvariants.

(** ** Symmetries and the ratio fallback *)

Module ExactSymmetry.
Import Exact ExactFacts.
Open Scope R_scope.

Lemma pAvg_complement (p1 p2 r : R) :
  0 < r -> Spec.pAvg (1 - p1) (1 - p2) r = 1 - Spec.pAvg p1 p2 r.
Proof. intros Hr. unfold Spec.pAvg. cbn. field. lra. Qed.

Lemma pAvgQAvg_complement (p1 p2 r : R) :
  0 < r -> Spec.pAvgQAvg (1 - p1) (1 - p2) r = Spec.pAvgQAvg p1 p2 r.
Proof.
  intros Hr. unfold Spec.pAvgQAvg. rewrite pAvg_complement by exact Hr.
  cbn. ring.
Qed.

Lemma kelsey_complement (za zb p1 p2 r : R) :
  0 < r -> Spec.kelsey za zb (1 - p1) (1 - p2) r = Spec.kelsey za zb p1 p2 r.
Proof.
  intros Hr. unfold Spec.kelsey. rewrite pAvgQAvg_complement by exact Hr.
  unfold Spec.sq. cbn. f_equal. f_equal. ring.
Qed.

Lemma fleiss_complement (za zb p1 p2 r : R) :
  0 < r -> Spec.fleiss za zb (1 - p1) (1 - p2) r = Spec.fleiss za zb p1 p2 r.
Proof.
  intros Hr. unfold Spec.fleiss, Spec.term1, Spec.term2, Spec.pooledVariance,
    Spec.groupVariance. rewrite pAvgQAvg_complement by exact Hr.
  unfold Spec.sq. cbn.
  replace (r * ((1 - p1) * (1 - (1 - p1))) + (1 - p2) * (1 - (1 - p2)))
    with (r * (p1 * (1 - p1)) + p2 * (1 - p2)) by ring.
  replace ((1 - p1 - (1 - p2)) * (1 - p1 - (1 - p2)))
    with ((p1 - p2) * (p1 - p2)) by ring.
  reflexivity.
Qed.

Lemma fleissCC_complement (za zb p1 p2 r : R) :
  0 < r -> Spec.fleissCC za zb (1 - p1) (1 - p2) r = Spec.fleissCC za zb p1 p2 r.
Proof.
  intros Hr. unfold Spec.fleissCC, Spec.correctionTerm.
  rewrite fleiss_complement by exact Hr. cbn.
  replace (1 - p1 - (1 - p2)) with (- (p1 - p2)) by ring.
  rewrite Rabs_Ropp. reflexivity.
Qed.
End ExactSymmetry.

Section RatioFallback.
Context {num : Type} {JN : JSNumber num}.
Open Scope js_scope.

(** A falsy ratio is replaced by 1, which the estimator reads as 1. *)
Lemma falsy_ratio (r : num) :
  truthy (parseFloat r) = false -> js_or (parseFloat r) $1 = $1.
Proof. intros H. unfold js_or. now rewrite H. Qed.

Lemma calculateAdvanced_ratio (p1 p2 r r' alpha beta : num) (dropout : bool) :
  js_or (parseFloat r) $1 = js_or (parseFloat r') $1 ->
  calculateAdvanced p1 p2 r alpha beta dropout
  = calculateAdvanced p1 p2 r' alpha beta dropout.
Proof. intros E. unfold calculateAdvanced. rewrite E. reflexivity. Qed.
End RatioFallback.

Section SymmetryClaims.
Import Exact ExactFacts ExactSymmetry.
Open Scope js_scope.

(** X5.  In exact arithmetic, for a ratio above 0, the estimator returns
    the same table for the proportions of an outcome and for the proportions
    of its complement: [calculateAdvanced (1-p1) (1-p2)] equals
    [calculateAdvanced p1 p2]. *)
Theorem estimator_complement (p1 p2 r alpha beta : R) (dropout : bool) :
  (0 < r)%R ->
  calculateAdvanced (1 - p1)%R (1 - p2)%R r alpha beta dropout
  = calculateAdvanced p1 p2 r alpha beta dropout.
Proof.
  intros Hr.
  rewrite !calculateAdvanced_formulas by (apply less_iff; exact Hr).
  cbv zeta.
  rewrite kelsey_complement, fleiss_complement, fleissCC_complement by exact Hr.
  reflexivity.
Qed.

Lemma estimator_complement_witness :
  (0 < 2)%R
  /\ calculateAdvanced (1 - 4 / 10)%R (1 - 5 / 10)%R 2%R (5 / 100)%R (2 / 10)%R false
     = calculateAdvanced (4 / 10)%R (5 / 10)%R 2%R (5 / 100)%R (2 / 10)%R false.
Proof.
  assert (H : (0 < 2)%R) by lra.
  split; [exact H|].
  exact (estimator_complement (4 / 10)%R (5 / 10)%R 2%R (5 / 100)%R (2 / 10)%R false H).
Defined.

(** X6.  A ratio that is falsy once parsed (0, and in binary64 also -0 and
    NaN, the value of an empty field) is not rejected: the estimator and
    the RCT, cohort, case-control and two-means calculators return what
    they return for the ratio 1.  In binary64 and in exact arithmetic. *)
Theorem falsy_ratio_is_one :
  (forall (num : Type) (JN : JSNumber num),
      js_or (parseFloat ($1 : num)) $1 = $1 ->
      forall r : num,
        truthy (parseFloat r) = false ->
        (forall p1 p2 alpha beta dropout,
            calculateAdvanced p1 p2 r alpha beta dropout
            = calculateAdvanced p1 p2 $1 alpha beta dropout)
        /\ (forall a b pw cf dropout,
               RCT.calc {| RCT.p1 := a; RCT.p2 := b; RCT.power := pw;
                           RCT.confidence := cf; RCT.ratio := r;
                           RCT.dropout := dropout |}
               = RCT.calc {| RCT.p1 := a; RCT.p2 := b; RCT.power := pw;
                             RCT.confidence := cf; RCT.ratio := $1;
                             RCT.dropout := dropout |})
        /\ (forall a b pw cf dropout,
               Cohort.calc {| Cohort.p_unexposed := a; Cohort.p_exposed := b;
                              Cohort.power := pw; Cohort.confidence := cf;
                              Cohort.ratio := r; Cohort.dropout := dropout |}
               = Cohort.calc {| Cohort.p_unexposed := a; Cohort.p_exposed := b;
                                Cohort.power := pw; Cohort.confidence := cf;
                                Cohort.ratio := $1; Cohort.dropout := dropout |})
        /\ (forall a b pw cf dropout,
               CaseControl.calc {| CaseControl.p_controls := a; CaseControl.or_ := b;
                                   CaseControl.power := pw; CaseControl.confidence := cf;
                                   CaseControl.ratio := r; CaseControl.dropout := dropout |}
               = CaseControl.calc {| CaseControl.p_controls := a; CaseControl.or_ := b;
                                     CaseControl.power := pw; CaseControl.confidence := cf;
                                     CaseControl.ratio := $1;
                                     CaseControl.dropout := dropout |})
        /\ (forall m1 s1 m2 s2 pw cf dropout,
               TwoMeans.calc {| TwoMeans.mean1 := m1; TwoMeans.sd1 := s1;
                                TwoMeans.mean2 := m2; TwoMeans.sd2 := s2;
                                TwoMeans.ratio := r; TwoMeans.power := pw;
                                TwoMeans.confidence := cf; TwoMeans.dropout := dropout |}
               = TwoMeans.calc {| TwoMeans.mean1 := m1; TwoMeans.sd1 := s1;
                                  TwoMeans.mean2 := m2; TwoMeans.sd2 := s2;
                                  TwoMeans.ratio := $1; TwoMeans.power := pw;
                                  TwoMeans.confidence := cf;
                                  TwoMeans.dropout := dropout |}))
  /\ (js_or (parseFloat ($1 : float)) $1 = $1
      /\ map (fun r : float => truthy (parseFloat r)) [$0; neg_zero; nan]
         = [false; false; false])
  /\ (js_or (parseFloat ($1 : R)) $1 = $1 /\ truthy (parseFloat ($0 : R)) = false).
Proof.
  split; [|split].
  - intros num JN H1 r Hr.
    assert (E : js_or (parseFloat r) $1 = js_or (parseFloat ($1 : num)) $1)
      by (rewrite H1; apply falsy_ratio; exact Hr).
    split; [intros; apply calculateAdvanced_ratio; exact E|].
    split; [intros; unfold RCT.calc; cbn [RCT.ratio]; rewrite E; reflexivity|].
    split; [intros; unfold Cohort.calc; cbn [Cohort.ratio]; rewrite E; reflexivity|].
    split; [intros; unfold CaseControl.calc; cbn [CaseControl.ratio]; rewrite E;
            reflexivity|].
    intros; unfold TwoMeans.calc; cbn [TwoMeans.ratio]; rewrite E; reflexivity.
  - split; reflexivity.
  - split.
    + rewrite parseFloat_exact. apply js_or_exact. cbn. lra.
    + rewrite parseFloat_exact. unfold truthy. cbn.
      replace (same 0 0) with true by (symmetry; now apply same_iff).
      reflexivity.
Qed.

(** An RCT whose ratio field is empty (NaN), in binary64. *)
Lemma falsy_ratio_is_one_witness :
  (js_or (parseFloat ($1 : float)) $1 = $1 /\ truthy (parseFloat (nan : float)) = false)
  /\ RCT.calc {| RCT.p1 := $50; RCT.p2 := $40; RCT.power := $80;
                 RCT.confidence := $95; RCT.ratio := nan; RCT.dropout := false |}
     = RCT.calc {| RCT.p1 := $50; RCT.p2 := $40; RCT.power := $80;
                   RCT.confidence := $95; RCT.ratio := $1; RCT.dropout := false |}.
Proof.
  assert (H1 : js_or (parseFloat ($1 : float)) $1 = $1) by reflexivity.
  assert (H2 : truthy (parseFloat (nan : float)) = false) by reflexivity.
  split; [exact (conj H1 H2)|].
  exact (proj1 (proj2 (proj1 falsy_ratio_is_one float _ H1 nan H2))
           $50 $40 $80 $95 false).
Defined.


End SymmetryClaims.

(** ** NaN in binary64 *)

Module Float64NaN.
Import Float64.
Open Scope float_scope.

Lemma Prim2SF_nan : Prim2SF nan = S754_nan.
Proof. reflexivity. Qed.

Lemma add_nan_l (y : float) : nan + y = nan.
Proof.
  apply Prim2SF_inj. rewrite add_spec, Prim2SF_nan. reflexivity.
Qed.

Lemma add_nan_r (x : float) : x + nan = nan.
Proof.
  apply Prim2SF_inj. rewrite add_spec, Prim2SF_nan.
  destruct (Prim2SF x) as [s|s| |s m e]; reflexivity.
Qed.

Lemma sub_nan_l (y : float) : nan - y = nan.
Proof.
  apply Prim2SF_inj. rewrite sub_spec, Prim2SF_nan. reflexivity.
Qed.

Lemma sub_nan_r (x : float) : x - nan = nan.
Proof.
  apply Prim2SF_inj. rewrite sub_spec, Prim2SF_nan.
  destruct (Prim2SF x) as [s|s| |s m e]; reflexivity.
Qed.

Lemma mul_nan_l (y : float) : nan * y = nan.
Proof.
  apply Prim2SF_inj. rewrite mul_spec, Prim2SF_nan. reflexivity.
Qed.

Lemma mul_nan_r (x : float) : x * nan = nan.
Proof.
  apply Prim2SF_inj. rewrite mul_spec, Prim2SF_nan.
  destruct (Prim2SF x) as [s|s| |s m e]; reflexivity.
Qed.

Lemma div_nan_l (y : float) : nan / y = nan.
Proof.
  apply Prim2SF_inj. rewrite div_spec, Prim2SF_nan. reflexivity.
Qed.

Lemma div_nan_r (x : float) : x / nan = nan.
Proof.
  apply Prim2SF_inj. rewrite div_spec, Prim2SF_nan.
  destruct (Prim2SF x) as [s|s| |s m e]; reflexivity.
Qed.

Lemma ltb_nan_l (y : float) : (nan <? y) = false.
Proof. rewrite FloatAxioms.ltb_spec, Prim2SF_nan. reflexivity. Qed.

Lemma ltb_nan_r (x : float) : (x <? nan) = false.
Proof.
  rewrite FloatAxioms.ltb_spec, Prim2SF_nan.
  destruct (Prim2SF x) as [s|s| |s m e]; reflexivity.
Qed.

Lemma eqb_nan_l (y : float) : (nan =? y) = false.
Proof. rewrite FloatAxioms.eqb_spec, Prim2SF_nan. reflexivity. Qed.

Lemma eqb_nan_r (x : float) : (x =? nan) = false.
Proof.
  rewrite FloatAxioms.eqb_spec, Prim2SF_nan.
  destruct (Prim2SF x) as [s|s| |s m e]; reflexivity.
Qed.

Lemma sqrt_nan : sqrt nan = nan.
Proof. reflexivity. Qed.

Lemma abs_nan : abs nan = nan.
Proof. reflexivity. Qed.

Lemma ceil_nan : ceil nan = nan.
Proof. reflexivity. Qed.
End Float64NaN.

Ltac nan_simpl :=
  repeat rewrite ?Float64NaN.add_nan_l, ?Float64NaN.add_nan_r,
    ?Float64NaN.sub_nan_l, ?Float64NaN.sub_nan_r,
    ?Float64NaN.mul_nan_l, ?Float64NaN.mul_nan_r,
    ?Float64NaN.div_nan_l, ?Float64NaN.div_nan_r,
    ?Float64NaN.sqrt_nan, ?Float64NaN.abs_nan, ?Float64NaN.ceil_nan,
    ?Float64NaN.ltb_nan_l, ?Float64NaN.ltb_nan_r,
    ?Float64NaN.eqb_nan_l, ?Float64NaN.eqb_nan_r.

Ltac to_primitive :=
  cbn [add sub mul div Math_abs Math_sqrt Math_ceil ltb leb eqb Float64.number].

Section NaNInputs.
Open Scope js_scope.

(** A NaN proportion, in either place, gives a table of NaN. *)
Lemma calculateAdvanced_nan_l (p2 ratio alpha beta : float) (dropout : bool) :
  calculateAdvanced nan p2 ratio alpha beta dropout = NaN_table.
Proof.
  unfold calculateAdvanced, Math_pow2. to_primitive.
  destruct dropout; nan_simpl; reflexivity.
Qed.

Lemma calculateAdvanced_nan_r (p1 ratio alpha beta : float) (dropout : bool) :
  calculateAdvanced p1 nan ratio alpha beta dropout = NaN_table.
Proof.
  unfold calculateAdvanced, Math_pow2. to_primitive.
  destruct dropout; nan_simpl; reflexivity.
Qed.

Lemma parseFloat_nan : parseFloat (nan : float) = nan.
Proof. reflexivity. Qed.

(** X8.  In binary64 a NaN input, which is what an empty or unreadable
    field is parsed to, is never rejected.  With a NaN odds ratio the
    case-control calculator passes both guards, with a NaN proportion the
    RCT and the cohort calculators pass the guard on equal proportions, and
    each returns n = NaN with a table and group counts that are all NaN;
    with a NaN mean the two-means calculator passes the guard on equal
    means and returns n = NaN and NaN group counts. *)
Theorem nan_inputs_not_rejected :
  (forall state : CaseControl.State float,
      CaseControl.or_ state = nan ->
      n (CaseControl.calc state) = NNumber nan
      /\ table (CaseControl.calc state) = Some NaN_table
      /\ visualData (CaseControl.calc state)
         = Some {| Visual.n1 := nan; Visual.n2 := nan;
                   Visual.label1 := "Controls"; Visual.label2 := "Cases" |})
  /\ (forall state : RCT.State float,
         RCT.p1 state = nan \/ RCT.p2 state = nan ->
         n (RCT.calc state) = NNumber nan
         /\ table (RCT.calc state) = Some NaN_table
         /\ visualData (RCT.calc state)
            = Some {| Visual.n1 := nan; Visual.n2 := nan;
                      Visual.label1 := "Group 1"; Visual.label2 := "Group 2" |})
  /\ (forall state : Cohort.State float,
         Cohort.p_exposed state = nan \/ Cohort.p_unexposed state = nan ->
         n (Cohort.calc state) = NNumber nan
         /\ table (Cohort.calc state) = Some NaN_table
         /\ visualData (Cohort.calc state)
            = Some {| Visual.n1 := nan; Visual.n2 := nan;
                      Visual.label1 := "Unexposed"; Visual.label2 := "Exposed" |})
  /\ (forall state : TwoMeans.State float,
         TwoMeans.mean1 state = nan \/ TwoMeans.mean2 state = nan ->
         n (TwoMeans.calc state) = NNumber nan
         /\ visualData (TwoMeans.calc state)
            = Some {| Visual.n1 := nan; Visual.n2 := nan;
                      Visual.label1 := "Group 1"; Visual.label2 := "Group 2" |}).
Proof.
  split; [|split; [|split]].
  - intros state E. unfold CaseControl.calc, CaseControl.derivedP1.
    rewrite E, parseFloat_nan. to_primitive. nan_simpl.
    change (Float64.ceil nan) with nan.
    rewrite calculateAdvanced_nan_l. repeat split.
  - intros state [E|E]; unfold RCT.calc; rewrite E, parseFloat_nan;
      to_primitive; nan_simpl;
      rewrite ?calculateAdvanced_nan_l, ?calculateAdvanced_nan_r; repeat split.
  - intros state [E|E]; unfold Cohort.calc; rewrite E, parseFloat_nan;
      to_primitive; nan_simpl;
      rewrite ?calculateAdvanced_nan_l, ?calculateAdvanced_nan_r; repeat split.
  - intros state [E|E]; unfold TwoMeans.calc, Math_pow2; rewrite E, parseFloat_nan;
      to_primitive; nan_simpl;
      destruct (TwoMeans.dropout state); nan_simpl; repeat split.
Qed.

(** A case-control form whose odds ratio is empty. *)
Lemma nan_inputs_not_rejected_witness :
  CaseControl.or_ (case_control_sample ($30 : float) nan) = nan
  /\ n (CaseControl.calc (case_control_sample ($30 : float) nan)) = NNumber nan.
Proof.
  assert (H : CaseControl.or_ (case_control_sample ($30 : float) nan) = nan)
    by reflexivity.
  split; [exact H|].
  exact (proj1 (proj1 nan_inputs_not_rejected (case_control_sample $30 nan) H)).
Defined.
End NaNInputs.

(** ** The quantiles the calculators use *)

Module Float64Equality.
Open Scope float_scope.

(** Numeric equality with a finite number other than zero is equality. *)
Lemma eqb_finite (x y : float) (s : bool) (m : positive) (e : Z) :
  Prim2SF y = S754_finite s m e -> (x =? y) = true -> x = y.
Proof.
  intros Hy. rewrite FloatAxioms.eqb_spec, Hy. unfold SFeqb.
  intros H. apply Prim2SF_inj. rewrite Hy.
  destruct (Prim2SF x) as [s'|s'| |s' m' e']; simpl in H.
  - destruct s; discriminate.
  - destruct s'; discriminate.
  - discriminate.
  - assert (E : (e' ?= e)%Z = Eq /\ Pos.compare m' m = Eq /\ s' = s).
    { revert H. unfold Pos.compare.
      destruct s', s; try discriminate;
        destruct (e' ?= e)%Z; try discriminate;
        destruct (Pos.compare_cont Eq m' m); try discriminate;
        intros _; repeat split; reflexivity. }
    destruct E as [E1 [E2 E3]].
    apply Z.compare_eq in E1. apply Pos.compare_eq in E2. subst. reflexivity.
Qed.
End Float64Equality.

Section QuantileClaims.
Import Exact ExactFacts.
Open Scope js_scope.

Lemma getZAlpha_bands_binary64 (c : float) : getZAlpha c = range_approx c.
Proof.
  unfold getZAlpha. fold (range_approx c). cbn [lookup Z_ALPHA_MAP].
  destruct (c === of_Z 90) eqn:E90.
  { eapply Float64Equality.eqb_finite in E90; [|reflexivity]. subst c. reflexivity. }
  destruct (c === of_Z 95) eqn:E95.
  { eapply Float64Equality.eqb_finite in E95; [|reflexivity]. subst c. reflexivity. }
  destruct (c === of_Z 98) eqn:E98.
  { eapply Float64Equality.eqb_finite in E98; [|reflexivity]. subst c. reflexivity. }
  destruct (c === of_Z 99) eqn:E99.
  { eapply Float64Equality.eqb_finite in E99; [|reflexivity]. subst c. reflexivity. }
  reflexivity.
Qed.

Lemma getZAlpha_bands_exact (c : R) : getZAlpha c = range_approx c.
Proof.
  unfold getZAlpha. fold (range_approx c). cbn [lookup Z_ALPHA_MAP].
  assert (T : forall v : R, (0 < v)%R -> truthy v = true)
    by (intros v Hv; apply truthy_exact; lra).
  destruct (c === of_Z 90) eqn:E90.
  { apply same_iff in E90. subst c. rewrite T by (cbn; lra).
    unfold range_approx. cbn.
    replace (less 90 95) with true by (symmetry; apply less_iff; lra).
    reflexivity. }
  destruct (c === of_Z 95) eqn:E95.
  { apply same_iff in E95. subst c. rewrite T by (cbn; lra).
    unfold range_approx. cbn.
    replace (less 95 95) with false by (symmetry; apply less_false_iff; lra).
    replace (less 95 98) with true by (symmetry; apply less_iff; lra).
    reflexivity. }
  destruct (c === of_Z 98) eqn:E98.
  { apply same_iff in E98. subst c. rewrite T by (cbn; lra).
    unfold range_approx. cbn.
    replace (less 98 95) with false by (symmetry; apply less_false_iff; lra).
    replace (less 98 98) with false by (symmetry; apply less_false_iff; lra).
    replace (less 98 99) with true by (symmetry; apply less_iff; lra).
    reflexivity. }
  destruct (c === of_Z 99) eqn:E99.
  { apply same_iff in E99. subst c. rewrite T by (cbn; lra).
    unfold range_approx. cbn.
    replace (less 99 95) with false by (symmetry; apply less_false_iff; lra).
    replace (less 99 98) with false by (symmetry; apply less_false_iff; lra).
    replace (less 99 99) with false by (symmetry; apply less_false_iff; lra).
    reflexivity. }
  reflexivity.
Qed.

(** X9.  The table of exact matches of [getZAlpha] never changes its
    result: for every number, in binary64 (NaN and the infinities included)
    and in exact arithmetic, [getZAlpha] returns the banded value, 1.645
    below 95, 1.96 below 98, 2.326 below 99 and 2.576 otherwise; so it
    takes four values only, and NaN is answered with 2.576. *)
Theorem getZAlpha_is_banded :
  (forall c : float, getZAlpha c = range_approx c)
  /\ (forall c : R, getZAlpha c = range_approx c)
  /\ (forall (num : Type) (JN : JSNumber num) (c : num),
         In (range_approx c) [$1.645; $1.96; $2.326; $2.576])
  /\ getZAlpha (nan : float) = $2.576.
Proof.
  split; [exact getZAlpha_bands_binary64|].
  split; [exact getZAlpha_bands_exact|].
  split; [|reflexivity].
  intros num JN c. unfold range_approx.
  destruct (c <? $95); [now left|].
  destruct (c <? $98); [right; now left|].
  destruct (c <? $99); [right; right; now left|].
  right; right; right; now left.
Qed.

Lemma percentages_kept :
  forallb percentage_kept (Z_range 80 20) = true.
Proof. vm_compute. reflexivity. Qed.

(** X10.  In binary64, for every integer percentage from 80 to 99 (the
    range of the power slider, which contains that of the confidence
    slider), [parseInt] and the fallback [|| 95] keep the percentage, and
    the percentage the estimator computes back from the calculator's alpha
    or beta, (1 - (100 - c)/100) * 100, is exactly c: the estimator reads
    both tables at the percentage of the form, as the two-means calculator
    does directly.  The conversion is not exact for all integers: at 66 it
    gives a number below 66. *)
Theorem form_percentages_recovered :
  (forall c : Z,
      (80 <= c <= 99)%Z ->
      let power : float := parseInt (of_Z c) in
      let conf : float := js_or (parseInt (of_Z c)) $95 in
      let alpha := ($100 - conf) / $100 in
      let beta := ($100 - power) / $100 in
      power = of_Z c /\ conf = of_Z c
      /\ ($1 - alpha) * $100 = of_Z c
      /\ ($1 - beta) * $100 = of_Z c
      /\ getZAlpha (($1 - alpha) * $100) = getZAlpha conf
      /\ getZBeta (($1 - beta) * $100) = getZBeta power)
  /\ ((($1 - ($100 - $66) / $100) * $100 : float) <? $66) = true.
Proof.
  split; [|reflexivity].
  intros c Hc power conf alpha beta.
  pose proof (proj1 (forallb_forall _ _) percentages_kept c
                (In_Z_range 80 20 c ltac:(lia))) as H.
  unfold percentage_kept in H.
  apply andb_prop in H. destruct H as [H H3].
  apply andb_prop in H. destruct H as [H1 H2].
  apply FloatAxioms.Leibniz.eqb_spec in H1, H2, H3.
  assert (Ep : power = of_Z c) by exact H1.
  assert (Ec : conf = of_Z c) by exact H2.
  assert (Eb : ($1 - beta) * $100 = of_Z c) by exact H3.
  assert (Ea : ($1 - alpha) * $100 = of_Z c).
  { subst alpha. rewrite Ec. fold power in H1. rewrite <- H1 at 1. exact H3. }
  split; [exact Ep|]. split; [exact Ec|]. split; [exact Ea|]. split; [exact Eb|].
  rewrite Ea, Eb, Ep, Ec. split; reflexivity.
Qed.

Lemma form_percentages_recovered_witness :
  (80 <= 95 <= 99)%Z
  /\ (($1 - ($100 - js_or (parseInt (of_Z 95 : float)) $95) / $100) * $100 : float)
     = of_Z 95.
Proof.
  assert (H : (80 <= 95 <= 99)%Z) by lia.
  split; [exact H|].
  exact (proj1 (proj2 (proj2 (proj1 form_percentages_recovered 95%Z H)))).
Defined.
End QuantileClaims.

(** ** The dots of the grid *)

Module ExactFloor.
Import Exact ExactFacts.
Open Scope R_scope.

Lemma floor_unique (x : R) (k : Z) : IZR k <= x < IZR k + 1 -> floor x = IZR k.
Proof.
  intros [H1 H2]. destruct (floor_bounds x) as [H3 H4]. unfold floor in *. f_equal.
  set (c := Int_part x) in *.
  assert (A : IZR c < IZR (k + 1)) by (rewrite plus_IZR; lra).
  assert (B : IZR k < IZR (c + 1)) by (rewrite plus_IZR; lra).
  apply lt_IZR in A, B. lia.
Qed.

Lemma quotient_bounds (a b : Z) :
  (0 < b)%Z -> IZR (a / b) <= IZR a / IZR b < IZR (a / b) + 1.
Proof.
  intros Hb.
  pose proof (Z.div_mod a b ltac:(lia)) as E.
  pose proof (Z.mod_pos_bound a b Hb) as [H0 H1].
  set (q := (a / b)%Z) in *. set (m := (a mod b)%Z) in *.
  assert (HbR : 0 < IZR b) by (apply IZR_lt; exact Hb).
  assert (Hm0 : 0 <= IZR m) by (apply IZR_le; exact H0).
  assert (Hm1 : IZR m < IZR b) by (apply IZR_lt; exact H1).
  rewrite E. rewrite plus_IZR, mult_IZR.
  replace ((IZR b * IZR q + IZR m) / IZR b)
    with (IZR q + IZR m / IZR b) by (field; lra).
  assert (0 <= IZR m / IZR b < 1).
  { split.
    - apply Rmult_le_pos; [exact Hm0 | apply Rlt_le, Rinv_0_lt_compat, HbR].
    - apply (Rmult_lt_reg_r (IZR b)); [exact HbR|].
      unfold Rdiv. rewrite Rmult_assoc, Rinv_l by lra. lra. }
  lra.
Qed.

(** [Math.floor] of a quotient of integers is the integer division. *)
Lemma floor_quotient (a b : Z) :
  (0 < b)%Z -> floor (IZR a / IZR b) = IZR (a / b).
Proof. intros Hb. apply floor_unique, quotient_bounds, Hb. Qed.

(** [%] on non-negative integers is the integer remainder. *)
Lemma rem_quotient (a b : Z) :
  (0 <= a)%Z -> (0 < b)%Z -> ExactRem.fmod (IZR a) (IZR b) = IZR (a mod b).
Proof.
  intros Ha Hb. unfold ExactRem.fmod, trunc.
  assert (HbR : 0 < IZR b) by (apply IZR_lt; exact Hb).
  assert (HaR : 0 <= IZR a) by (apply IZR_le; exact Ha).
  assert (0 <= IZR a / IZR b).
  { apply Rmult_le_pos; [exact HaR | apply Rlt_le, Rinv_0_lt_compat, HbR]. }
  destruct (Rlt_dec (IZR a / IZR b) 0); [lra|].
  rewrite floor_quotient by exact Hb.
  rewrite <- mult_IZR, <- minus_IZR. f_equal.
  rewrite Z.mod_eq by lia. reflexivity.
Qed.

(** The rows that pass the safety break are the first [visible_rows]. *)
Lemma row_visible (h : R) (s r : Z) :
  (1 <= s)%Z -> (0 <= r)%Z ->
  less (h - 40) (70 + IZR r * IZR s + IZR s / 2) = false
  <-> (r < visible_rows h s)%Z.
Proof.
  intros Hs Hr. rewrite less_false_iff. unfold visible_rows.
  assert (HsR : 0 < IZR s) by (apply IZR_lt; lia).
  set (a := (h - 110 - IZR s / 2) / IZR s).
  assert (Ea : a * IZR s = h - 110 - IZR s / 2) by (unfold a; field; lra).
  destruct (base_Int_part a) as [B1 B2].
  split.
  - intros H.
    assert (Hra : IZR r <= a) by nra.
    assert (IZR r < IZR (Int_part a + 1)) by (rewrite plus_IZR; lra).
    apply lt_IZR in H0. lia.
  - intros H.
    assert (Hri : (r <= Int_part a)%Z) by lia.
    apply IZR_le in Hri.
    assert (Hra : IZR r <= a) by lra.
    nra.
Qed.

(** For sizes up to 20 pixels, the last row that [getCapacity] counts is not
    among them. *)
Lemma visible_rows_below_capacity (h : R) (s : Z) :
  (1 <= s <= 20)%Z ->
  (visible_rows h s <= Z.max 0 (Int_part (groupH_of h / IZR s) - 1))%Z.
Proof.
  intros Hs. unfold visible_rows, groupH_of. cbn.
  assert (HsR : 1 <= IZR s <= 20) by (split; apply IZR_le; lia).
  set (a := (h - 110 - IZR s / 2) / IZR s).
  set (b := (h - 80) / IZR s).
  assert (Ea : a * IZR s = h - 110 - IZR s / 2) by (unfold a; field; lra).
  assert (Eb : b * IZR s = h - 80) by (unfold b; field; lra).
  destruct (base_Int_part a) as [A1 A2]. destruct (base_Int_part b) as [B1 B2].
  assert (Hab : a + 2 <= b) by nra.
  assert (IZR (Int_part a + 2) < IZR (Int_part b + 1))
    by (rewrite !plus_IZR; lra).
  apply lt_IZR in H. lia.
Qed.
End ExactFloor.

Section GridDots.
Import Exact ExactFacts ExactTables ExactFloor.
Open Scope R_scope.

Lemma drawGroup_step (fuel : nat) (h xStart T : R) (s k n : Z) :
  (1 <= k)%Z -> (0 <= n)%Z ->
  drawGroup (S fuel) h (IZR k) s xStart T (IZR n)
  = if less (IZR n) T
    then if less (h - 40) (70 + IZR (n / k) * IZR s + IZR s / 2) then []
         else grid_cell xStart s k n
              :: drawGroup fuel h (IZR k) s xStart T (IZR (n + 1))
    else [].
Proof.
  intros Hk Hn. cbn [drawGroup]. cbn.
  rewrite floor_quotient by lia. rewrite rem_quotient by lia.
  rewrite plus_IZR. reflexivity.
Qed.

(** The loop of [drawGroup] from index [n] on. *)
Lemma drawGroup_cells (h xStart : R) (s k N : Z) (fuel : nat) :
  (1 <= s)%Z -> (1 <= k)%Z ->
  forall n : Z,
    (0 <= n)%Z -> (N - n <= Z.of_nat fuel)%Z ->
    drawGroup fuel h (IZR k) s xStart (IZR N) (IZR n)
    = map (grid_cell xStart s k)
          (Z_range n (Z.to_nat (Z.min N (k * visible_rows h s) - n))).
Proof.
  intros Hs Hk. induction fuel as [|fuel IH]; intros n Hn Hf.
  - simpl. replace (Z.to_nat _) with 0%nat by lia. reflexivity.
  - rewrite drawGroup_step by lia. rewrite less_IZR.
    destruct (Z.ltb_spec n N) as [HnN|HnN].
    + destruct (less (h - 40) (70 + IZR (n / k) * IZR s + IZR s / 2)) eqn:E.
      * assert (Hv : ~ (n / k < visible_rows h s)%Z).
        { intros Hv. apply (row_visible h s (n / k)) in Hv;
            [congruence | lia | apply Z.div_pos; lia]. }
        assert (k * visible_rows h s <= n)%Z.
        { pose proof (Z.mul_div_le n k ltac:(lia)). nia. }
        replace (Z.to_nat _) with 0%nat by lia. reflexivity.
      * apply row_visible in E; [|lia|apply Z.div_pos; lia].
        assert (n < k * visible_rows h s)%Z.
        { pose proof (Z.div_mod n k ltac:(lia)).
          pose proof (Z.mod_pos_bound n k ltac:(lia)). nia. }
        rewrite IH by lia.
        replace (Z.to_nat (Z.min N (k * visible_rows h s) - n))
          with (S (Z.to_nat (Z.min N (k * visible_rows h s) - (n + 1)))) by lia.
        unfold Z_range. simpl. rewrite Z.add_0_r. f_equal.
        rewrite <- seq_shift, !map_map. apply map_ext. intros i. f_equal. lia.
    + replace (Z.to_nat _) with 0%nat by lia. reflexivity.
Qed.

(** Every dot drawn is the centre of a cell and has passed the safety
    break, whatever the number of dots asked for. *)
Lemma drawGroup_in_cell (h xStart T : R) (s k : Z) (d : R * R) (fuel : nat) :
  (1 <= k)%Z ->
  forall n : Z,
    (0 <= n)%Z ->
    In d (drawGroup fuel h (IZR k) s xStart T (IZR n)) ->
    exists i : Z, (n <= i)%Z /\ IZR i < T /\ d = grid_cell xStart s k i
                  /\ snd d <= h - 40.
Proof.
  intros Hk. induction fuel as [|fuel IH]; intros n Hn Hin.
  - destruct Hin.
  - rewrite drawGroup_step in Hin by lia.
    destruct (less (IZR n) T) eqn:E1; [|destruct Hin].
    destruct (less (h - 40) (70 + IZR (n / k) * IZR s + IZR s / 2)) eqn:E2;
      [destruct Hin|].
    destruct Hin as [<-|Hin].
    + exists n. split; [lia|]. split; [now apply less_iff|].
      split; [reflexivity|]. apply less_false_iff in E2. exact E2.
    + destruct (IH (n + 1)%Z ltac:(lia) Hin) as (i & Hi & HT & Hd & Hy).
      exists i. split; [lia|]. split; [exact HT|]. split; assumption.
Qed.

Lemma findBestCellSize_in (gW gH maxN : R) (sizes : list Z) :
  findBestCellSize gW gH maxN sizes = 0%Z
  \/ In (findBestCellSize gW gH maxN sizes) sizes.
Proof.
  induction sizes as [|size rest IH]; cbn [findBestCellSize]; [now left|].
  destruct (maxN <=? getCapacity gW gH size)%js; [right; now left|].
  destruct IH as [IH|IH]; [now left | right; now right].
Qed.

Lemma bestCellSize_range (w h : R) (data : Visual.t R) :
  (3 <= bestCellSize (drawPopulationGrid w h data) <= 20)%Z.
Proof.
  destruct (drawPopulationGrid_fields w h data) as (Hb & _).
  cbv zeta in Hb. rewrite Hb.
  set (best := findBestCellSize _ _ _ _).
  destruct (findBestCellSize_in (groupW_of w) (groupH_of h)
              (Math_max (js_or (Visual.n1 data) $0) (js_or (Visual.n2 data) $0))%js
              PRESET_SIZES) as [E|E]; fold best in E.
  - rewrite E. simpl. lia.
  - destruct (Z.eqb_spec best 0) as [E0|E0]; [lia|].
    unfold PRESET_SIZES in E. simpl in E.
    repeat (destruct E as [E|E]; [lia|]). destruct E.
Qed.

(** X11.  In exact arithmetic, for cells of 1 to 20 pixels (every preset
    size), at least one column and [N] dots asked for, [drawGroup] draws
    the first min(N, cols * visible_rows) cells in row-major order and
    nothing else, where the rows that pass the safety break [cy > h - 40]
    never include the last row counted by [getCapacity]: a group that
    reaches into that row is drawn with dots missing, although the size was
    chosen because the group was within the capacity.  In binary64, two
    groups of 468 on a canvas of 800 by 600 are laid out at 20 pixels and
    scale 1 (capacity 468) under the legend of one dot a participant, and
    450 dots are drawn for each. *)
Theorem grid_last_row_cut :
  (forall (h xStart : R) (s k N : Z) (fuel : nat),
      (1 <= s <= 20)%Z -> (1 <= k)%Z -> (0 <= N <= Z.of_nat fuel)%Z ->
      let rows := Math_floor (groupH_of h / of_Z s) in
      let drawn := drawGroup fuel h (of_Z k) s xStart (of_Z N) (of_Z 0) in
      drawn = map (grid_cell xStart s k)
                  (Z_range 0 (Z.to_nat (Z.min N (k * visible_rows h s))))
      /\ IZR (visible_rows h s) <= Rmax 0 (rows - 1)
      /\ ((1 <= N)%Z -> IZR k * (rows - 1) < IZR N ->
          (Z.of_nat (List.length drawn) < N)%Z))
  /\ (let D := drawPopulationGrid_dots 500 ($800 : float)%js ($600)%js
                 (groups_sample ($468)%js ($468)%js) in
      let L := drawPopulationGrid ($800 : float)%js ($600)%js
                 (groups_sample ($468)%js ($468)%js) in
      bestCellSize L = 20%Z /\ scale L = ($1)%js /\ sN1 L = ($468)%js
      /\ sN2 L = ($468)%js
      /\ getCapacity (groupW_of ($800 : float)%js) (groupH_of ($600)%js) 20
         = ($468)%js
      /\ legend D = [Text "* 1 Dot = 1 Participant (Actual Size)"]
      /\ List.length (dots1 D) = 450%nat /\ List.length (dots2 D) = 450%nat).
Proof.
  split.
  - intros h xStart s k N fuel Hs Hk HN rows drawn.
    assert (E : drawn = map (grid_cell xStart s k)
                  (Z_range 0 (Z.to_nat (Z.min N (k * visible_rows h s))))).
    { subst drawn. cbn [of_Z number].
      rewrite (drawGroup_cells h xStart s k N fuel) by lia.
      rewrite Z.sub_0_r. reflexivity. }
    pose proof (visible_rows_below_capacity h s Hs) as Hv.
    assert (Hrows : rows = IZR (Int_part (groupH_of h / IZR s))) by reflexivity.
    set (c := Int_part (groupH_of h / IZR s)) in *.
    split; [exact E|]. split.
    + rewrite Hrows.
      apply IZR_le in Hv. rewrite <- minus_IZR.
      destruct (Z.max_spec 0 (c - 1)) as [[_ Em]|[_ Em]]; rewrite Em in Hv.
      * eapply Rle_trans; [exact Hv|]. apply Rmax_r.
      * eapply Rle_trans; [exact Hv|]. apply Rmax_l.
    + intros HN1 Hlt. rewrite E. rewrite length_map. unfold Z_range.
      rewrite length_map, length_seq.
      rewrite Hrows, <- minus_IZR, <- mult_IZR in Hlt. apply lt_IZR in Hlt.
      assert (0 <= visible_rows h s)%Z by (unfold visible_rows; lia).
      nia.
  - vm_compute. repeat split; reflexivity.
Qed.

Lemma grid_last_row_cut_witness :
  (Z.of_nat (List.length
     (drawGroup 500 600%R (IZR 18) 20 20%R (IZR 468) (IZR 0))) < 468)%Z.
Proof.
  refine (proj2 (proj2 (proj1 grid_last_row_cut 600 20 20%Z 18%Z 468%Z 500%nat
                          _ _ _)) _ _); try lia.
  cbn. unfold groupH_of. cbn.
  replace ((600 - 80) / 20) with (IZR 26) by lra.
  fold (floor (IZR 26)). rewrite floor_IZR. lra.
Defined.
End GridDots.

Section GridArea.
Import Exact ExactFacts ExactTables ExactGrid ExactFloor.
Open Scope R_scope.

Lemma cols_field (w h : R) (data : Visual.t R) :
  let L := drawPopulationGrid w h data in
  cols L = floor (groupW_of w / IZR (bestCellSize L)).
Proof.
  cbv zeta. unfold drawPopulationGrid.
  destruct (findBestCellSize _ _ _ _ =? 0)%Z; reflexivity.
Qed.

Lemma dotRadius_exact (s : Z) :
  (3 <= s <= 20)%Z ->
  dotRadius s = IZR s * (35 / 100) :> R.
Proof.
  intros Hs. unfold dotRadius. rewrite Math_max_exact. cbn.
  assert (3 <= IZR s) by (apply IZR_le; lia).
  apply Rmax_right. lra.
Qed.

(** A dot of a group that starts at [xStart], with its radius, stays
    between [xStart] and [xStart + groupW], below y = 70 and above
    y = h - 30. *)
Lemma drawGroup_inside (w h xStart T : R) (s : Z) (d : R * R) (fuel : nat) :
  120 <= w -> (3 <= s <= 20)%Z ->
  In d (drawGroup fuel h (floor (groupW_of w / IZR s)) s xStart T (IZR 0)) ->
  xStart < fst d - dotRadius s
  /\ fst d + dotRadius s < xStart + groupW_of w
  /\ 70 < snd d - dotRadius s
  /\ snd d + dotRadius s < h - 30.
Proof.
  intros Hw Hs Hin. rewrite dotRadius_exact by exact Hs.
  assert (HsR : 3 <= IZR s <= 20) by (split; apply IZR_le; lia).
  assert (HgW : 20 <= groupW_of w) by (unfold groupW_of; cbn; lra).
  set (gW := groupW_of w) in *. clearbody gW.
  destruct (floor_bounds (gW / IZR s)) as [F1 F2]. unfold floor in *.
  set (k := Int_part (gW / IZR s)) in *.
  assert (Eq : gW / IZR s * IZR s = gW) by (field; lra).
  assert (Hk : (1 <= k)%Z).
  { assert (1 <= gW / IZR s).
    { apply (Rmult_le_reg_r (IZR s)); [lra|]. rewrite Eq. lra. }
    assert (IZR 1 < IZR k + 1) by lra. rewrite <- plus_IZR in H0.
    apply lt_IZR in H0. lia. }
  assert (HkW : IZR k * IZR s <= gW) by nra.
  destruct (drawGroup_in_cell h xStart T s k d fuel Hk 0%Z ltac:(lia) Hin)
    as (i & Hi & _ & Hd & Hy).
  subst d. unfold grid_cell in *. cbn [fst snd] in *.
  pose proof (Z.mod_pos_bound i k ltac:(lia)) as [M1 M2].
  assert (M1R : 0 <= IZR (i mod k)) by (apply IZR_le; exact M1).
  assert (M2R : IZR (i mod k) <= IZR k - 1).
  { rewrite <- minus_IZR. apply IZR_le. lia. }
  assert (D1R : 0 <= IZR (i / k)) by (apply IZR_le, Z.div_pos; lia).
  repeat split; nra.
Qed.

(** X12.  In exact arithmetic, on a canvas at least 120 pixels wide, every
    dot that [drawPopulationGrid] draws lies, with its radius, inside the
    area of its group: those of the first group between x = 20 and
    x = w/2 - 20, those of the second between x = w/2 + 20 and x = w - 20,
    all of them below the header (y = 70) and above y = h - 30; the radius
    is 0.35 of the cell size, at most 7.  So the two groups never touch,
    whatever the counts, the scale or the height. *)
Theorem grid_dots_inside (w h : R) (data : Visual.t R) (fuel : nat) :
  120 <= w ->
  let D := drawPopulationGrid_dots fuel w h data in
  1 < radius D <= 7
  /\ (forall d, In d (dots1 D) ->
        20 < fst d - radius D /\ fst d + radius D < w / 2 - 20
        /\ 70 < snd d - radius D /\ snd d + radius D < h - 30)
  /\ (forall d, In d (dots2 D) ->
        w / 2 + 20 < fst d - radius D /\ fst d + radius D < w - 20
        /\ 70 < snd d - radius D /\ snd d + radius D < h - 30).
Proof.
  intros Hw D. subst D. unfold drawPopulationGrid_dots. cbn [radius dots1 dots2].
  pose proof (bestCellSize_range w h data) as Hs.
  pose proof (cols_field w h data) as Hc. cbv zeta in Hc. rewrite Hc.
  set (L := drawPopulationGrid w h data) in *.
  set (s := bestCellSize L) in *.
  assert (HsR : 3 <= IZR s <= 20) by (split; apply IZR_le; lia).
  assert (EgW : groupW_of w = w / 2 - 40) by (unfold groupW_of; cbn; lra).
  split.
  { rewrite dotRadius_exact by exact Hs. lra. }
  split; intros d Hin.
  - apply (drawGroup_inside w h _ _ s d fuel Hw Hs) in Hin.
    destruct Hin as (H1 & H2 & H3 & H4).
    set (r := dotRadius s) in *. clearbody r.
    try rewrite EgW in H1. try rewrite EgW in H2. cbn in H1, H2.
    repeat split; try assumption; lra.
  - apply (drawGroup_inside w h _ _ s d fuel Hw Hs) in Hin.
    destruct Hin as (H1 & H2 & H3 & H4).
    set (r := dotRadius s) in *. clearbody r.
    try rewrite EgW in H1. try rewrite EgW in H2. cbn in H1, H2.
    repeat split; try assumption; lra.
Qed.

Lemma grid_dots_inside_witness :
  120 <= 800
  /\ 1 < radius (drawPopulationGrid_dots 10 800 600
                   (groups_sample (IZR 5) (IZR 7))) <= 7.
Proof.
  assert (H : 120 <= 800) by lra.
  split; [exact H|].
  exact (proj1 (grid_dots_inside 800 600 (groups_sample (IZR 5) (IZR 7)) 10 H)).
Defined.
End GridArea.

(** ** The prevalence calculator in exact arithmetic *)

Module ExactPrevalence.
Import Exact ExactFacts ExactCounts PrevalenceSteps.
Open Scope R_scope.

Lemma calc_exact (p d : R) (N : Z) (f b : bool) :
  (1 <= N)%Z ->
  sample_size (Prevalence.calc (prevalence_state p d f b (IZR N)))
  = Some (ceil (inflated b (corrected f N (raw p d)))).
Proof.
  intros HN. unfold sample_size, Prevalence.calc, prevalence_state. cbn.
  assert (E : less 0 (IZR N) = true) by (apply less_iff, IZR_lt; lia).
  rewrite E, trunc_IZR. destruct f, b; reflexivity.
Qed.

Lemma raw_expand (p d : R) : d <> 0 -> raw p d = 4 * p * (100 - p) / (d * d).
Proof. intros Hd. unfold raw. field. exact Hd. Qed.

Lemma square_positive (d : R) : d <> 0 -> 0 < d * d.
Proof. intros Hd. nra. Qed.

Lemma raw_nonneg (p d : R) : 0 <= p <= 100 -> d <> 0 -> 0 <= raw p d.
Proof.
  intros Hp Hd. rewrite raw_expand by exact Hd.
  pose proof (square_positive d Hd).
  apply Rmult_le_pos; [nra | apply Rlt_le, Rinv_0_lt_compat; assumption].
Qed.

Lemma raw_peak (p d : R) : d <> 0 -> raw p d <= raw 50 d.
Proof.
  intros Hd. rewrite !raw_expand by exact Hd.
  pose proof (square_positive d Hd) as Hdd.
  apply Rmult_le_compat_r; [apply Rlt_le, Rinv_0_lt_compat, Hdd|].
  pose proof (Rle_0_sqr (p - 50)) as Hsq. unfold Rsqr in Hsq. lra.
Qed.

Lemma raw_complement (p d : R) : raw (100 - p) d = raw p d.
Proof. unfold raw. f_equal. lra. Qed.

Lemma raw_precision (p d d' : R) :
  0 <= p <= 100 -> 0 < d <= d' -> raw p d' <= raw p d.
Proof.
  intros Hp [Hd Hdd']. rewrite !raw_expand by lra.
  assert (0 < d * d) by nra. assert (d * d <= d' * d') by nra.
  apply Rmult_le_compat_l; [nra|].
  apply Rinv_le_contravar; assumption.
Qed.

Lemma corrected_monotone (f : bool) (N : Z) (x y : R) :
  (1 <= N)%Z -> 0 <= x <= y -> corrected f N x <= corrected f N y.
Proof.
  intros HN [Hx Hy]. destruct f; [|exact Hy]. unfold corrected.
  assert (HNR : 1 <= IZR N) by (apply IZR_le; exact HN).
  replace (x / (1 + x / IZR N)) with (x * IZR N / (IZR N + x)) by (field; lra).
  replace (y / (1 + y / IZR N)) with (y * IZR N / (IZR N + y)) by (field; lra).
  apply (Rmult_le_reg_r ((IZR N + x) * (IZR N + y))); [nra|].
  replace (x * IZR N / (IZR N + x) * ((IZR N + x) * (IZR N + y)))
    with (x * IZR N * (IZR N + y)) by (field; lra).
  replace (y * IZR N / (IZR N + y) * ((IZR N + x) * (IZR N + y)))
    with (y * IZR N * (IZR N + x)) by (field; lra).
  nra.
Qed.

Lemma corrected_bounds (N : Z) (x : R) :
  (1 <= N)%Z -> 0 <= x ->
  0 <= corrected true N x /\ corrected true N x <= x
  /\ corrected true N x <= IZR N.
Proof.
  intros HN Hx. unfold corrected.
  assert (HNR : 1 <= IZR N) by (apply IZR_le; exact HN).
  replace (x / (1 + x / IZR N)) with (x * IZR N / (IZR N + x)) by (field; lra).
  set (q := x * IZR N / (IZR N + x)).
  assert (E : q * (IZR N + x) = x * IZR N) by (unfold q; field; lra).
  assert (Hpos : 0 < IZR N + x) by lra.
  assert (HxN : 0 <= x * IZR N) by (apply Rmult_le_pos; lra).
  split; [|split].
  - apply (Rmult_le_reg_r (IZR N + x)); [exact Hpos|]. rewrite E. lra.
  - apply (Rmult_le_reg_r (IZR N + x)); [exact Hpos|]. rewrite E. nra.
  - apply (Rmult_le_reg_r (IZR N + x)); [exact Hpos|]. rewrite E. nra.
Qed.

Lemma corrected_nonneg (f : bool) (N : Z) (x : R) :
  (1 <= N)%Z -> 0 <= x -> 0 <= corrected f N x.
Proof.
  intros HN Hx. destruct f; [apply corrected_bounds; assumption | exact Hx].
Qed.

Lemma inflated_monotone (b : bool) (x y : R) :
  x <= y -> inflated b x <= inflated b y.
Proof. intros H. destruct b; unfold inflated; lra. Qed.

Lemma ceil_nonneg (x : R) : 0 <= x -> 0 <= ceil x.
Proof. intros H. destruct (ceil_bounds x). lra. Qed.
End ExactPrevalence.

Section PrevalenceInvariants.
Import Exact ExactFacts ExactCounts PrevalenceSteps ExactPrevalence.
Open Scope R_scope.

(** X13.  In exact arithmetic, for a prevalence from 0 to 100, a precision
    above 0 and a population of at least 1, with any choice of the two
    options: the prevalence calculator returns a number that is not
    negative, is largest at a prevalence of 50, is the same for P and
    100 - P, and does not grow when the precision is widened. *)
Theorem prevalence_worst_case (p d d' : R) (N : Z) (f b : bool) :
  0 <= p <= 100 -> 0 < d <= d' -> (1 <= N)%Z ->
  exists x x50 xc x' : R,
    sample_size (Prevalence.calc (prevalence_state p d f b (IZR N))) = Some x
    /\ sample_size (Prevalence.calc (prevalence_state 50 d f b (IZR N))) = Some x50
    /\ sample_size (Prevalence.calc (prevalence_state (100 - p) d f b (IZR N)))
       = Some xc
    /\ sample_size (Prevalence.calc (prevalence_state p d' f b (IZR N))) = Some x'
    /\ 0 <= x <= x50 /\ xc = x /\ x' <= x.
Proof.
  intros Hp Hd HN. rewrite !calc_exact by exact HN.
  do 4 eexists. do 4 (split; [reflexivity|]).
  assert (Hd0 : d <> 0) by lra.
  pose proof (raw_nonneg p d Hp Hd0) as H0.
  pose proof (raw_peak p d Hd0) as H50.
  split; [split|split].
  - apply ceil_nonneg.
    destruct b; unfold inflated;
      pose proof (corrected_nonneg f N (raw p d) HN H0); lra.
  - apply ceil_monotone, inflated_monotone, corrected_monotone;
      [exact HN | split; assumption].
  - rewrite raw_complement. reflexivity.
  - apply ceil_monotone, inflated_monotone, corrected_monotone; [exact HN|].
    split; [apply raw_nonneg; [exact Hp | lra] | apply raw_precision; assumption].
Qed.

Lemma prevalence_worst_case_witness :
  exists x x50 : R,
    sample_size (Prevalence.calc (prevalence_state 20 5 true true (IZR 1000)))
    = Some x
    /\ sample_size (Prevalence.calc (prevalence_state 50 5 true true (IZR 1000)))
       = Some x50
    /\ x <= x50.
Proof.
  destruct (prevalence_worst_case 20 5 5 1000%Z true true
              ltac:(lra) ltac:(lra) ltac:(lia))
    as (x & x50 & xc & x' & H1 & H2 & _ & _ & [_ H] & _).
  exists x, x50. split; [exact H1|]. split; [exact H2|exact H].
Defined.

(** X14.  In exact arithmetic, with the finite-population correction on
    and a population of N >= 1, the result never exceeds the result without
    the correction; without dropout it never exceeds the population, with
    dropout it is at most ceil(N / 0.9), and this can be above the
    population: for a population of 10, P = 50 and D = 5 the calculator
    asks for 11 participants (in binary64 too). *)
Theorem prevalence_population_bound :
  (forall (p d : R) (N : Z) (b : bool),
      0 <= p <= 100 -> d <> 0 -> (1 <= N)%Z ->
      exists x y : R,
        sample_size (Prevalence.calc (prevalence_state p d true b (IZR N)))
        = Some x
        /\ sample_size (Prevalence.calc (prevalence_state p d false b (IZR N)))
           = Some y
        /\ x <= y
        /\ (b = false -> x <= IZR N)
        /\ x <= Math_ceil (IZR N / (9 / 10)))
  /\ sample_size (Prevalence.calc
                    (prevalence_state (IZR 50) (IZR 5) true true (IZR 10)))
     = Some (IZR 11)
  /\ sample_size (Prevalence.calc
                    (prevalence_state ($50 : float)%js ($5)%js true true ($10)%js))
     = Some ($11 : float)%js.
Proof.
  split; [|split].
  - intros p d N b Hp Hd HN. rewrite !calc_exact by exact HN.
    do 2 eexists. do 2 (split; [reflexivity|]).
    pose proof (raw_nonneg p d Hp Hd) as H0.
    destruct (corrected_bounds N (raw p d) HN H0) as (C0 & C1 & C2).
    split; [|split].
    + apply ceil_monotone, inflated_monotone. exact C1.
    + intros ->. unfold inflated. apply ceil_le_IZR. exact C2.
    + assert (HNR : 1 <= IZR N) by (apply IZR_le; exact HN).
      apply (ceil_monotone _ (IZR N / (9 / 10))).
      destruct b; unfold inflated; lra.
  - rewrite calc_exact by lia. f_equal. apply ceil_unique.
    unfold inflated, corrected, raw. lra.
  - vm_compute. reflexivity.
Qed.

Lemma prevalence_population_bound_witness :
  exists x : R,
    sample_size (Prevalence.calc (prevalence_state 50 5 true false (IZR 10)))
    = Some x
    /\ x <= IZR 10.
Proof.
  destruct (proj1 prevalence_population_bound 50 5 10%Z false
              ltac:(lra) ltac:(lra) ltac:(lia))
    as (x & y & H1 & _ & _ & H & _).
  exists x. split; [exact H1 | exact (H eq_refl)].
Defined.
End PrevalenceInvariants.

(** ** The headline and the grid *)

Section Headline.
Context {num : Type} {JN : JSNumber num}.
Open Scope js_scope.

Lemma headline_case_control (st : CaseControl.State num) :
  headline_checked (CaseControl.calc st).
Proof.
  unfold headline_checked, CaseControl.calc.
  destruct (Math_abs _ <? _).
  { cbn. repeat split. right. split; reflexivity. }
  destruct (_ >? _).
  { cbn. repeat split. left. split; reflexivity. }
  cbn. repeat split. eexists. repeat split.
Qed.

Lemma headline_cohort (st : Cohort.State num) :
  headline_checked (Cohort.calc st).
Proof.
  unfold headline_checked, Cohort.calc.
  destruct (Math_abs _ <? _).
  { cbn. repeat split. left. split; reflexivity. }
  cbn. repeat split. eexists. repeat split.
Qed.

Lemma headline_rct (st : RCT.State num) :
  headline_checked (RCT.calc st).
Proof.
  unfold headline_checked, RCT.calc.
  destruct (Math_abs _ <? _).
  { cbn. repeat split. left. split; reflexivity. }
  cbn. repeat split. eexists. repeat split.
Qed.
End Headline.

Section HeadlineClaims.
Open Scope js_scope.

(** X15.  What [calculate] shows of the result of a comparative calculator
    (case-control, cohort, RCT), for every state and in every number
    instance: when the calculator returns a table, the headline is the
    Kelsey total under the caption 'Kelsey Estimate', while the field [n]
    and the two groups handed to the grid are the Fleiss total and the
    Fleiss counts; otherwise there is no table and no grid, and the headline
    is [n], the word 'Error' at the smaller font size or the number 0 of the
    case-control calculator.  So the headline and the grid can disagree:
    in binary64, a cohort study of 50% against 10% at ratio 3 is headed 44
    and drawn as 36 and 12, the Fleiss total of 48. *)
Theorem headline_is_kelsey_total :
  (forall (num : Type) (JN : JSNumber num),
      (forall st : CaseControl.State num, headline_checked (CaseControl.calc st))
      /\ (forall st : Cohort.State num, headline_checked (Cohort.calc st))
      /\ (forall st : RCT.State num, headline_checked (RCT.calc st)))
  /\ (let res := Cohort.calc (cohort_sample : Cohort.State float) in
      mainValue (calculate res) = NNumber $44
      /\ n res = NNumber $48
      /\ visualData res
         = Some {| Visual.n1 := $36; Visual.n2 := $12;
                   Visual.label1 := "Unexposed"; Visual.label2 := "Exposed" |}).
Proof.
  split.
  - intros num JN. split; [|split].
    + exact headline_case_control.
    + exact headline_cohort.
    + exact headline_rct.
  - vm_compute. repeat split; reflexivity.
Qed.
End HeadlineClaims.

Module ExactOrder.
Import Exact ExactFacts ExactProportions.
Open Scope R_scope.

(** With groups of equal size the variance under the second root of the
    Fleiss formula is at most the pooled one. *)
Lemma groupVariance_below_pooled (p1 p2 : R) :
  Spec.groupVariance p1 p2 1 <= Spec.pooledVariance p1 p2 1.
Proof.
  unfold Spec.groupVariance, Spec.pooledVariance, Spec.pAvgQAvg, Spec.pAvg. cbn.
  replace ((p1 + 1 * p2) / (1 + 1)) with ((p1 + p2) / 2) by lra.
  pose proof (Rle_0_sqr (p1 - p2)) as H. unfold Rsqr in H. nra.
Qed.

Lemma fleiss_below_kelsey (za zb p1 p2 : R) :
  0 < za -> 0 < zb -> 0 < p2 < 1 -> 0 < p1 < 1 -> p1 <> p2 ->
  Spec.fleiss za zb p1 p2 1 <= Spec.kelsey za zb p1 p2 1.
Proof.
  intros Ha Hb H2 H1 Hne.
  pose proof (groupVariance_below_pooled p1 p2) as HG.
  pose proof (groupVariance_positive p1 p2 1 H1 H2 ltac:(lra)) as HG0.
  unfold Spec.fleiss, Spec.kelsey, Spec.term1, Spec.term2, Spec.sq,
    Spec.groupVariance, Spec.pooledVariance, Spec.pAvgQAvg, Spec.pAvg in *.
  cbn in *.
  set (Q := (p1 + 1 * p2) / (1 + 1) * (1 - (p1 + 1 * p2) / (1 + 1))) in *.
  set (A := (1 + 1) * Q) in *.
  set (G := 1 * (p1 * (1 - p1)) + p2 * (1 - p2)) in *.
  assert (EA : Q * (1 + 1) = A) by (unfold A; ring).
  assert (HA : 0 <= A) by lra.
  pose proof (sqrt_sqrt A HA) as Ea.
  pose proof (sqrt_pos A) as Ha0. pose proof (sqrt_pos G) as Hg0.
  assert (Hga : R_sqrt.sqrt G <= R_sqrt.sqrt A) by (apply sqrt_le_1_alt; exact HG).
  set (a := R_sqrt.sqrt A) in *. set (g := R_sqrt.sqrt G) in *.
  assert (HD : 0 < 1 * ((p1 - p2) * (p1 - p2))).
  { assert (0 < (p1 - p2) * (p1 - p2)) by nra. lra. }
  apply Rmult_le_compat_r; [apply Rlt_le, Rinv_0_lt_compat, HD|].
  rewrite Rmult_assoc, EA, <- Ea.
  assert (Hs : za * a + zb * g <= (za + zb) * a) by nra.
  assert (H0 : 0 <= za * a + zb * g) by nra.
  replace ((za + zb) * (za + zb) * (a * a)) with (((za + zb) * a) * ((za + zb) * a))
    by ring.
  nra.
Qed.
End ExactOrder.

Section OrderClaims.
Import Exact ExactFacts ExactQuantiles ExactProportions ExactCounts ExactOrder.
Open Scope R_scope.

(** X16.  In exact arithmetic, for two groups of equal size (ratio 1) and
    proportions strictly between 0 and 1 that differ, the Kelsey counts are
    never below the Fleiss counts, with or without dropout: the headline
    is then at least the number of participants the grid draws.  For other
    ratios the order can be the opposite: in binary64 at ratio 3, with
    proportions 0.5 and 0.1, Kelsey gives 11 and 44 in total, Fleiss 12 and
    48. *)
Theorem kelsey_above_fleiss_equal_groups :
  (forall (p1 p2 alpha beta : R) (dropout : bool),
      0 < p1 < 1 -> 0 < p2 < 1 -> p1 <> p2 ->
      let t := calculateAdvanced p1 p2 1 alpha beta dropout in
      Estimate.n1 (fleiss t) <= Estimate.n1 (kelsey t)
      /\ Estimate.n2 (fleiss t) <= Estimate.n2 (kelsey t)
      /\ Estimate.total (fleiss t) <= Estimate.total (kelsey t))
  /\ (let t := calculateAdvanced ($0.5 : float)%js ($0.1)%js ($3)%js
                 ($0.05)%js ($0.2)%js false in
      Estimate.n1 (kelsey t) = ($11)%js /\ Estimate.total (kelsey t) = ($44)%js
      /\ Estimate.n1 (fleiss t) = ($12)%js
      /\ Estimate.total (fleiss t) = ($48)%js).
Proof.
  split.
  - intros p1 p2 alpha beta dropout H1 H2 Hne t. subst t.
    rewrite calculateAdvanced_formulas by (apply less_iff; cbn; lra).
    cbv zeta. cbn [kelsey fleiss fleiss_cc].
    set (za := getZAlpha _). set (zb := getZBeta _).
    assert (Ha : 0 < za) by apply getZAlpha_positive.
    assert (Hb : 0 < zb) by apply getZBeta_positive.
    pose proof (fleiss_below_kelsey za zb p1 p2 Ha Hb H2 H1 Hne) as Hc.
    apply groups_monotone; [lra|].
    apply withDropout_monotone. apply ceil_monotone. exact Hc.
  - vm_compute. repeat split; reflexivity.
Qed.

Lemma kelsey_above_fleiss_equal_groups_witness :
  (0 < 4 / 10 < 1 /\ 0 < 5 / 10 < 1 /\ 4 / 10 <> 5 / 10)
  /\ Estimate.total (fleiss (calculateAdvanced (4 / 10) (5 / 10) 1 (5 / 100) (2 / 10) false))
     <= Estimate.total
          (kelsey (calculateAdvanced (4 / 10) (5 / 10) 1 (5 / 100) (2 / 10) false)).
Proof.
  assert (H1 : 0 < 4 / 10 < 1) by lra.
  assert (H2 : 0 < 5 / 10 < 1) by lra.
  assert (H3 : 4 / 10 <> 5 / 10) by lra.
  split; [exact (conj H1 (conj H2 H3))|].
  exact (proj2 (proj2 (proj1 kelsey_above_fleiss_equal_groups
    (4 / 10) (5 / 10) (5 / 100) (2 / 10) false H1 H2 H3))).
Defined.
End OrderClaims.

(** ** The two-means calculator in exact arithmetic *)

Module ExactTwoMeans.
Import Exact ExactFacts ExactQuantiles ExactCounts.
Open Scope R_scope.

(** The result for means that differ: the counts of [Spec.groups] on the
    unrounded size. *)
Lemma calc_groups (m1 s1 m2 s2 r p c : R) (d : bool) :
  m1 <> m2 ->
  let r' := js_or r 1 in
  let za := getZAlpha (js_or (trunc c) 95) in
  let zb := getZBeta (trunc p) in
  let raw := (za + zb) * (za + zb) * (s1 * s1 + s2 * s2 / r')
             / ((m1 - m2) * (m1 - m2)) in
  let e := Spec.groups (Spec.withDropout (ceil raw) d) r' in
  let res := TwoMeans.calc (two_means_state m1 s1 m2 s2 r p c d) in
  n res = NNumber (Estimate.total e)
  /\ visualData res = Some (groups_sample (Estimate.n1 e) (Estimate.n2 e)).
Proof.
  intros Hne r' za zb raw e res. subst res e raw zb za r'.
  unfold TwoMeans.calc, two_means_state.
  cbn [TwoMeans.mean1 TwoMeans.mean2 TwoMeans.sd1 TwoMeans.sd2 TwoMeans.ratio
       TwoMeans.power TwoMeans.confidence TwoMeans.dropout].
  rewrite !parseFloat_exact.
  change (eqb m1 m2) with (same m1 m2).
  assert (E : same m1 m2 = false) by (apply same_false_iff; exact Hne).
  rewrite E. destruct d; split; reflexivity.
Qed.

Lemma calc_equal (m s1 s2 r p c : R) (d : bool) :
  TwoMeans.calc (two_means_state m s1 m s2 r p c d) = TwoMeans.equalMeans.
Proof.
  unfold TwoMeans.calc, two_means_state.
  cbn [TwoMeans.mean1 TwoMeans.mean2 TwoMeans.sd1 TwoMeans.sd2 TwoMeans.ratio
       TwoMeans.power TwoMeans.confidence TwoMeans.dropout].
  rewrite !parseFloat_exact.
  change (eqb m m) with (same m m).
  assert (E : same m m = true) by (apply same_iff; reflexivity).
  rewrite E. reflexivity.
Qed.

Lemma ratio_kept (r : R) : 0 < r -> js_or r 1 = r.
Proof. intros Hr. apply js_or_exact. lra. Qed.

Lemma ratio_nonzero (r : R) : js_or r 1 <> 0.
Proof.
  unfold js_or, truthy. cbn. unfold same.
  destruct (Req_dec_T r 0) as [E|E]; cbn; lra.
Qed.
End ExactTwoMeans.

Section TwoMeansClaims.
Import Exact ExactFacts ExactQuantiles ExactCounts ExactTwoMeans.
Open Scope R_scope.

(** X17.  In exact arithmetic, with a ratio above 0, the two-means
    calculator rejects exactly the states whose means are equal; for means
    that differ and a standard deviation that is not zero, both groups are
    positive integers and [n] is their sum, with or without dropout; for
    means that differ and both standard deviations zero it returns the
    sample size 0 with two empty groups instead of an error. *)
Theorem two_means_counts (m1 s1 m2 s2 r p c : R) (d : bool) :
  0 < r ->
  let res := TwoMeans.calc (two_means_state m1 s1 m2 s2 r p c d) in
  (m1 = m2 <-> n res = NString "Error")
  /\ (m1 <> m2 -> s1 <> 0 \/ s2 <> 0 ->
      exists k1 k2 : Z,
        (1 <= k1)%Z /\ (1 <= k2)%Z
        /\ n res = NNumber (IZR (k1 + k2))
        /\ visualData res = Some (groups_sample (IZR k1) (IZR k2)))
  /\ (m1 <> m2 -> s1 = 0 -> s2 = 0 ->
      n res = NNumber 0 /\ visualData res = Some (groups_sample 0 0)).
Proof.
  intros Hr res. subst res. split; [|split].
  - split.
    + intros ->. rewrite calc_equal. reflexivity.
    + intros H. destruct (Req_dec_T m1 m2) as [E|E]; [exact E|].
      destruct (calc_groups m1 s1 m2 s2 r p c d E) as [Hn _].
      cbv zeta in Hn. rewrite Hn in H. discriminate.
  - intros Hne Hs.
    destruct (calc_groups m1 s1 m2 s2 r p c d Hne) as [Hn Hv].
    cbv zeta in Hn, Hv. rewrite Hn, Hv. rewrite !ratio_kept by exact Hr.
    set (za := getZAlpha _). set (zb := getZBeta _).
    assert (Ha : 0 < za) by apply getZAlpha_positive.
    assert (Hb : 0 < zb) by apply getZBeta_positive.
    set (raw := (za + zb) * (za + zb) * (s1 * s1 + s2 * s2 / r)
                / ((m1 - m2) * (m1 - m2))).
    assert (Hraw : 0 < raw).
    { unfold raw. apply Rdiv_lt_0_compat; [|nra].
      apply Rmult_lt_0_compat; [nra|].
      assert (0 <= s1 * s1) by nra. assert (0 <= s2 * s2) by nra.
      assert (0 < / r) by (apply Rinv_0_lt_compat; exact Hr).
      destruct Hs as [Hs|Hs].
      - assert (0 < s1 * s1) by nra.
        assert (0 <= s2 * s2 / r) by (apply Rmult_le_pos; lra). lra.
      - assert (0 < s2 * s2) by nra.
        assert (0 < s2 * s2 / r) by (apply Rmult_lt_0_compat; lra). lra. }
    destruct (groups_positive raw r d Hraw Hr) as (k1 & k2 & H1 & H2 & E1 & E2 & E3).
    exists k1, k2. cbv zeta in E1, E2, E3.
    change (Math_ceil raw) with (ceil raw) in E1, E2, E3.
    rewrite E1, E2, E3. repeat split; assumption.
  - intros Hne -> ->.
    destruct (calc_groups m1 0 m2 0 r p c d Hne) as [Hn Hv].
    cbv zeta in Hn, Hv. rewrite Hn, Hv. rewrite !ratio_kept by exact Hr.
    set (za := getZAlpha _). set (zb := getZBeta _).
    replace ((za + zb) * (za + zb) * (0 * 0 + 0 * 0 / r) / ((m1 - m2) * (m1 - m2)))
      with (IZR 0) by (unfold Rdiv; ring).
    rewrite ceil_IZR.
    assert (E0 : Spec.withDropout (IZR 0) d = 0).
    { unfold Spec.withDropout. destruct d; [|reflexivity]. cbn.
      replace (0 / (9 / 10)) with (IZR 0) by lra. apply ceil_IZR. }
    rewrite E0. unfold Spec.groups. cbn.
    replace (0 * r) with (IZR 0) by lra. rewrite ceil_IZR.
    split; [f_equal; lra | reflexivity].
Qed.

Lemma two_means_counts_witness :
  0 < 1
  /\ exists k1 k2 : Z,
      (1 <= k1)%Z /\ (1 <= k2)%Z
      /\ n (TwoMeans.calc (two_means_state 132 15 127 18 1 80 95 false))
         = NNumber (IZR (k1 + k2)).
Proof.
  assert (Hr : 0 < 1) by lra.
  split; [exact Hr|].
  destruct (proj1 (proj2 (two_means_counts 132 15 127 18 1 80 95 false Hr))
              ltac:(lra) ltac:(left; lra))
    as (k1 & k2 & H1 & H2 & Hn & _).
  exists k1, k2. split; [exact H1|]. split; [exact H2|exact Hn].
Defined.

(** X18.  In exact arithmetic, the sample size and the two groups of the
    two-means calculator depend on the means through their difference and
    on the standard deviations through their squares: the result is the
    same when both means are shifted by the same amount, when the two
    means are exchanged, when the signs of the standard deviations are
    changed, and when means and standard deviations are all multiplied by
    the same non-zero factor (a change of unit). *)
Theorem two_means_invariant (m1 s1 m2 s2 r p c shift k : R) (d : bool) :
  k <> 0 ->
  let size (st : TwoMeans.State R) :=
    (n (TwoMeans.calc st), visualData (TwoMeans.calc st)) in
  let reference := size (two_means_state m1 s1 m2 s2 r p c d) in
  size (two_means_state (m1 + shift) s1 (m2 + shift) s2 r p c d) = reference
  /\ size (two_means_state m2 s1 m1 s2 r p c d) = reference
  /\ size (two_means_state m1 (- s1) m2 (- s2) r p c d) = reference
  /\ size (two_means_state (k * m1) (k * s1) (k * m2) (k * s2) r p c d)
     = reference.
Proof.
  intros Hk size reference. subst reference size. cbv beta.
  destruct (Req_dec_T m1 m2) as [E|E].
  - subst m2. rewrite !calc_equal. repeat split.
  - pose proof (ratio_nonzero r) as Hr.
    assert (Hd : m1 - m2 <> 0) by lra.
    destruct (calc_groups m1 s1 m2 s2 r p c d E) as [Hn Hv].
    cbv zeta in Hn, Hv. rewrite Hn, Hv.
    split; [|split; [|split]].
    + destruct (calc_groups (m1 + shift) s1 (m2 + shift) s2 r p c d ltac:(lra))
        as [Hn' Hv'].
      cbv zeta in Hn', Hv'. rewrite Hn', Hv'.
      replace (m1 + shift - (m2 + shift)) with (m1 - m2) by ring. reflexivity.
    + destruct (calc_groups m2 s1 m1 s2 r p c d ltac:(lra)) as [Hn' Hv'].
      cbv zeta in Hn', Hv'. rewrite Hn', Hv'.
      replace ((m2 - m1) * (m2 - m1)) with ((m1 - m2) * (m1 - m2)) by ring.
      reflexivity.
    + destruct (calc_groups m1 (- s1) m2 (- s2) r p c d E) as [Hn' Hv'].
      cbv zeta in Hn', Hv'. rewrite Hn', Hv'.
      replace (- s1 * - s1) with (s1 * s1) by ring.
      replace (- s2 * - s2) with (s2 * s2) by ring. reflexivity.
    + assert (Ek : k * m1 <> k * m2).
      { intros H. apply Rmult_eq_reg_l in H; [contradiction | exact Hk]. }
      assert (Hkd : k * m1 - k * m2 <> 0) by (intros H; apply Ek; lra).
      destruct (calc_groups (k * m1) (k * s1) (k * m2) (k * s2) r p c d Ek)
        as [Hn' Hv'].
      cbv zeta in Hn', Hv'. rewrite Hn', Hv'.
      set (za := getZAlpha _). set (zb := getZBeta _). set (r' := js_or r 1) in *.
      replace ((za + zb) * (za + zb) * (k * s1 * (k * s1) + k * s2 * (k * s2) / r')
               / ((k * m1 - k * m2) * (k * m1 - k * m2)))
        with ((za + zb) * (za + zb) * (s1 * s1 + s2 * s2 / r')
              / ((m1 - m2) * (m1 - m2)))
        by (field; repeat split; assumption).
      reflexivity.
Qed.

Lemma two_means_invariant_witness :
  (n (TwoMeans.calc (two_means_state (2 * 132) (2 * 15) (2 * 127) (2 * 18)
                       1 80 95 false)),
   visualData (TwoMeans.calc (two_means_state (2 * 132) (2 * 15) (2 * 127)
                                (2 * 18) 1 80 95 false)))
  = (n (TwoMeans.calc (two_means_state 132 15 127 18 1 80 95 false)),
     visualData (TwoMeans.calc (two_means_state 132 15 127 18 1 80 95 false))).
Proof.
  exact (proj2 (proj2 (proj2 (two_means_invariant 132 15 127 18 1 80 95 0 2 false
                                ltac:(lra))))).
Defined.
End TwoMeansClaims.

(** ** The prevalence curve *)

Module ExactCurve.
Import Exact ExactFacts ExactGrid PrevalenceSteps ExactPrevalence.
Open Scope R_scope.

Lemma Math_min_exact (a b : R) : Math_min a b = Rmin a b.
Proof.
  unfold Math_min. cbn. unfold less, Rmin.
  destruct (Rlt_dec b a), (Rle_dec a b); try reflexivity; lra.
Qed.

Lemma curve_clamp_exact (h y : R) : curve_clamp h y = Rmax 20 (Rmin (h - 20) y).
Proof. unfold curve_clamp. rewrite Math_max_exact, Math_min_exact. reflexivity. Qed.

Lemma curveFPC_exact (p d v : R) (N : Z) (f b : bool) :
  (1 <= N)%Z ->
  curveFPC (prevalence_state p d f b (IZR N)) v = corrected f N v.
Proof.
  intros HN. unfold curveFPC, prevalence_state, corrected.
  cbn [Prevalence.fpc Prevalence.popSize].
  assert (HNR : IZR N <> 0) by (apply not_0_IZR; lia).
  rewrite truthy_exact by exact HNR. destruct f; reflexivity.
Qed.

Lemma curve_nVal_exact (p d x : R) (N : Z) (f b : bool) :
  d <> 0 -> (1 <= N)%Z ->
  curve_nVal (prevalence_state p d f b (IZR N)) x
  = corrected f N (4 * x * (1 - x) / (d / 100 * (d / 100))).
Proof.
  intros Hd HN. unfold curve_nVal. rewrite curveFPC_exact by exact HN.
  unfold prevalence_state. cbn [Prevalence.precision].
  rewrite js_or_exact by exact Hd. reflexivity.
Qed.

Lemma curve_maxN_exact (p d : R) (N : Z) (f b : bool) :
  d <> 0 -> (1 <= N)%Z ->
  curve_maxN (prevalence_state p d f b (IZR N))
  = corrected f N (1 / (d / 100 * (d / 100))).
Proof.
  intros Hd HN. unfold curve_maxN. rewrite curveFPC_exact by exact HN.
  unfold prevalence_state. cbn [Prevalence.precision].
  rewrite js_or_exact by exact Hd. reflexivity.
Qed.


Lemma corrected_positive (f : bool) (N : Z) (x : R) :
  (1 <= N)%Z -> 0 < x -> 0 < corrected f N x.
Proof.
  intros HN Hx. destruct f; [|exact Hx]. unfold corrected.
  assert (HNR : 1 <= IZR N) by (apply IZR_le; exact HN).
  apply Rdiv_lt_0_compat; [exact Hx|].
  assert (0 < x / IZR N) by (apply Rdiv_lt_0_compat; lra). lra.
Qed.

(** The height of the curve above the base line at [x], as a share of the
    graph height: between 0 and 0.85. *)
Lemma curve_share (p d x h : R) (N : Z) (f b : bool) :
  d <> 0 -> (1 <= N)%Z -> 40 <= h -> 0 <= x <= 1 ->
  let st := prevalence_state p d f b (IZR N) in
  0 <= curve_nVal st x * curve_pixelsPerN st h <= (h - 40) * (85 / 100).
Proof.
  intros Hd HN Hh Hx st. subst st. unfold curve_pixelsPerN.
  rewrite curve_nVal_exact, curve_maxN_exact by assumption. cbn.
  assert (Hdd : 0 < d / 100 * (d / 100)) by nra.
  set (D := d / 100 * (d / 100)) in *.
  assert (Hinv : 0 < / D) by (apply Rinv_0_lt_compat; exact Hdd).
  assert (Hraw : 0 <= 4 * x * (1 - x) / D <= 1 / D).
  { unfold Rdiv. split; [apply Rmult_le_pos; [nra|lra]|].
    apply Rmult_le_compat_r; [lra|].
    pose proof (Rle_0_sqr (2 * x - 1)) as Hsq. unfold Rsqr in Hsq. lra. }
  pose proof (corrected_monotone f N _ _ HN Hraw) as Hmono.
  pose proof (corrected_nonneg f N _ HN (proj1 Hraw)) as Hv0.
  assert (HM : 0 < corrected f N (1 / D)).
  { apply corrected_positive; [exact HN|]. unfold Rdiv. lra. }
  set (v := corrected f N (4 * x * (1 - x) / D)) in *.
  set (M := corrected f N (1 / D)) in *.
  replace (h - 20 * 2) with (h - 40) by lra.
  assert (Hq : 0 <= v / M <= 1).
  { split.
    - apply Rmult_le_pos; [exact Hv0 | apply Rlt_le, Rinv_0_lt_compat, HM].
    - apply (Rmult_le_reg_r M); [exact HM|].
      unfold Rdiv. rewrite Rmult_assoc, Rinv_l by lra. lra. }
  replace (v * ((h - 40) * (85 / 100) / M))
    with ((h - 40) * (85 / 100) * (v / M)) by (field; lra).
  assert (0 <= (h - 40) * (85 / 100)) by lra.
  split; nra.
Qed.
End ExactCurve.

Section CurveClaims.
Import Exact ExactFacts ExactGrid PrevalenceSteps ExactPrevalence ExactCurve.
Open Scope R_scope.



(** X20.  In exact arithmetic, for a precision other than 0, a population
    of at least 1 and a canvas at least 40 pixels high, the curve never
    needs its clamp: at every abscissa from 0 to 1 the ordinate lies
    between the base line y = h - 20 and the line 85% of the graph height
    above it, which it reaches at P = 50%; so every point of the path, and
    the marker of a prevalence from 0 to 100, is drawn at its unclamped
    ordinate. *)
Theorem curve_within_band (p d h : R) (N : Z) (f b : bool) :
  d <> 0 -> (1 <= N)%Z -> 40 <= h ->
  let st := prevalence_state p d f b (IZR N) in
  let top := h - 20 - (h - 40) * (85 / 100) in
  (forall x : R,
      0 <= x <= 1 ->
      let y := curve_yVal st h (curve_nVal st x) in
      top <= y <= h - 20 /\ curve_clamp h y = y)
  /\ curve_yVal st h (curve_nVal st (1 / 2)) = top
  /\ (forall (fuel : nat) (w ix : R) (pt : R * R),
         40 < w -> 0 <= ix ->
         In pt (curve_points fuel st w h ix) ->
         top <= snd pt <= h - 20 /\ 20 <= fst pt <= w - 20)
  /\ (0 < p <= 100 -> forall w : R,
         snd (curve_marker st w h) = curve_yVal st h (curve_currentN st)).
Proof.
  intros Hd HN Hh st top.
  assert (Band : forall x : R, 0 <= x <= 1 ->
            top <= curve_yVal st h (curve_nVal st x) <= h - 20
            /\ curve_clamp h (curve_yVal st h (curve_nVal st x))
               = curve_yVal st h (curve_nVal st x)).
  { intros x Hx.
    pose proof (curve_share p d x h N f b Hd HN Hh Hx) as Hs. cbv zeta in Hs.
    fold st in Hs. unfold curve_yVal. cbn [of_Z number lit Qnum Qden sub mul].
    set (s := curve_nVal st x * curve_pixelsPerN st h) in *.
    assert (Hy : top <= h - 20 - s <= h - 20) by (unfold top; lra).
    split; [exact Hy|].
    rewrite curve_clamp_exact.
    rewrite Rmin_right by lra. apply Rmax_right. unfold top in Hy. lra. }
  split; [exact Band|]. split; [|split].
  - unfold curve_yVal, curve_pixelsPerN. subst st.
    rewrite curve_nVal_exact, curve_maxN_exact by assumption. cbn.
    replace (4 * (1 / 2) * (1 - 1 / 2)) with 1 by lra.
    assert (Hdd : 0 < d / 100 * (d / 100)) by nra.
    assert (HM : 0 < corrected f N (1 / (d / 100 * (d / 100)))).
    { apply corrected_positive; [exact HN|].
      apply Rdiv_lt_0_compat; lra. }
    unfold top. field. lra.
  - intros fuel w ix pt Hw. revert ix.
    induction fuel as [|fuel IH]; intros ix Hix Hin; [destruct Hin|].
    cbn [curve_points] in Hin. cbn [of_Z number lit Qnum Qden sub mul add div leb] in Hin.
    destruct (less_eq ix (w - 20 * 2)) eqn:E1; [|destruct Hin].
    assert (Hle : ix <= w - 20 * 2).
    { unfold less_eq in E1. destruct (Rle_dec ix (w - 20 * 2)); [assumption|discriminate]. }
    destruct (less_eq (ix / (w - 20 * 2)) (1 / 100)
              || less_eq (99 / 100) (ix / (w - 20 * 2)))%bool eqn:E2.
    + apply (IH (ix + 5)); [lra | exact Hin].
    + destruct Hin as [<-|Hin]; [|apply (IH (ix + 5)); [lra | exact Hin]].
      cbn [fst snd].
      apply orb_false_elim in E2. destruct E2 as [E2 E3].
      unfold less_eq in E2, E3.
      destruct (Rle_dec (ix / (w - 20 * 2)) (1 / 100)); [discriminate|].
      destruct (Rle_dec (99 / 100) (ix / (w - 20 * 2))); [discriminate|].
      destruct (Band (ix / (w - 20 * 2)) ltac:(lra)) as [Hy Hc].
      rewrite Hc. split; [exact Hy | lra].
  - intros Hp w. unfold curve_marker. cbn [snd].
    unfold curve_currentN.
    change (Prevalence.prevalence st) with p.
    rewrite js_or_exact by lra.
    apply Band. cbn. split.
    + apply Rmult_le_pos; lra.
    + apply (Rmult_le_reg_r 100); [lra|]. unfold Rdiv.
      rewrite Rmult_assoc, Rinv_l by lra. lra.
Qed.

Lemma curve_within_band_witness :
  curve_yVal (prevalence_state 20 5 true false (IZR 1000)) 300
    (curve_nVal (prevalence_state 20 5 true false (IZR 1000)) (1 / 2))
  = 300 - 20 - (300 - 40) * (85 / 100).
Proof.
  exact (proj1 (proj2 (curve_within_band 20 5 300 1000%Z true false
                         ltac:(lra) ltac:(lia) ltac:(lra)))).
Defined.
End CurveClaims.

(** ** The background particles *)

Module ExactParticle.
Import Exact ExactFacts.
Open Scope R_scope.

(** One coordinate of [update]: advance, then wrap at the two edges. *)
Lemma wrap_bounds (x v w : R) :
  0 <= w ->
  let x1 := x + v in
  let x2 := if less x1 0 then w else x1 in
  let x3 := if less w x2 then 0 else x2 in
  0 <= x3 <= w /\ (0 <= x1 <= w -> x3 = x1)
  /\ (x1 < 0 -> x3 = w) /\ (w < x1 -> x3 = 0).
Proof.
  intros Hw x1 x2 x3. subst x3 x2. unfold less.
  destruct (Rlt_dec x1 0) as [H1|H1].
  - destruct (Rlt_dec w w) as [H2|H2]; [lra|].
    repeat split; try lra; intros; lra.
  - destruct (Rlt_dec w x1) as [H2|H2].
    + repeat split; try lra; intros; lra.
    + repeat split; try lra; intros; lra.
Qed.

Lemma update_fields (p : Particle.t R) (w h : R) :
  0 <= w -> 0 <= h ->
  let q := Particle.update p w h in
  0 <= Particle.x q <= w /\ 0 <= Particle.y q <= h
  /\ Particle.vx q = Particle.vx p /\ Particle.vy q = Particle.vy p
  /\ Particle.size q = Particle.size p /\ Particle.color q = Particle.color p.
Proof.
  intros Hw Hh q. subst q. unfold Particle.update.
  cbn [Particle.x Particle.y Particle.vx Particle.vy Particle.size Particle.color].
  destruct (wrap_bounds (Particle.x p) (Particle.vx p) w Hw) as [Hx _].
  destruct (wrap_bounds (Particle.y p) (Particle.vy p) h Hh) as [Hy _].
  repeat split; try apply Hx; try apply Hy.
Qed.
End ExactParticle.

Section ParticleClaims.
Import Exact ExactFacts ExactParticle.
Open Scope R_scope.

(** X21.  In exact arithmetic, on a canvas of non-negative width and
    height, after one frame or more a particle lies on the canvas
    (0 <= x <= w, 0 <= y <= h), wherever it started and whatever its
    velocity, and its velocity, size and colour never change; a step that
    stays on the canvas is the plain move by the velocity, a step past the
    left or top edge lands on the opposite edge, and a step past the right
    or bottom edge lands on 0. *)
Theorem particle_stays_on_canvas (p : Particle.t R) (w h : R) (k : nat) :
  0 <= w -> 0 <= h -> (1 <= k)%nat ->
  let q := frames k w h p in
  let q1 := Particle.update p w h in
  (0 <= Particle.x q <= w /\ 0 <= Particle.y q <= h
   /\ Particle.vx q = Particle.vx p /\ Particle.vy q = Particle.vy p
   /\ Particle.size q = Particle.size p /\ Particle.color q = Particle.color p)
  /\ (0 <= Particle.x p + Particle.vx p <= w ->
      Particle.x q1 = Particle.x p + Particle.vx p)
  /\ (Particle.x p + Particle.vx p < 0 -> Particle.x q1 = w)
  /\ (w < Particle.x p + Particle.vx p -> Particle.x q1 = 0)
  /\ (0 <= Particle.y p + Particle.vy p <= h ->
      Particle.y q1 = Particle.y p + Particle.vy p)
  /\ (Particle.y p + Particle.vy p < 0 -> Particle.y q1 = h)
  /\ (h < Particle.y p + Particle.vy p -> Particle.y q1 = 0).
Proof.
  intros Hw Hh Hk q q1. split.
  - subst q. unfold frames.
    destruct k as [|k]; [lia|]. clear Hk.
    induction k as [|k IH].
    + apply update_fields; assumption.
    + change (Nat.iter (S (S k)) (fun q => Particle.update q w h) p)
        with (Particle.update (Nat.iter (S k) (fun q => Particle.update q w h) p) w h).
      destruct IH as (_ & _ & V1 & V2 & V3 & V4).
      destruct (update_fields (Nat.iter (S k) (fun q => Particle.update q w h) p)
                  w h Hw Hh) as (X & Y & U1 & U2 & U3 & U4).
      cbv zeta in X, Y, U1, U2, U3, U4.
      repeat split; try apply X; try apply Y; congruence.
  - subst q1. unfold Particle.update.
    cbn [Particle.x Particle.y Particle.vx Particle.vy Particle.size Particle.color].
    destruct (wrap_bounds (Particle.x p) (Particle.vx p) w Hw) as (_ & X1 & X2 & X3).
    destruct (wrap_bounds (Particle.y p) (Particle.vy p) h Hh) as (_ & Y1 & Y2 & Y3).
    repeat split; assumption.
Qed.

Lemma particle_stays_on_canvas_witness :
  0 <= Particle.x
         (frames 3 800 600
            {| Particle.x := 799; Particle.y := 1; Particle.vx := 2;
               Particle.vy := -3; Particle.size := 1; Particle.color := "c" |})
    <= 800.
Proof.
  exact (proj1 (proj1 (particle_stays_on_canvas
    {| Particle.x := 799; Particle.y := 1; Particle.vx := 2;
       Particle.vy := -3; Particle.size := 1; Particle.color := "c" |}
    800 600 3 ltac:(lra) ltac:(lra) ltac:(lia)))).
Defined.
End ParticleClaims.

(** ** The previous revision against the current one *)

Module ExactPrevious.
Import Exact ExactFacts ExactQuantiles ExactProportions ExactCounts.
Open Scope R_scope.

(** The single formula of the previous revision is the unrounded Fleiss
    value of the current estimator. *)
Lemma fleiss_is_numerator (za zb p1 p2 r : R) :
  0 < r ->
  Spec.fleiss za zb p1 p2 r
  = Previous.numerator za zb p1 p2 r / Math_pow2 (p1 - p2).
Proof.
  intros Hr.
  unfold Spec.fleiss, Spec.term1, Spec.term2, Spec.pooledVariance,
    Spec.groupVariance, Spec.pAvgQAvg, Spec.pAvg, Spec.sq,
    Previous.numerator, Math_pow2.
  cbn.
  set (pa := (p1 + r * p2) / (1 + r)).
  replace ((r + 1) * (pa * (1 - pa))) with (r * ((1 + 1 / r) * pa * (1 - pa)))
    by (field; lra).
  replace (r * (p1 * (1 - p1)) + p2 * (1 - p2))
    with (r * (p1 * (1 - p1) + p2 * (1 - p2) / r)) by (field; lra).
  rewrite !(sqrt_mult_alt r) by lra.
  set (a := R_sqrt.sqrt ((1 + 1 / r) * pa * (1 - pa))).
  set (g := R_sqrt.sqrt (p1 * (1 - p1) + p2 * (1 - p2) / r)).
  pose proof (sqrt_sqrt r ltac:(lra)) as Er.
  set (s := R_sqrt.sqrt r) in *.
  unfold Rdiv. rewrite Rinv_mult.
  set (iD := / ((p1 - p2) * (p1 - p2))).
  replace ((za * (s * a) + zb * (s * g)) * (za * (s * a) + zb * (s * g)))
    with ((s * s) * ((za * a + zb * g) * (za * a + zb * g))) by ring.
  rewrite Er. field. lra.
Qed.

Lemma percent_recovered_exact (c : R) : (1 - (100 - c) / 100) * 100 = c.
Proof. field. Qed.

(** The Fleiss row of the current estimator, on the alpha and beta the
    calculators pass. *)
Lemma fleiss_row (p1 p2 r conf power : R) (d : bool) :
  0 < r ->
  fleiss (calculateAdvanced p1 p2 r ((100 - conf) / 100) ((100 - power) / 100) d)
  = Spec.groups
      (Spec.withDropout
         (ceil (Previous.numerator (getZAlpha conf) (getZBeta power) p1 p2 r
                / ((p1 - p2) * (p1 - p2)))) d) r.
Proof.
  intros Hr.
  rewrite calculateAdvanced_formulas by (apply less_iff; exact Hr).
  cbv zeta. cbn [fleiss].
  change (($1 - (100 - conf) / 100) * $100)%js
    with ((1 - (100 - conf) / 100) * 100).
  change (($1 - (100 - power) / 100) * $100)%js
    with ((1 - (100 - power) / 100) * 100).
  rewrite !percent_recovered_exact.
  rewrite fleiss_is_numerator by exact Hr. reflexivity.
Qed.

Lemma numerator_exchange (za zb p1 p2 : R) :
  Previous.numerator za zb p2 p1 1 / ((p2 - p1) * (p2 - p1))
  = Previous.numerator za zb p1 p2 1 / ((p1 - p2) * (p1 - p2)).
Proof.
  unfold Previous.numerator, Math_pow2. cbn.
  replace ((p2 + 1 * p1) / (1 + 1)) with ((p1 + 1 * p2) / (1 + 1)) by lra.
  replace (p2 * (1 - p2) + p1 * (1 - p1) / 1)
    with (p1 * (1 - p1) + p2 * (1 - p2) / 1) by lra.
  replace ((p2 - p1) * (p2 - p1)) with ((p1 - p2) * (p1 - p2)) by ring.
  reflexivity.
Qed.
End ExactPrevious.

Section PreviousClaims.
Import Exact ExactFacts ExactQuantiles ExactProportions ExactCounts ExactPrevious.
Open Scope R_scope.

Lemma case_control_agreement (st : CaseControl.State R) :
  0 < CaseControl.ratio st ->
  figures (Previous.CaseControl.calc st) = figures (CaseControl.calc st).
Proof.
  intros Hr. unfold figures, Previous.CaseControl.calc, CaseControl.calc.
  rewrite !parseFloat_exact. rewrite !(js_or_exact (CaseControl.ratio st)) by (apply Rgt_not_eq; exact Hr).
  destruct (Math_abs (CaseControl.or_ st - $1) <? $0.001)%js; [reflexivity|].
  unfold CaseControl.derivedP1.
  destruct (_ >? $0.999)%js; [reflexivity|].
  cbn [n visualData].
  change (($100 - js_or (parseInt (CaseControl.confidence st)) $95) / $100)%js
    with ((100 - js_or (parseInt (CaseControl.confidence st)) 95) / 100).
  change (($100 - parseInt (CaseControl.power st)) / $100)%js
    with ((100 - parseInt (CaseControl.power st)) / 100).
  rewrite fleiss_row by exact Hr.
  unfold Spec.groups, Spec.withDropout, Math_pow2.
  cbn [Estimate.n1 Estimate.n2 Estimate.total].
  destruct (CaseControl.dropout st); reflexivity.
Qed.

Lemma cohort_agreement (st : Previous.Cohort.State R) :
  let P0 := Previous.Cohort.p_unexposed st / 100 in
  let RR := Previous.Cohort.rr st in
  0 < Previous.Cohort.ratio st ->
  1 / 1000 <= Rabs (RR - 1) -> P0 * RR < 1 ->
  1 / 10000 <= Rabs (P0 * RR - P0) ->
  figures (Previous.Cohort.calc st) = figures (Cohort.calc (cohort_state st)).
Proof.
  intros P0 RR Hr H1 H2 H3.
  unfold figures, Previous.Cohort.calc, Cohort.calc, cohort_state.
  cbn [Cohort.p_unexposed Cohort.p_exposed Cohort.power Cohort.confidence
       Cohort.ratio Cohort.dropout].
  rewrite !parseFloat_exact.
  rewrite !(js_or_exact (Previous.Cohort.ratio st)) by (apply Rgt_not_eq; exact Hr).
  fold RR.
  change (Previous.Cohort.p_unexposed st / $100)%js with P0.
  assert (EP : (Previous.Cohort.p_unexposed st * RR / $100)%js = (P0 * RR)%js)
    by (unfold P0; cbn; field).
  rewrite EP.
  assert (G1 : (Math_abs (RR - $1) <? $0.001)%js = false)
    by (apply less_false_iff; exact H1).
  assert (G2 : (P0 * RR >=? $1)%js = false).
  { cbn. unfold less_eq. destruct (Rle_dec 1 (P0 * RR)); [lra | reflexivity]. }
  assert (G3 : (Math_abs (P0 * RR - P0) <? $0.0001)%js = false)
    by (apply less_false_iff; exact H3).
  rewrite G1, G2, G3.
  cbn [n visualData].
  change (($100 - js_or (parseInt (Previous.Cohort.confidence st)) $95) / $100)%js
    with ((100 - js_or (parseInt (Previous.Cohort.confidence st)) 95) / 100).
  change (($100 - parseInt (Previous.Cohort.power st)) / $100)%js
    with ((100 - parseInt (Previous.Cohort.power st)) / 100).
  rewrite fleiss_row by exact Hr.
  unfold Spec.groups, Spec.withDropout, Math_pow2.
  cbn [Estimate.n1 Estimate.n2 Estimate.total].
  destruct (Previous.Cohort.dropout st); reflexivity.
Qed.

Lemma rct_agreement (st : RCT.State R) :
  let P1 := RCT.p1 st / 100 in
  let P2 := RCT.p2 st / 100 in
  RCT.ratio st = 1 ->
  1 / 10000 <= Rabs (P1 - P2) ->
  figures (Previous.RCT.calc st) = figures (RCT.calc st).
Proof.
  intros P1 P2 Hr H1.
  unfold figures, Previous.RCT.calc, RCT.calc.
  rewrite !parseFloat_exact. rewrite Hr.
  rewrite !(js_or_exact 1) by lra.
  change (RCT.p1 st / $100)%js with P1. change (RCT.p2 st / $100)%js with P2.
  assert (G1 : (Math_abs (P1 - P2) <? $0.0001)%js = false)
    by (apply less_false_iff; exact H1).
  assert (Hne : P1 - P2 <> 0).
  { intros E. rewrite E, Rabs_R0 in H1. lra. }
  assert (G2 : (Math_pow2 (P1 - P2) === $0)%js = false).
  { apply same_false_iff. unfold Math_pow2. cbn. nra. }
  rewrite G1, G2.
  cbn [n visualData].
  change (($100 - js_or (parseInt (RCT.confidence st)) $95) / $100)%js
    with ((100 - js_or (parseInt (RCT.confidence st)) 95) / 100).
  change (($100 - parseInt (RCT.power st)) / $100)%js
    with ((100 - parseInt (RCT.power st)) / 100).
  rewrite fleiss_row by lra.
  rewrite numerator_exchange.
  unfold Spec.groups, Spec.withDropout, Math_pow2.
  cbn [Estimate.n1 Estimate.n2 Estimate.total].
  destruct (RCT.dropout st); cbn; f_equal; f_equal; ring.
Qed.

(** X22.  In exact arithmetic, the single formula of the previous revision
    is the Fleiss estimate of the current one.  For every case-control
    state with a ratio above 0 the previous calculator returns the same [n]
    and the same groups for the grid as the current one (the same guards
    fire on the same states); for every state of the previous cohort form
    that passes its guards (risk ratio at least 0.001 from 1, exposed
    proportion below 1) and the guard of the current one, the previous
    calculator returns the same numbers as the current one at the exposed
    proportion baseline * RR.  In binary64 the two case-control calculators
    agree on all 42 states of the sample grid. *)
Theorem previous_revision_agreement :
  (forall st : CaseControl.State R,
      0 < CaseControl.ratio st ->
      figures (Previous.CaseControl.calc st) = figures (CaseControl.calc st))
  /\ (forall st : Previous.Cohort.State R,
         let P0 := Previous.Cohort.p_unexposed st / 100 in
         let RR := Previous.Cohort.rr st in
         0 < Previous.Cohort.ratio st ->
         1 / 1000 <= Rabs (RR - 1) -> P0 * RR < 1 ->
         1 / 10000 <= Rabs (P0 * RR - P0) ->
         figures (Previous.Cohort.calc st)
         = figures (Cohort.calc (cohort_state st)))
  /\ forallb (fun st => same_figures (Previous.CaseControl.calc st)
                                     (CaseControl.calc st))
             case_control_grid = true.
Proof.
  split; [exact case_control_agreement|].
  split; [exact cohort_agreement|].
  vm_compute. reflexivity.
Qed.

Lemma previous_revision_agreement_witness :
  0 < 1
  /\ figures (Previous.CaseControl.calc
                {| CaseControl.p_controls := 40; CaseControl.or_ := 2;
                   CaseControl.power := 80; CaseControl.confidence := 95;
                   CaseControl.ratio := 1; CaseControl.dropout := false |})
     = figures (CaseControl.calc
                  {| CaseControl.p_controls := 40; CaseControl.or_ := 2;
                     CaseControl.power := 80; CaseControl.confidence := 95;
                     CaseControl.ratio := 1; CaseControl.dropout := false |}).
Proof.
  assert (H : 0 < 1) by lra.
  split; [exact H|].
  exact (proj1 previous_revision_agreement
           {| CaseControl.p_controls := 40; CaseControl.or_ := 2;
              CaseControl.power := 80; CaseControl.confidence := 95;
              CaseControl.ratio := 1; CaseControl.dropout := false |} H).
Defined.

(** X23.  The RCT calculator changed between the revisions.  In exact
    arithmetic the two agree on [n] and on the groups when the ratio is 1
    and the proportions differ by at least 0.0001.  At other ratios the
    current one passes the proportions to the estimator in the other
    order, and the numbers differ: in binary64, 50% against 40% at ratio 2
    gives 870 (580 and 290) in the previous revision and 876 (584 and 292)
    in the current one.  The guard changed too: proportions 0.00005 apart
    are rejected with 'Error' now, and were answered with 3140481590
    participants before. *)
Theorem rct_revision_changed :
  (forall st : RCT.State R,
      RCT.ratio st = 1 ->
      1 / 10000 <= Rabs (RCT.p1 st / 100 - RCT.p2 st / 100) ->
      figures (Previous.RCT.calc st) = figures (RCT.calc st))
  /\ (figures (Previous.RCT.calc (rct_unequal_sample : RCT.State float))
      = (NNumber ($870)%js, Some (groups_sample ($580)%js ($290)%js))
      /\ figures (RCT.calc (rct_unequal_sample : RCT.State float))
         = (NNumber ($876)%js, Some (groups_sample ($584)%js ($292)%js)))
  /\ (n (RCT.calc (rct_close_sample : RCT.State float)) = NString "Error"
      /\ n (Previous.RCT.calc (rct_close_sample : RCT.State float))
         = NNumber ($3140481590)%js).
Proof.
  split; [exact rct_agreement|].
  split; vm_compute; split; reflexivity.
Qed.

Lemma rct_revision_changed_witness :
  figures (Previous.RCT.calc
             {| RCT.p1 := 50; RCT.p2 := 40; RCT.power := 80;
                RCT.confidence := 95; RCT.ratio := 1; RCT.dropout := true |})
  = figures (RCT.calc
               {| RCT.p1 := 50; RCT.p2 := 40; RCT.power := 80;
                  RCT.confidence := 95; RCT.ratio := 1; RCT.dropout := true |}).
Proof.
  assert (H1 : RCT.ratio {| RCT.p1 := 50; RCT.p2 := 40; RCT.power := 80;
                            RCT.confidence := 95; RCT.ratio := 1;
                            RCT.dropout := true |} = 1) by reflexivity.
  assert (H2 : 1 / 10000 <= Rabs (50 / 100 - 40 / 100)).
  { replace (50 / 100 - 40 / 100) with (1 / 10) by lra.
    rewrite Rabs_right by lra. lra. }
  exact (proj1 rct_revision_changed
           {| RCT.p1 := 50; RCT.p2 := 40; RCT.power := 80;
              RCT.confidence := 95; RCT.ratio := 1; RCT.dropout := true |}
           H1 H2).
Defined.
End PreviousClaims.

(** ** The curve of the first version *)

Section FirstCurveClaims.
Import Exact ExactFacts.
Open Scope R_scope.

(** X24.  In exact arithmetic, on a canvas more than 40 pixels high and for
    a precision other than 0, the marker of the first version, drawn from
    the rounded [n], lies on the curve or above it by less than the height
    of one participant; there is no clamp, and the marker is above the
    graph area exactly when n > 600, above the canvas exactly when
    n * (h - 40) > 600 * (h - 20): at P = 50 and D = 4, where n = 625, it
    has left the graph area. *)
Theorem first_version_marker (p d w h : R) :
  d <> 0 -> 40 < h ->
  let n := updateCalculation p d in
  let cy := snd (first_marker p n w h) in
  let y := first_yVal h (first_nVal d (p / 100)) in
  (y - first_pixelsPerN h < cy <= y)
  /\ (cy < 20 <-> 600 < n)
  /\ (cy < 0 <-> 600 * (h - 20) < n * (h - 40))
  /\ updateCalculation 50 4 = 625.
Proof.
  intros Hd Hh n cy y. subst cy y.
  unfold first_marker, first_yVal, first_nVal, first_pixelsPerN. cbn [snd].
  assert (En : n = ceil (4 * (p / 100) * (1 - p / 100) / (d / 100 * (d / 100))))
    by reflexivity.
  destruct (ceil_bounds (4 * (p / 100) * (1 - p / 100) / (d / 100 * (d / 100))))
    as [B1 B2].
  rewrite <- En in B1, B2. clearbody n. cbn.
  set (v := 4 * (p / 100) * (1 - p / 100) / (d / 100 * (d / 100))) in *.
  replace (h - 20 * 2) with (h - 40) by lra.
  assert (Hs : 0 < (h - 40) / 600) by lra.
  set (s := (h - 40) / 600) in *.
  assert (Eh : h = 40 + 600 * s) by (unfold s; lra).
  clearbody s.
  split; [split; nra|].
  split.
  { split; intros H.
    - destruct (Rlt_le_dec 600 n) as [L|L]; [exact L|].
      assert (0 <= s * (600 - n)) by (apply Rmult_le_pos; lra). lra.
    - assert (0 < s * (n - 600)) by (apply Rmult_lt_0_compat; lra). lra. }
  split.
  { rewrite Eh. split; intros H.
    - replace (40 + 600 * s - 40) with (600 * s) by ring. nra.
    - replace (40 + 600 * s - 40) with (600 * s) in H by ring. nra. }
  unfold updateCalculation, FORMULA_CONSTANT. cbn.
  apply (ceil_unique _ 625). lra.
Qed.

Lemma first_version_marker_witness :
  snd (first_marker 50 (updateCalculation 50 4) 800 300) < 20
  <-> 600 < updateCalculation 50 4.
Proof.
  exact (proj1 (proj2 (first_version_marker 50 4 800 300 ltac:(lra) ltac:(lra)))).
Defined.
End FirstCurveClaims.
